(** * Regression on order statistics (wqio/algo/ros.py)

    A shallow embedding of the censored-data estimator [MR] of
    [src/wqio/algo/ros.py] and the proofs of its specification.

    Numbers.  The source computes in numpy [float64].  The embedding keeps
    the special values ([inf], [-inf], [NaN]) with the behaviour numpy and
    pandas give them (comparisons with [NaN] are false, [Series.min] skips
    [NaN], a sort puts it last, a division by zero gives [nan] or an
    infinity) and takes finite values as exact rationals: rounding,
    overflow and signed zeros are not modelled.  A result of an observation
    is any [float64]: the constructor's own test lets [inf] and [NaN]
    through.

    Tables.  [self.data] is a list of rows in the order the frame has them;
    the columns every run of [__init__] creates (DLIndex, Norm Ranks,
    Avg Ranks, final_data) are fields, the columns only the regression
    branch creates (plot_pos, Zprelim, modeled_data) are optional fields,
    [None] when the column was never assigned.  [self.DLs] is a list of
    rows with the seven columns of the source.

    Input.  The argument [data] is a DataFrame whose result column holds
    floats, and [dist] is the default: the constructor's [isinstance] test,
    its conversion error and the [getattr] on [scipy.stats] are outside the
    embedding.

    Proofs.  On data whose results are all finite the run is the one of
    [Exact], the same program over rationals ([init_lift]); the lemmas are
    proved there and carried over. *)

From Stdlib Require Import QArith Qminmax Lqa ZArith Lia String Permutation.
From stdpp Require Import base option list sorting.

Local Open Scope Q_scope.

(** ** float64: exact rationals with the IEEE special values *)

Inductive float64 : Type :=
| Fin (q : Q)
| PInf
| NInf
| NaN.

Definition Qltb (a b : Q) : bool := negb (Qle_bool b a).

(** The infinity (or NaN) with the sign of a comparison against zero. *)
Definition finf (c : comparison) : float64 :=
  match c with Gt => PInf | Lt => NInf | Eq => NaN end.

Definition fopp (x : float64) : float64 :=
  match x with
  | Fin q => Fin (- q)
  | PInf => NInf
  | NInf => PInf
  | NaN => NaN
  end.

Definition fadd (x y : float64) : float64 :=
  match x, y with
  | NaN, _ | _, NaN => NaN
  | Fin a, Fin b => Fin (a + b)
  | PInf, NInf | NInf, PInf => NaN
  | PInf, _ | _, PInf => PInf
  | NInf, _ | _, NInf => NInf
  end.

Definition fsub (x y : float64) : float64 := fadd x (fopp y).

Definition fmul (x y : float64) : float64 :=
  match x, y with
  | NaN, _ | _, NaN => NaN
  | Fin a, Fin b => Fin (a * b)
  | PInf, Fin b | Fin b, PInf => finf (b ?= 0)
  | NInf, Fin b | Fin b, NInf => finf (0 ?= b)
  | PInf, PInf | NInf, NInf => PInf
  | PInf, NInf | NInf, PInf => NInf
  end.

(** numpy's float64 division: a zero divisor gives [nan] or an infinity
    (with a RuntimeWarning), never an exception. *)
Definition fdiv (x y : float64) : float64 :=
  match x, y with
  | NaN, _ | _, NaN => NaN
  | Fin a, Fin b => if Qeq_bool b 0 then finf (a ?= 0) else Fin (a / b)
  | Fin _, (PInf | NInf) => Fin 0
  | PInf, Fin b => if Qltb b 0 then NInf else PInf
  | NInf, Fin b => if Qltb b 0 then PInf else NInf
  | (PInf | NInf), (PInf | NInf) => NaN
  end.

Definition fleb (x y : float64) : bool :=
  match x, y with
  | NaN, _ | _, NaN => false
  | Fin a, Fin b => Qle_bool a b
  | NInf, _ | _, PInf => true
  | _, _ => false
  end.

Definition fltb (x y : float64) : bool :=
  match x, y with
  | NaN, _ | _, NaN => false
  | Fin a, Fin b => Qltb a b
  | PInf, _ | _, NInf => false
  | _, _ => true
  end.

Definition feqb (x y : float64) : bool :=
  match x, y with
  | Fin a, Fin b => Qeq_bool a b
  | PInf, PInf | NInf, NInf => true
  | _, _ => false
  end.

(** An integer count stored in a float column. *)
Definition of_nat (n : nat) : float64 := Fin (inject_Z (Z.of_nat n)).

Definition fsum (l : list float64) : float64 := fold_left fadd l (Fin 0).

(** [Series.mean()]: the sum over the count, [nan] for an empty selection. *)
Definition mean (l : list float64) : float64 := fdiv (fsum l) (of_nat (length l)).

Definition is_nan (x : float64) : bool :=
  match x with NaN => true | _ => false end.

(** [Series.min()]: [NaN] values are skipped; [nan] for a series that is
    empty or all [NaN]. *)
Definition fmin (x y : float64) : float64 := if fltb y x then y else x.

Definition series_min (l : list float64) : float64 :=
  match List.filter (fun x => negb (is_nan x)) l with
  | [] => NaN
  | x :: l' => fold_left fmin l' x
  end.

(** [ndarray.min()]: a [NaN] in the array is the result.  The source calls
    it on a non-empty array only. *)
Definition array_min (l : list float64) : float64 :=
  if existsb is_nan l then NaN else series_min l.

(** The order of a sort on a float column: ascending, [NaN] last. *)
Definition sort_le (x y : float64) : bool :=
  match x, y with
  | _, NaN => true
  | NaN, _ => false
  | _, _ => fleb x y
  end.

(** Equality of two cells as a hash table of floats takes it: [NaN] is one
    value. *)
Definition same_value (x y : float64) : bool :=
  feqb x y || (is_nan x && is_nan y).

(** ** Errors the constructor can raise *)

Inductive exn : Type :=
| ValueError (msg : string)
| IndexError.

Inductive result (A : Type) : Type :=
| OK (a : A)
| Raise (e : exn).
Arguments OK {A} a.
Arguments Raise {A} e.

#[global] Instance result_ret : MRet result := fun A a => OK a.
#[global] Instance result_bind : MBind result := fun A B f m =>
  match m with
  | OK a => f a
  | Raise e => Raise e
  end.

(** [apply(f, axis=1)] with a function that may raise: the first exception
    escapes. *)
Fixpoint apply_rows {A B} (f : A -> result B) (l : list A) : result (list B) :=
  match l with
  | [] => OK []
  | x :: l' => y ← f x; ys ← apply_rows f l'; OK (y :: ys)
  end.

(** ** Tables *)

(** One observation: its index label, its result and its qualifier. *)
Record obs : Type := { index : Z; res : float64; qual : string }.

(** A row once [DLIndex] is assigned. *)
Record indexed : Type := { ob :> obs; DLIndex : nat }.

(** A row after [_ros_ranks]. *)
Record ranked : Type :=
  { ix :> indexed; Norm_Ranks : float64; Avg_Ranks : float64 }.

(** A row of the frame [estimator] returns. *)
Record estimated : Type :=
  { rk :> ranked;
    plot_pos : option float64;
    Zprelim : option float64;
    modeled_data : option float64;
    final_data : float64 }.

(** A row of [self.DLs]. *)
Record dlrow : Type :=
  { DL : float64; lower : float64; upper : float64;
    A : float64; B : float64; C : float64; PE : float64 }.

Definition set_PE (d : dlrow) (v : float64) : dlrow :=
  {| DL := DL d; lower := lower d; upper := upper d;
     A := A d; B := B d; C := C d; PE := v |}.

Local Open Scope string_scope.

Definition is_ND (r : obs) : bool := String.eqb (qual r) "ND".
Definition is_detect (r : obs) : bool := negb (String.eqb (qual r) "ND").

(** ** rosSort *)

(** [DataFrame.sort(columns=rescol)]: ascending by result, [NaN] last.  The
    order of equal results is the sort's own; a stable insertion sort stands
    for it. *)
Fixpoint sort_insert (x : obs) (l : list obs) : list obs :=
  match l with
  | [] => [x]
  | y :: l' => if sort_le (res x) (res y) then x :: y :: l'
               else y :: sort_insert x l'
  end.

Definition sort_res (l : list obs) : list obs := foldr sort_insert [] l.

Definition rosSort (dataframe : list obs) (ndsymbol : string) : list obs :=
  let nondetects :=
    sort_res (List.filter (fun r => String.eqb (qual r) ndsymbol) dataframe) in
  let detects :=
    sort_res (List.filter (fun r => negb (String.eqb (qual r) ndsymbol)) dataframe) in
  nondetects ++ detects.

(** ** MR.cohn *)

Section Cohn.
Variable data : list obs.

(** The counts read only the [lower] and [upper] columns of their row. *)
Definition _A (lo up : float64) : nat :=
  length (List.filter (fun r =>
    fleb lo (res r) && fltb (res r) up && is_detect r) data).

Definition _B (lo : float64) : nat :=
  let LTE_nondets :=
    length (List.filter (fun r => fleb (res r) lo && is_ND r) data) in
  let LT_detects :=
    length (List.filter (fun r => fltb (res r) lo && is_detect r) data) in
  (LTE_nondets + LT_detects)%nat.

Definition _C (lo : float64) : nat :=
  length (List.filter (fun r => feqb (res r) lo) (List.filter is_ND data)).
End Cohn.

(** [pandas.unique]: the distinct values in order of first appearance. *)
Fixpoint unique (l : list float64) : list float64 :=
  match l with
  | [] => []
  | x :: l' => x :: List.filter (fun y => negb (same_value y x)) (unique l')
  end.

(** [DLs['DL'].shift(-1)]: each limit's successor, NaN after the last. *)
Fixpoint shift (l : list float64) : list float64 :=
  match l with
  | [] => []
  | _ :: l' =>
      match l' with
      | [] => [NaN]
      | y :: _ => y :: shift l'
      end
  end.

(** [fillna(value=np.inf)] on one cell. *)
Definition fillna (x : float64) : float64 :=
  match x with NaN => PInf | _ => x end.

(** The row [reindex] appends: every column NaN until [PE] is set. *)
Definition nan_row : dlrow :=
  {| DL := NaN; lower := NaN; upper := NaN;
     A := NaN; B := NaN; C := NaN; PE := Fin 0 |}.

(** The array of limits: the unique censored values, with the smallest
    result stacked in front when it lies below all of them. *)
Definition cohn_limits (data : list obs) (DLs : list float64) : list float64 :=
  if fltb (series_min (map res data)) (array_min DLs)
  then series_min (map res data) :: DLs
  else DLs.

(** The lower and upper columns.  With more than one limit [fillna] runs
    over the whole table, the DL and lower columns included. *)
Definition cohn_bounds (DLs : list float64) : list (float64 * float64) :=
  if (1 <? length DLs)%nat
  then zip (map fillna DLs) (map fillna (shift DLs))
  else zip DLs (map (fun _ => PInf) DLs).

Definition cohn_row (data : list obs) (lu : float64 * float64) : dlrow :=
  {| DL := fst lu; lower := fst lu; upper := snd lu;
     A := of_nat (_A data (fst lu) (snd lu));
     B := of_nat (_B data (fst lu));
     C := of_nat (_C data (fst lu));
     PE := Fin 0 |}.

Definition cohn (data : list obs) : list dlrow :=
  let DLs := unique (map res (List.filter is_ND data)) in
  if (0 <? length DLs)%nat then
    map (cohn_row data) (cohn_bounds (cohn_limits data DLs)) ++ [nan_row]
  else [].

(** ** _ros_DL_index *)

(** [np.where(cond)[0]]: the positions at which the condition holds. *)
Fixpoint np_where {T} (p : T -> bool) (k : nat) (l : list T) : list nat :=
  match l with
  | [] => []
  | x :: l' => if p x then k :: np_where p (S k) l' else np_where p (S k) l'
  end.

Definition _ros_DL_index (DLs : list dlrow) (row : obs) : result nat :=
  if (0 <? length DLs)%nat then
    let index := np_where (fun d => fleb (DL d) (res row)) 0 DLs in
    match last index with
    | Some i => OK i
    | None => Raise IndexError
    end
  else OK 0%nat.

(** ** MR._ros_ranks *)

(** [self.data.loc[index, 'Norm Ranks'] = v]: every row carrying the label
    is assigned. *)
Definition loc_set (labels : list Z) (lbl : Z) (v : float64)
    (col : list float64) : list float64 :=
  zip_with (fun l x => if Z.eqb l lbl then v else x) labels col.

Section Ranks.
Variable data : list indexed.

(** [.iloc[n]] on a column of the frame; [n] comes from [enumerate] over
    the frame's own index, so the default is never read. *)
Definition iloc_DLIndex (n : nat) : nat :=
  match (data !! n : option indexed) with Some r => DLIndex r | None => 0%nat end.
Definition iloc_qual (n : nat) : string :=
  match (data !! n : option indexed) with Some r => qual r | None => "" end.

(** [self.data.index]. *)
Definition labels : list Z := map (fun r : indexed => index r) data.

Definition rank_body (col : list float64) (ni : nat * Z) : list float64 :=
  let (n, idx) := ni in
  if (n =? 0)%nat
     || negb (iloc_DLIndex n =? iloc_DLIndex (n - 1))%nat
     || negb (String.eqb (iloc_qual n) (iloc_qual (n - 1)))
  then loc_set labels idx (Fin 1) col
  else loc_set labels idx
         (fadd (nth (n - 1) col NaN) (Fin 1)) col.

Definition norm_ranks (N_tot : nat) : list float64 :=
  fold_left rank_body
    (zip (seq 0 (length labels)) labels)
    (map (fun _ => of_nat N_tot) data).

(** [avgrank(r)] over the frame with its Norm Ranks column [nr]. *)
Definition avgrank (nr : list float64) (r : indexed * float64) : float64 :=
  if negb (String.eqb (qual (fst r)) "ND") then
    let index := fun x : indexed * float64 =>
      (DLIndex (fst x) =? DLIndex (fst r))%nat
      && feqb (res (fst x)) (res (fst r))
      && negb (String.eqb (qual (fst x)) "ND") in
    mean (map snd (List.filter index (zip data nr)))
  else snd r.

Definition _ros_ranks (N_tot : nat) : list ranked :=
  let nr := norm_ranks N_tot in
  map (fun r => {| ix := fst r; Norm_Ranks := snd r; Avg_Ranks := avgrank nr r |})
      (zip data nr).
End Ranks.

(** ** MR.estimator *)

(** The instance once [_ros_ranks] has run: what [estimator] reads. *)
Record MRself : Type :=
  { self_N_tot : nat;
    self_N_nd : nat;
    self_fitlogs : bool;
    self_DLs : list dlrow;
    self_data : list ranked }.

(** What [estimator] leaves behind: the table with its [PE] column as the
    loop left it, the [fit] attribute ([None] when it was never set) and
    the frame it returns. *)
Record estimate : Type :=
  { est_DLs : list dlrow;
    est_fit : option (float64 * float64);
    est_data : list estimated }.

(** One pass of the loop over [self.DLs.index[:-1][::-1]]; the labels of
    the table are its positions, and [j] and [j+1] are rows of it. *)
Definition PE_body (DLs : list dlrow) (j : nat) : list dlrow :=
  match DLs !! j, DLs !! (j + 1)%nat with
  | Some dj, Some dj1 =>
      <[ j := set_PE dj
                (fadd (PE dj1)
                      (fmul (fdiv (A dj) (fadd (A dj) (B dj)))
                            (fsub (Fin 1) (PE dj1)))) ]> DLs
  | _, _ => DLs
  end.

Definition compute_PE (DLs : list dlrow) : list dlrow :=
  fold_left PE_body (rev (seq 0 (length DLs - 1))) DLs.

Definition _ros_plotting_pos (DLs : list dlrow) (row : ranked) : result float64 :=
  match DLs !! DLIndex row with
  | None => Raise IndexError
  | Some dl_1 =>
      match DLs !! (DLIndex row + 1)%nat with
      | None => Raise IndexError
      | Some dl_2 =>
          if String.eqb (qual row) "ND" then
            OK (fdiv (fmul (fsub (Fin 1) (PE dl_1)) (Norm_Ranks row))
                     (fadd (C dl_1) (Fin 1)))
          else
            OK (fadd (fsub (Fin 1) (PE dl_1))
                     (fdiv (fmul (fsub (PE dl_1) (PE dl_2)) (Norm_Ranks row))
                           (fadd (A dl_1) (Fin 1))))
      end
  end.

Definition _select_half_DLs (row : ranked) : float64 :=
  if String.eqb (qual row) "ND" then fmul (Fin (1 # 2)) (res row)
  else res row.

(** [modeled] is the row's cell of the modeled_data column. *)
Definition _select_final_data (row : ranked) (modeled : float64) : float64 :=
  if String.eqb (qual row) "ND" then modeled else res row.

(** The test of the second branch.  Both counts are Python integers and the
    division is true division; [or] does not evaluate it when the first
    test holds, which is the case whenever [N_tot] is zero here. *)
Definition too_few_detects (N_tot N_nd : nat) : bool :=
  (Z.of_nat N_tot - Z.of_nat N_nd <? 2)%Z
  || fltb (Fin (8 # 10)) (fdiv (of_nat N_nd) (of_nat N_tot)).


Section Estimator.
(** The library functions the regression branch calls: the quantile
    function [self.dist.ppf], [np.log], [np.exp], and the slope and
    intercept of [stats.linregress]. *)
Variable ppf : float64 -> float64.
Variable np_log np_exp : float64 -> float64.
Variable linregress : list float64 -> list float64 -> float64 * float64.

(** The [else] branch of [estimator] from the Zprelim column on, given the
    table [DLs] the loop left and the plot_pos column [pp]. *)
Definition fit_and_model (self : MRself) (DLs : list dlrow)
    (pp : list float64) : estimate :=
  let rows := zip (self_data self) (zip pp (map ppf pp)) in
  let detects :=
    List.filter (fun x : ranked * (float64 * float64) => is_detect (fst x)) rows in
  let detect_vals :=
    if self_fitlogs self
    then map (fun x : ranked * (float64 * float64) => np_log (res (fst x))) detects
    else map (fun x : ranked * (float64 * float64) => res (fst x)) detects in
  let fit := linregress (map (fun x => snd (snd x)) detects) detect_vals in
  let slope := fst fit in
  let intercept := snd fit in
  (* the assignment aligns on the index: rows outside the selection get NaN *)
  let modeled := fun x : ranked * (float64 * float64) =>
    if is_ND (fst x) then np_exp (fadd (fmul slope (snd (snd x))) intercept)
    else NaN in
  {| est_DLs := DLs;
     est_fit := Some fit;
     est_data := map (fun x : ranked * (float64 * float64) =>
       {| rk := fst x;
          plot_pos := Some (fst (snd x));
          Zprelim := Some (snd (snd x));
          modeled_data := Some (modeled x);
          final_data := _select_final_data (fst x) (modeled x) |}) rows |}.

Definition estimator (self : MRself) : result estimate :=
  if (self_N_nd self =? 0)%nat then
    OK {| est_DLs := self_DLs self;
          est_fit := None;
          est_data := map (fun r : ranked =>
            {| rk := r; plot_pos := None; Zprelim := None;
               modeled_data := None; final_data := res r |})
            (self_data self) |}
  else if too_few_detects (self_N_tot self) (self_N_nd self) then
    OK {| est_DLs := self_DLs self;
          est_fit := None;
          est_data := map (fun r : ranked =>
            {| rk := r; plot_pos := None; Zprelim := None;
               modeled_data := None; final_data := _select_half_DLs r |})
            (self_data self) |}
  else
    let DLs := compute_PE (self_DLs self) in
    pp ← apply_rows (_ros_plotting_pos DLs) (self_data self);
    OK (fit_and_model self DLs pp).

(** ** MR.__init__ *)

(** [newdata.shape[0]] of the rows whose qualifier is [ndsymbol]. *)
Definition count_nd (ndsymbol : string) (data : list obs) : nat :=
  length (List.filter (fun r => String.eqb (qual r) ndsymbol) data).

(** The qualifier set to 'ND' or '='. *)
Definition standardize (ndsymbol : string) (r : obs) : obs :=
  {| index := index r; res := res r;
     qual := if String.eqb (qual r) ndsymbol then "ND" else "=" |}.

(** [self.data.apply(_ros_DL_index, axis=1)] stored as DLIndex. *)
Definition assign_DLIndex (DLs : list dlrow) (data : list obs)
    : result (list indexed) :=
  apply_rows (fun r => i ← _ros_DL_index DLs r; OK {| ob := r; DLIndex := i |})
             data.

(** A row of the public [data] attribute: final_data, res, qual. *)
Record final_row : Type :=
  { f_index : Z; f_final_data : float64; f_res : float64; f_qual : string }.

Record MR : Type :=
  { N_tot : nat;
    N_nd : nat;
    fitlogs : bool;
    DLs : list dlrow;
    fit : option (float64 * float64);
    data : list final_row;
    debug : list estimated }.

(** [self.data[['final_data', 'res', 'qual']]]. *)
Definition select_columns (r : estimated) : final_row :=
  {| f_index := index r; f_final_data := final_data r;
     f_res := res r; f_qual := qual r |}.

Definition __init__ (data : list obs) (ndsymbol : string) (fitlogs : bool)
    : result MR :=
  if negb (bool_decide (NoDup (map index data))) then
    Raise (ValueError "Index of input DataFrame `data` must be unique")
  else if fleb (series_min (map res data)) (Fin 0) then
    Raise (ValueError "All result values of `data` must be positive")
  else
    let N_tot := length data in
    let N_nd := count_nd ndsymbol data in
    let newdata := map (standardize ndsymbol) data in
    let sorted := rosSort newdata ndsymbol in
    let DLs := cohn sorted in
    withidx ← assign_DLIndex DLs sorted;
    let ranks := _ros_ranks withidx N_tot in
    e ← estimator {| self_N_tot := N_tot; self_N_nd := N_nd;
                      self_fitlogs := fitlogs; self_DLs := DLs;
                      self_data := ranks |};
    OK {| N_tot := N_tot; N_nd := N_nd; fitlogs := fitlogs;
          DLs := est_DLs e; fit := est_fit e;
          data := map select_columns (est_data e);
          debug := est_data e |}.
End Estimator.

(** ** Names for the stages, used in the statements *)

(** [self.data] after the sort. *)
Definition canonical (data : list obs) (ndsymbol : string) : list obs :=
  rosSort (map (standardize ndsymbol) data) ndsymbol.

(** A finite positive number. *)
Definition positive (x : float64) : Prop := exists q, x = Fin q /\ (0 < q)%Q.

(** The inputs of the statements: a unique index, and results that are
    finite positive numbers. *)
Definition valid (data : list obs) : Prop :=
  NoDup (map index data) /\ Forall (fun r => positive (res r)) data.

(** ** The words of the specification *)

(** An observation is censored when its qualifier is the non-detect symbol. *)
Definition censored (ndsymbol : string) (r : obs) : bool :=
  String.eqb (qual r) ndsymbol.

Definition count (p : obs -> bool) (data : list obs) : nat :=
  length (List.filter p data).

Definition n_censored (ndsymbol : string) (data : list obs) : nat :=
  count (censored ndsymbol) data.

Definition n_detected (ndsymbol : string) (data : list obs) : nat :=
  count (fun r => negb (censored ndsymbol r)) data.

(** The censored fraction of a non-empty data set. *)
Definition censored_fraction (ndsymbol : string) (data : list obs) : Q :=
  (inject_Z (Z.of_nat (n_censored ndsymbol data))
   / inject_Z (Z.of_nat (length data)))%Q.

(** At least one censored observation, at least two detected ones, and a
    censored fraction of at most 0.8. *)
Definition regression_path (ndsymbol : string) (data : list obs) : Prop :=
  (0 < n_censored ndsymbol data)%nat /\
  (2 <= n_detected ndsymbol data)%nat /\
  (censored_fraction ndsymbol data <= 8 # 10)%Q.

(** At least one censored observation, and fewer than two detected ones or
    a censored fraction above 0.8. *)
Definition fallback_path (ndsymbol : string) (data : list obs) : Prop :=
  (0 < n_censored ndsymbol data)%nat /\
  ((n_detected ndsymbol data < 2)%nat \/
   (8 # 10 < censored_fraction ndsymbol data)%Q).

(** A: detected observations with value in [lower, upper). *)
Definition spec_A (ndsymbol : string) (data : list obs) (lo up : float64) : nat :=
  count (fun r => negb (censored ndsymbol r)
                  && fleb lo (res r) && fltb (res r) up) data.

(** C: censored observations whose value equals lower. *)
Definition spec_C (ndsymbol : string) (data : list obs) (lo : float64) : nat :=
  count (fun r => censored ndsymbol r && feqb (res r) lo) data.

(** B: observations of either kind below lower, plus the censored ones at
    lower. *)
Definition spec_B (ndsymbol : string) (data : list obs) (lo : float64) : nat :=
  (count (fun r => fltb (res r) lo) data + spec_C ndsymbol data lo)%nat.

(** [x] is a detected row with the DLIndex and the value of [r]: the
    selection [avgrank] averages over. *)
Definition tied_with (r x : ranked) : bool :=
  (DLIndex x =? DLIndex r)%nat && feqb (res x) (res r) && is_detect x.

(** The three columns of a row of the public [data] attribute, and the
    same three of an input observation once its qualifier is standardised. *)
Definition final_row_key (r : final_row) : Z * float64 * string :=
  (f_index r, f_res r, f_qual r).

Definition obs_key (ndsymbol : string) (x : obs) : Z * float64 * string :=
  (index x, res x, if censored ndsymbol x then "ND" else "=").

(** ** Data sets to instantiate the statements *)

(** The data of the docstring of [rosSort]: four censored results and eight
    detected ones. *)
Definition example_data : list obs :=
  [ {| index := 0; res := Fin 2; qual := "ND" |};
    {| index := 1; res := Fin 4; qual := "ND" |};
    {| index := 2; res := Fin 4; qual := "ND" |};
    {| index := 3; res := Fin 10; qual := "ND" |};
    {| index := 4; res := Fin 3; qual := "=" |};
    {| index := 5; res := Fin 5; qual := "=" |};
    {| index := 6; res := Fin 6; qual := "=" |};
    {| index := 7; res := Fin 10; qual := "=" |};
    {| index := 8; res := Fin 12; qual := "=" |};
    {| index := 9; res := Fin 40; qual := "=" |};
    {| index := 10; res := Fin 78; qual := "=" |};
    {| index := 11; res := Fin 120; qual := "=" |} ].

(** One detected result among nine censored ones. *)
Definition few_detects_data : list obs :=
  [ {| index := 0; res := Fin 1; qual := "ND" |};
    {| index := 1; res := Fin 1; qual := "ND" |};
    {| index := 2; res := Fin 2; qual := "ND" |};
    {| index := 3; res := Fin 2; qual := "ND" |};
    {| index := 4; res := Fin 2; qual := "ND" |};
    {| index := 5; res := Fin 5; qual := "ND" |};
    {| index := 6; res := Fin 5; qual := "ND" |};
    {| index := 7; res := Fin 5; qual := "ND" |};
    {| index := 8; res := Fin 10; qual := "ND" |};
    {| index := 9; res := Fin 7; qual := "=" |} ].

(** No censored result; the two largest results are tied. *)
Definition detects_only_data : list obs :=
  [ {| index := 0; res := Fin 5; qual := "=" |};
    {| index := 1; res := Fin 3; qual := "=" |};
    {| index := 2; res := Fin 6; qual := "=" |};
    {| index := 3; res := Fin 6; qual := "=" |} ].

(** One censored result, a detected result below it and two tied detected
    results above it. *)
Definition tied_data : list obs :=
  [ {| index := 0; res := Fin 5; qual := "ND" |};
    {| index := 1; res := Fin 3; qual := "=" |};
    {| index := 2; res := Fin 6; qual := "=" |};
    {| index := 3; res := Fin 6; qual := "=" |} ].

(** The data of [tied_data] with the non-detect symbol '<'. *)
Definition lt_symbol_data : list obs :=
  [ {| index := 0; res := Fin 5; qual := "<" |};
    {| index := 1; res := Fin 3; qual := "=" |};
    {| index := 2; res := Fin 6; qual := "=" |};
    {| index := 3; res := Fin 6; qual := "=" |} ].

(** One censored result, two detected results around it and a detected
    result of [inf]: every result is positive, and the constructor's test
    passes. *)
Definition inf_data : list obs :=
  [ {| index := 0; res := Fin 5; qual := "ND" |};
    {| index := 1; res := Fin 3; qual := "=" |};
    {| index := 2; res := Fin 6; qual := "=" |};
    {| index := 3; res := PInf; qual := "=" |} ].

(** One censored result, and a detected result of [NaN]. *)
Definition nan_data : list obs :=
  [ {| index := 0; res := Fin 5; qual := "ND" |};
    {| index := 1; res := NaN; qual := "=" |};
    {| index := 2; res := Fin 6; qual := "=" |} ].

(** * The program on finite results

    The same definitions with the results as rationals: what the program
    above computes when every result is a finite number.  The lemmas of the
    proofs are about these; [init_lift] carries them over. *)

Module Exact.

(** [Series.min()]: [nan] for an empty series. *)
Definition series_min (l : list Q) : float64 :=
  match l with
  | [] => NaN
  | x :: l' => Fin (fold_left Qmin l' x)
  end.

(** ** Tables *)

(** One observation: its index label, its result and its qualifier. *)
Record obs : Type := { index : Z; res : Q; qual : string }.

(** A row once [DLIndex] is assigned. *)
Record indexed : Type := { ob :> obs; DLIndex : nat }.

(** A row after [_ros_ranks]. *)
Record ranked : Type :=
  { ix :> indexed; Norm_Ranks : float64; Avg_Ranks : float64 }.

(** A row of the frame [estimator] returns. *)
Record estimated : Type :=
  { rk :> ranked;
    plot_pos : option float64;
    Zprelim : option float64;
    modeled_data : option float64;
    final_data : float64 }.

Definition is_ND (r : obs) : bool := String.eqb (qual r) "ND".
Definition is_detect (r : obs) : bool := negb (String.eqb (qual r) "ND").

(** ** rosSort *)

(** [DataFrame.sort(columns=rescol)]: ascending by result.  The order of
    equal results is the sort's own; a stable insertion sort stands for it. *)
Fixpoint sort_insert (x : obs) (l : list obs) : list obs :=
  match l with
  | [] => [x]
  | y :: l' => if Qle_bool (res x) (res y) then x :: y :: l'
               else y :: sort_insert x l'
  end.

Definition sort_res (l : list obs) : list obs := foldr sort_insert [] l.

Definition rosSort (dataframe : list obs) (ndsymbol : string) : list obs :=
  let nondetects :=
    sort_res (List.filter (fun r => String.eqb (qual r) ndsymbol) dataframe) in
  let detects :=
    sort_res (List.filter (fun r => negb (String.eqb (qual r) ndsymbol)) dataframe) in
  nondetects ++ detects.

(** ** MR.cohn *)

Section Cohn.
Variable data : list obs.

(** The counts read only the [lower] and [upper] columns of their row. *)
Definition _A (lo up : float64) : nat :=
  length (List.filter (fun r =>
    fleb lo (Fin (res r)) && fltb (Fin (res r)) up && is_detect r) data).

Definition _B (lo : float64) : nat :=
  let LTE_nondets :=
    length (List.filter (fun r => fleb (Fin (res r)) lo && is_ND r) data) in
  let LT_detects :=
    length (List.filter (fun r => fltb (Fin (res r)) lo && is_detect r) data) in
  (LTE_nondets + LT_detects)%nat.

Definition _C (lo : float64) : nat :=
  length (List.filter (fun r => feqb (Fin (res r)) lo) (List.filter is_ND data)).
End Cohn.

(** [pandas.unique]: the distinct values in order of first appearance. *)
Fixpoint unique (l : list Q) : list Q :=
  match l with
  | [] => []
  | x :: l' => x :: List.filter (fun y => negb (Qeq_bool y x)) (unique l')
  end.

(** The array of limits: the unique censored values, with the smallest
    result stacked in front when it lies below all of them. *)
Definition cohn_limits (data : list obs) (DLs : list Q) : list float64 :=
  if fltb (series_min (map res data)) (series_min DLs)
  then series_min (map res data) :: map Fin DLs
  else map Fin DLs.

Definition cohn_row (data : list obs) (lu : float64 * float64) : dlrow :=
  {| DL := fst lu; lower := fst lu; upper := snd lu;
     A := of_nat (_A data (fst lu) (snd lu));
     B := of_nat (_B data (fst lu));
     C := of_nat (_C data (fst lu));
     PE := Fin 0 |}.

Definition cohn (data : list obs) : list dlrow :=
  let DLs := unique (map res (List.filter is_ND data)) in
  if (0 <? length DLs)%nat then
    map (cohn_row data) (cohn_bounds (cohn_limits data DLs)) ++ [nan_row]
  else [].

(** ** _ros_DL_index *)

Definition _ros_DL_index (DLs : list dlrow) (row : obs) : result nat :=
  if (0 <? length DLs)%nat then
    let index := np_where (fun d => fleb (DL d) (Fin (res row))) 0 DLs in
    match last index with
    | Some i => OK i
    | None => Raise IndexError
    end
  else OK 0%nat.

(** ** MR._ros_ranks *)

Section Ranks.
Variable data : list indexed.

(** [.iloc[n]] on a column of the frame; [n] comes from [enumerate] over
    the frame's own index, so the default is never read. *)
Definition iloc_DLIndex (n : nat) : nat :=
  match (data !! n : option indexed) with Some r => DLIndex r | None => 0%nat end.
Definition iloc_qual (n : nat) : string :=
  match (data !! n : option indexed) with Some r => qual r | None => "" end.

(** [self.data.index]. *)
Definition labels : list Z := map (fun r : indexed => index r) data.

Definition rank_body (col : list float64) (ni : nat * Z) : list float64 :=
  let (n, idx) := ni in
  if (n =? 0)%nat
     || negb (iloc_DLIndex n =? iloc_DLIndex (n - 1))%nat
     || negb (String.eqb (iloc_qual n) (iloc_qual (n - 1)))
  then loc_set labels idx (Fin 1) col
  else loc_set labels idx
         (fadd (nth (n - 1) col NaN) (Fin 1)) col.

Definition norm_ranks (N_tot : nat) : list float64 :=
  fold_left rank_body
    (zip (seq 0 (length labels)) labels)
    (map (fun _ => of_nat N_tot) data).

(** [avgrank(r)] over the frame with its Norm Ranks column [nr]. *)
Definition avgrank (nr : list float64) (r : indexed * float64) : float64 :=
  if negb (String.eqb (qual (fst r)) "ND") then
    let index := fun x : indexed * float64 =>
      (DLIndex (fst x) =? DLIndex (fst r))%nat
      && Qeq_bool (res (fst x)) (res (fst r))
      && negb (String.eqb (qual (fst x)) "ND") in
    mean (map snd (List.filter index (zip data nr)))
  else snd r.

Definition _ros_ranks (N_tot : nat) : list ranked :=
  let nr := norm_ranks N_tot in
  map (fun r => {| ix := fst r; Norm_Ranks := snd r; Avg_Ranks := avgrank nr r |})
      (zip data nr).
End Ranks.

(** ** MR.estimator *)

(** The instance once [_ros_ranks] has run: what [estimator] reads. *)
Record MRself : Type :=
  { self_N_tot : nat;
    self_N_nd : nat;
    self_fitlogs : bool;
    self_DLs : list dlrow;
    self_data : list ranked }.

(** What [estimator] leaves behind: the table with its [PE] column as the
    loop left it, the [fit] attribute ([None] when it was never set) and
    the frame it returns. *)
Record estimate : Type :=
  { est_DLs : list dlrow;
    est_fit : option (float64 * float64);
    est_data : list estimated }.

Definition _ros_plotting_pos (DLs : list dlrow) (row : ranked) : result float64 :=
  match DLs !! DLIndex row with
  | None => Raise IndexError
  | Some dl_1 =>
      match DLs !! (DLIndex row + 1)%nat with
      | None => Raise IndexError
      | Some dl_2 =>
          if String.eqb (qual row) "ND" then
            OK (fdiv (fmul (fsub (Fin 1) (PE dl_1)) (Norm_Ranks row))
                     (fadd (C dl_1) (Fin 1)))
          else
            OK (fadd (fsub (Fin 1) (PE dl_1))
                     (fdiv (fmul (fsub (PE dl_1) (PE dl_2)) (Norm_Ranks row))
                           (fadd (A dl_1) (Fin 1))))
      end
  end.

Definition _select_half_DLs (row : ranked) : float64 :=
  if String.eqb (qual row) "ND" then fmul (Fin (1 # 2)) (Fin (res row))
  else Fin (res row).

(** [modeled] is the row's cell of the modeled_data column. *)
Definition _select_final_data (row : ranked) (modeled : float64) : float64 :=
  if String.eqb (qual row) "ND" then modeled else Fin (res row).

Section Estimator.
(** The library functions the regression branch calls: the quantile
    function [self.dist.ppf], [np.log], [np.exp], and the slope and
    intercept of [stats.linregress]. *)
Variable ppf : float64 -> float64.
Variable np_log np_exp : float64 -> float64.
Variable linregress : list float64 -> list float64 -> float64 * float64.

(** The [else] branch of [estimator] from the Zprelim column on, given the
    table [DLs] the loop left and the plot_pos column [pp]. *)
Definition fit_and_model (self : MRself) (DLs : list dlrow)
    (pp : list float64) : estimate :=
  let rows := zip (self_data self) (zip pp (map ppf pp)) in
  let detects :=
    List.filter (fun x : ranked * (float64 * float64) => is_detect (fst x)) rows in
  let detect_vals :=
    if self_fitlogs self
    then map (fun x : ranked * (float64 * float64) => np_log (Fin (res (fst x)))) detects
    else map (fun x : ranked * (float64 * float64) => Fin (res (fst x))) detects in
  let fit := linregress (map (fun x => snd (snd x)) detects) detect_vals in
  let slope := fst fit in
  let intercept := snd fit in
  (* the assignment aligns on the index: rows outside the selection get NaN *)
  let modeled := fun x : ranked * (float64 * float64) =>
    if is_ND (fst x) then np_exp (fadd (fmul slope (snd (snd x))) intercept)
    else NaN in
  {| est_DLs := DLs;
     est_fit := Some fit;
     est_data := map (fun x : ranked * (float64 * float64) =>
       {| rk := fst x;
          plot_pos := Some (fst (snd x));
          Zprelim := Some (snd (snd x));
          modeled_data := Some (modeled x);
          final_data := _select_final_data (fst x) (modeled x) |}) rows |}.

Definition estimator (self : MRself) : result estimate :=
  if (self_N_nd self =? 0)%nat then
    OK {| est_DLs := self_DLs self;
          est_fit := None;
          est_data := map (fun r : ranked =>
            {| rk := r; plot_pos := None; Zprelim := None;
               modeled_data := None; final_data := Fin (res r) |})
            (self_data self) |}
  else if too_few_detects (self_N_tot self) (self_N_nd self) then
    OK {| est_DLs := self_DLs self;
          est_fit := None;
          est_data := map (fun r : ranked =>
            {| rk := r; plot_pos := None; Zprelim := None;
               modeled_data := None; final_data := _select_half_DLs r |})
            (self_data self) |}
  else
    let DLs := compute_PE (self_DLs self) in
    pp ← apply_rows (_ros_plotting_pos DLs) (self_data self);
    OK (fit_and_model self DLs pp).

(** ** MR.__init__ *)

(** [newdata.shape[0]] of the rows whose qualifier is [ndsymbol]. *)
Definition count_nd (ndsymbol : string) (data : list obs) : nat :=
  length (List.filter (fun r => String.eqb (qual r) ndsymbol) data).

(** The qualifier set to 'ND' or '='. *)
Definition standardize (ndsymbol : string) (r : obs) : obs :=
  {| index := index r; res := res r;
     qual := if String.eqb (qual r) ndsymbol then "ND" else "=" |}.

(** [self.data.apply(_ros_DL_index, axis=1)] stored as DLIndex. *)
Definition assign_DLIndex (DLs : list dlrow) (data : list obs)
    : result (list indexed) :=
  apply_rows (fun r => i ← _ros_DL_index DLs r; OK {| ob := r; DLIndex := i |})
             data.

(** A row of the public [data] attribute: final_data, res, qual. *)
Record final_row : Type :=
  { f_index : Z; f_final_data : float64; f_res : Q; f_qual : string }.

Record MR : Type :=
  { N_tot : nat;
    N_nd : nat;
    fitlogs : bool;
    DLs : list dlrow;
    fit : option (float64 * float64);
    data : list final_row;
    debug : list estimated }.

(** [self.data[['final_data', 'res', 'qual']]]. *)
Definition select_columns (r : estimated) : final_row :=
  {| f_index := index r; f_final_data := final_data r;
     f_res := res r; f_qual := qual r |}.

Definition __init__ (data : list obs) (ndsymbol : string) (fitlogs : bool)
    : result MR :=
  if negb (bool_decide (NoDup (map index data))) then
    Raise (ValueError "Index of input DataFrame `data` must be unique")
  else if fleb (series_min (map res data)) (Fin 0) then
    Raise (ValueError "All result values of `data` must be positive")
  else
    let N_tot := length data in
    let N_nd := count_nd ndsymbol data in
    let newdata := map (standardize ndsymbol) data in
    let sorted := rosSort newdata ndsymbol in
    let DLs := cohn sorted in
    withidx ← assign_DLIndex DLs sorted;
    let ranks := _ros_ranks withidx N_tot in
    e ← estimator {| self_N_tot := N_tot; self_N_nd := N_nd;
                      self_fitlogs := fitlogs; self_DLs := DLs;
                      self_data := ranks |};
    OK {| N_tot := N_tot; N_nd := N_nd; fitlogs := fitlogs;
          DLs := est_DLs e; fit := est_fit e;
          data := map select_columns (est_data e);
          debug := est_data e |}.
End Estimator.

(** ** Names for the stages, used in the statements *)

(** [self.data] after the sort. *)
Definition canonical (data : list obs) (ndsymbol : string) : list obs :=
  rosSort (map (standardize ndsymbol) data) ndsymbol.

(** The instance [estimator] is called on. *)
Definition self_of (data : list obs) (ndsymbol : string) (fl : bool)
    (withidx : list indexed) : MRself :=
  {| self_N_tot := length data; self_N_nd := count_nd ndsymbol data;
     self_fitlogs := fl; self_DLs := cohn (canonical data ndsymbol);
     self_data := _ros_ranks withidx (length data) |}.

(** The array of limits [cohn] builds its rows from. *)
Definition limits (data : list obs) : list float64 :=
  cohn_limits data (unique (map res (List.filter is_ND data))).

(** The upper bound of the limit at position [i]. *)
Definition upper_at (L : list float64) (i : nat) : float64 :=
  match L !! (i + 1)%nat with Some up => up | None => PInf end.

(** The test of the loop of [_ros_ranks] at position [n]. *)
Definition starts_run (data : list indexed) (n : nat) : bool :=
  (n =? 0)%nat
  || negb (iloc_DLIndex data n =? iloc_DLIndex data (n - 1))%nat
  || negb (String.eqb (iloc_qual data n) (iloc_qual data (n - 1))).

(** The inputs the constructor accepts: a unique index and positive
    results. *)
Definition valid (data : list obs) : Prop :=
  NoDup (map index data) /\ Forall (fun r => (0 < res r)%Q) data.

(** ** The words of the specification *)

(** An observation is censored when its qualifier is the non-detect symbol. *)
Definition censored (ndsymbol : string) (r : obs) : bool :=
  String.eqb (qual r) ndsymbol.

Definition count (p : obs -> bool) (data : list obs) : nat :=
  length (List.filter p data).

Definition n_censored (ndsymbol : string) (data : list obs) : nat :=
  count (censored ndsymbol) data.

Definition n_detected (ndsymbol : string) (data : list obs) : nat :=
  count (fun r => negb (censored ndsymbol r)) data.

(** The censored fraction of a non-empty data set. *)
Definition censored_fraction (ndsymbol : string) (data : list obs) : Q :=
  (inject_Z (Z.of_nat (n_censored ndsymbol data))
   / inject_Z (Z.of_nat (length data)))%Q.

(** At least one censored observation, at least two detected ones, and a
    censored fraction of at most 0.8. *)
Definition regression_path (ndsymbol : string) (data : list obs) : Prop :=
  (0 < n_censored ndsymbol data)%nat /\
  (2 <= n_detected ndsymbol data)%nat /\
  (censored_fraction ndsymbol data <= 8 # 10)%Q.

(** At least one censored observation, and fewer than two detected ones or
    a censored fraction above 0.8. *)
Definition fallback_path (ndsymbol : string) (data : list obs) : Prop :=
  (0 < n_censored ndsymbol data)%nat /\
  ((n_detected ndsymbol data < 2)%nat \/
   (8 # 10 < censored_fraction ndsymbol data)%Q).

(** A: detected observations with value in [lower, upper). *)
Definition spec_A (ndsymbol : string) (data : list obs) (lo up : float64) : nat :=
  count (fun r => negb (censored ndsymbol r)
                  && fleb lo (Fin (res r)) && fltb (Fin (res r)) up) data.

(** C: censored observations whose value equals lower. *)
Definition spec_C (ndsymbol : string) (data : list obs) (lo : float64) : nat :=
  count (fun r => censored ndsymbol r && feqb (Fin (res r)) lo) data.

(** B: observations of either kind below lower, plus the censored ones at
    lower. *)
Definition spec_B (ndsymbol : string) (data : list obs) (lo : float64) : nat :=
  (count (fun r => fltb (Fin (res r)) lo) data + spec_C ndsymbol data lo)%nat.

(** [x] is a detected row with the DLIndex and the value of [r]: the
    selection [avgrank] averages over. *)
Definition tied_with (r x : ranked) : bool :=
  (DLIndex x =? DLIndex r)%nat && Qeq_bool (res x) (res r) && is_detect x.

(** [x] has the DLIndex and the qualifier of [r]: the two tests of the rank
    loop. *)
Definition same_run (r x : indexed) : bool :=
  (DLIndex x =? DLIndex r)%nat && String.eqb (qual x) (qual r).

(** The three columns of a row of the public [data] attribute, and the
    same three of an input observation once its qualifier is standardised. *)
Definition final_row_key (r : final_row) : Z * Q * string :=
  (f_index r, f_res r, f_qual r).

Definition obs_key (ndsymbol : string) (x : obs) : Z * Q * string :=
  (index x, res x, if censored ndsymbol x then "ND" else "=").
End Exact.

(** * Finite data as data of the program *)

(** A row over rationals as the row of floats it stands for, column by
    column. *)
Definition lift_obs (r : Exact.obs) : obs :=
  {| index := Exact.index r; res := Fin (Exact.res r); qual := Exact.qual r |}.

Definition lift_indexed (r : Exact.indexed) : indexed :=
  {| ob := lift_obs (Exact.ob r); DLIndex := Exact.DLIndex r |}.

Definition lift_ranked (r : Exact.ranked) : ranked :=
  {| ix := lift_indexed (Exact.ix r);
     Norm_Ranks := Exact.Norm_Ranks r; Avg_Ranks := Exact.Avg_Ranks r |}.

Definition lift_estimated (r : Exact.estimated) : estimated :=
  {| rk := lift_ranked (Exact.rk r);
     plot_pos := Exact.plot_pos r; Zprelim := Exact.Zprelim r;
     modeled_data := Exact.modeled_data r; final_data := Exact.final_data r |}.

Definition lift_final_row (r : Exact.final_row) : final_row :=
  {| f_index := Exact.f_index r; f_final_data := Exact.f_final_data r;
     f_res := Fin (Exact.f_res r); f_qual := Exact.f_qual r |}.

Definition lift_self (s : Exact.MRself) : MRself :=
  {| self_N_tot := Exact.self_N_tot s; self_N_nd := Exact.self_N_nd s;
     self_fitlogs := Exact.self_fitlogs s; self_DLs := Exact.self_DLs s;
     self_data := map lift_ranked (Exact.self_data s) |}.

Definition lift_estimate (e : Exact.estimate) : estimate :=
  {| est_DLs := Exact.est_DLs e; est_fit := Exact.est_fit e;
     est_data := map lift_estimated (Exact.est_data e) |}.

Definition lift_MR (o : Exact.MR) : MR :=
  {| N_tot := Exact.N_tot o; N_nd := Exact.N_nd o; fitlogs := Exact.fitlogs o;
     DLs := Exact.DLs o; fit := Exact.fit o;
     data := map lift_final_row (Exact.data o);
     debug := map lift_estimated (Exact.debug o) |}.

Definition lift_result {T U} (f : T -> U) (m : result T) : result U :=
  match m with
  | OK a => OK (f a)
  | Raise e => Raise e
  end.

(** The row over rationals a row with a finite result stands for. *)
Definition exact_obs (r : obs) : Exact.obs :=
  {| Exact.index := index r;
     Exact.res := match res r with Fin q => q | _ => 0 end;
     Exact.qual := qual r |}.

(** * Proofs *)

(** ** Finite results

    The run over rationals: its stages, its table, its ranks and its
    plotting positions. *)

Module ExactFacts.
Import Exact.

Local Open Scope list_scope.

(** ** The error monad and row-wise application *)

Lemma bind_OK {T U} (m : result T) (k : T -> result U) (u : U) :
  (x ← m; k x) = OK u -> exists a, m = OK a /\ k a = OK u.
Proof. destruct m as [a|e]; simpl; [eauto | discriminate]. Qed.

Lemma apply_rows_Forall2 {T U} (f : T -> result U) (l : list T) (l' : list U) :
  apply_rows f l = OK l' -> Forall2 (fun x y => f x = OK y) l l'.
Proof.
  revert l'. induction l as [|x l IH]; intros l' H; simpl in H.
  - injection H as <-. constructor.
  - apply bind_OK in H as (y & Hy & H).
    apply bind_OK in H as (ys & Hys & H).
    injection H as <-. constructor; auto.
Qed.

Lemma apply_rows_total {T U} (f : T -> result U) (l : list T) :
  (forall x, x ∈ l -> exists y, f x = OK y) -> exists l', apply_rows f l = OK l'.
Proof.
  induction l as [|x l IH]; intros H; simpl.
  - eauto.
  - destruct (H x) as [y Hy]; [left|].
    destruct IH as [l' Hl']; [intros z Hz; apply H; by right|].
    rewrite Hy, Hl'. simpl. eauto.
Qed.

(** ** The backward recursion *)

Lemma PE_body_spec (t : list dlrow) (j : nat) (dj dj1 : dlrow) :
  t !! j = Some dj -> t !! (j + 1)%nat = Some dj1 ->
  PE_body t j =
    <[ j := set_PE dj (fadd (PE dj1)
                         (fmul (fdiv (A dj) (fadd (A dj) (B dj)))
                               (fsub (Fin 1) (PE dj1)))) ]> t.
Proof. intros Hj Hj1. unfold PE_body. by rewrite Hj, Hj1. Qed.

Lemma PE_fold (m : nat) : forall t : list dlrow,
  (m + 1 <= length t)%nat ->
  let t' := fold_left PE_body (rev (seq 0 m)) t in
  length t' = length t /\
  (forall j, (m <= j)%nat -> t' !! j = t !! j) /\
  (forall j d', t' !! j = Some d' ->
     exists d, t !! j = Some d /\ d' = set_PE d (PE d')) /\
  (forall j, (j < m)%nat ->
     exists d d1, t' !! j = Some d /\ t' !! (j + 1)%nat = Some d1 /\
       PE d = fadd (PE d1)
                (fmul (fdiv (A d) (fadd (A d) (B d))) (fsub (Fin 1) (PE d1)))).
Proof.
  induction m as [|m IH]; intros t Hlen; cbv zeta.
  - simpl. repeat split; auto; try lia.
    intros j d' H. exists d'. split; [done|]. by destruct d'.
  - rewrite seq_S, rev_unit. simpl fold_left. simpl Nat.add at 1.
    destruct (lookup_lt_is_Some_2 t m) as [dm Hdm]; [lia|].
    destruct (lookup_lt_is_Some_2 t (m + 1)) as [dm1 Hdm1]; [lia|].
    rewrite (PE_body_spec t m dm dm1 Hdm Hdm1).
    set (v := fadd _ _). set (t1 := <[m:=set_PE dm v]> t).
    assert (Hlen1 : length t1 = length t) by apply length_insert.
    destruct (IH t1) as (L & Hge & Hsame & Hrec); [lia|].
    split; [congruence|]. split; [|split].
    + intros j Hj. rewrite Hge by lia.
      apply list_lookup_insert_ne. lia.
    + intros j d' Hd'. destruct (Hsame j d' Hd') as (d & Hd & E).
      destruct (decide (m = j)) as [<-|Hne].
      * unfold t1 in Hd. rewrite list_lookup_insert_eq in Hd by lia.
        injection Hd as <-. exists dm. split; [done|]. rewrite E. done.
      * unfold t1 in Hd. rewrite list_lookup_insert_ne in Hd by done. eauto.
    + intros j Hj. destruct (decide (j = m)) as [->|Hne].
      * exists (set_PE dm v), dm1. rewrite !Hge by lia. unfold t1.
        rewrite list_lookup_insert_eq by lia.
        rewrite list_lookup_insert_ne by lia. done.
      * apply Hrec. lia.
Qed.

Lemma compute_PE_spec (t : list dlrow) :
  length (compute_PE t) = length t /\
  (forall j, (length t - 1 <= j)%nat -> compute_PE t !! j = t !! j) /\
  (forall j d', compute_PE t !! j = Some d' ->
     exists d, t !! j = Some d /\ d' = set_PE d (PE d')) /\
  (forall j, (j + 1 < length t)%nat ->
     exists d d1, compute_PE t !! j = Some d /\
       compute_PE t !! (j + 1)%nat = Some d1 /\
       PE d = fadd (PE d1)
                (fmul (fdiv (A d) (fadd (A d) (B d))) (fsub (Fin 1) (PE d1)))).
Proof.
  unfold compute_PE. destruct t as [|d0 t].
  - simpl. repeat split; auto; intros; try lia; try done.
  - destruct (PE_fold (length (d0 :: t) - 1) (d0 :: t)) as (L & Hge & Hsame & Hrec).
    { simpl. lia. }
    repeat split; auto. intros j Hj. apply Hrec. lia.
Qed.

(** ** Sorting keeps the rows *)

Lemma sort_insert_perm (x : obs) (l : list obs) : sort_insert x l ≡ₚ x :: l.
Proof.
  induction l as [|y l IH]; simpl; [done|].
  destruct (Qle_bool (res x) (res y)); [done|].
  rewrite IH. apply perm_swap.
Qed.

Lemma sort_res_perm (l : list obs) : sort_res l ≡ₚ l.
Proof.
  induction l as [|x l IH]; simpl; [done|].
  by rewrite sort_insert_perm, IH.
Qed.

Lemma filter_split_perm {T} (p : T -> bool) (l : list T) :
  List.filter p l ++ List.filter (fun x => negb (p x)) l ≡ₚ l.
Proof.
  induction l as [|x l IH]; simpl; [done|].
  destruct (p x); simpl.
  - by rewrite IH.
  - rewrite <- Permutation_middle. by rewrite IH.
Qed.

Lemma rosSort_perm (l : list obs) (nd : string) : rosSort l nd ≡ₚ l.
Proof.
  unfold rosSort. rewrite !sort_res_perm.
  apply (filter_split_perm (fun r => String.eqb (qual r) nd)).
Qed.

Lemma filter_perm {T} (p : T -> bool) (l l' : list T) :
  l ≡ₚ l' -> List.filter p l ≡ₚ List.filter p l'.
Proof.
  induction 1 as [|x l l' _ IH|x y l|l l' l'' _ IH1 _ IH2]; simpl.
  - done.
  - destruct (p x); [by rewrite IH | done].
  - destruct (p x), (p y); try done. apply perm_swap.
  - by rewrite IH1.
Qed.

Lemma filter_length_perm {T} (p : T -> bool) (l l' : list T) :
  l ≡ₚ l' -> length (List.filter p l) = length (List.filter p l').
Proof. intros H. apply Permutation_length. by apply filter_perm. Qed.

Lemma filter_map_length {T U} (f : T -> U) (p : U -> bool) (l : list T) :
  length (List.filter p (map f l)) = length (List.filter (fun x => p (f x)) l).
Proof.
  induction l as [|x l IH]; simpl; [done|].
  destruct (p (f x)); simpl; by rewrite IH.
Qed.

Lemma filter_ext_length {T} (p q : T -> bool) (l : list T) :
  (forall x, p x = q x) -> length (List.filter p l) = length (List.filter q l).
Proof. intros H. by rewrite (List.filter_ext p q H). Qed.

(** ** What a returning constructor has done *)

Section Init.
Variable ppf : float64 -> float64.
Variable np_log np_exp : float64 -> float64.
Variable linregress : list float64 -> list float64 -> float64 * float64.

Lemma init_OK (data : list obs) (nd : string) (fl : bool) (o : MR) :
  __init__ ppf np_log np_exp linregress data nd fl = OK o ->
  NoDup (map index data) /\
  fleb (series_min (map res data)) (Fin 0) = false /\
  exists withidx e,
    assign_DLIndex (cohn (canonical data nd)) (canonical data nd) = OK withidx /\
    estimator ppf np_log np_exp linregress (self_of data nd fl withidx) = OK e /\
    o = {| N_tot := length data; N_nd := count_nd nd data; fitlogs := fl;
           DLs := est_DLs e; fit := est_fit e;
           data := map select_columns (est_data e); debug := est_data e |}.
Proof.
  unfold __init__. intros H.
  destruct (bool_decide (NoDup (map index data))) eqn:Hnd; simpl in H; [|discriminate].
  apply bool_decide_eq_true in Hnd.
  destruct (fleb (series_min (map res data)) (Fin 0)) eqn:Hpos; [discriminate|].
  apply bind_OK in H as (withidx & Hidx & H).
  apply bind_OK in H as (e & He & H).
  injection H as <-. split; [done|]. split; [done|].
  exists withidx, e. done.
Qed.
End Init.

(** ** Lists *)

Lemma lookup_map {T U} (f : T -> U) (l : list T) (i : nat) :
  map f l !! i = f <$> l !! i.
Proof. apply (list_lookup_fmap f l i). Qed.

Lemma np_where_spec {T} (p : T -> bool) (l : list T) : forall k i,
  i ∈ np_where p k l <->
  (k <= i)%nat /\ exists x, l !! (i - k)%nat = Some x /\ p x = true.
Proof.
  induction l as [|x l IH]; intros k i; simpl.
  - split; [intros H; inversion H | intros (_ & y & H & _); done].
  - assert (Hrest : i ∈ np_where p (S k) l <->
      (k < i)%nat /\ exists y, (x :: l) !! (i - k)%nat = Some y /\ p y = true).
    { rewrite IH. split.
      - intros (Hk & y & Hy & Hp). split; [lia|]. exists y. split; [|done].
        replace (i - k)%nat with (S (i - S k)) by lia. done.
      - intros (Hk & y & Hy & Hp). split; [lia|]. exists y. split; [|done].
        replace (i - k)%nat with (S (i - S k)) in Hy by lia. done. }
    destruct (p x) eqn:Hx.
    + rewrite elem_of_cons, Hrest. split.
      * intros [->|(Hk & H)]; [|split; [lia|done]].
        split; [lia|]. exists x. by rewrite Nat.sub_diag.
      * intros (Hk & y & Hy & Hp).
        destruct (decide (i = k)) as [->|Hne]; [by left|right].
        split; [lia|]. eauto.
    + rewrite Hrest. split.
      * intros (Hk & H). split; [lia|done].
      * intros (Hk & y & Hy & Hp).
        destruct (decide (i = k)) as [->|Hne].
        -- rewrite Nat.sub_diag in Hy. simpl in Hy. congruence.
        -- split; [lia|]. eauto.
Qed.

(** The positions come out in increasing order, so the last is the largest. *)
Lemma np_where_last {T} (p : T -> bool) (l : list T) : forall k i,
  last (np_where p k l) = Some i ->
  forall j, j ∈ np_where p k l -> (j <= i)%nat.
Proof.
  induction l as [|x l IH]; intros k i H j Hj; simpl in *.
  - inversion Hj.
  - assert (Hlow : forall n, n ∈ np_where p (S k) l -> (S k <= n)%nat).
    { intros n Hn. apply np_where_spec in Hn. tauto. }
    destruct (p x).
    + destruct (np_where p (S k) l) as [|y ys] eqn:E.
      * simpl in H. injection H as <-. apply list_elem_of_singleton in Hj. lia.
      * rewrite last_cons_cons in H. apply elem_of_cons in Hj as [->|Hj].
        -- assert (i ∈ y :: ys) by (apply last_Some_elem_of; done).
           specialize (Hlow i H0). lia.
        -- rewrite <- E in H, Hj. eapply IH; eauto.
    + eapply IH; done.
Qed.

(** ** Minima *)

Lemma fold_Qmin_le (l : list Q) : forall x y,
  y ∈ x :: l -> fold_left Qmin l x <= y.
Proof.
  induction l as [|z l IH]; intros x y Hy; simpl.
  - apply list_elem_of_singleton in Hy as ->. apply Qle_refl.
  - apply elem_of_cons in Hy as [->|Hy].
    + eapply Qle_trans; [apply IH; left|]. apply Q.le_min_l.
    + apply elem_of_cons in Hy as [->|Hy].
      * eapply Qle_trans; [apply IH; left|]. apply Q.le_min_r.
      * apply IH. by right.
Qed.

Lemma fold_Qmin_in (l : list Q) : forall x, fold_left Qmin l x ∈ x :: l.
Proof.
  induction l as [|z l IH]; intros x; simpl.
  - left.
  - specialize (IH (Qmin x z)). apply elem_of_cons in IH as [E|IH].
    + rewrite E. unfold Qmin, GenericMinMax.gmin.
      destruct (x ?= z)%Q; [left|left|right; left].
    + right. by right.
Qed.

Lemma series_min_spec (l : list Q) :
  l <> [] ->
  exists m, series_min l = Fin m /\ m ∈ l /\ forall y, y ∈ l -> m <= y.
Proof.
  destruct l as [|x l]; [done|]. intros _. simpl.
  exists (fold_left Qmin l x). split; [done|]. split.
  - apply fold_Qmin_in.
  - intros y. apply fold_Qmin_le.
Qed.

(** ** Comparisons *)

Lemma Qltb_lt (a b : Q) : Qltb a b = true <-> a < b.
Proof.
  unfold Qltb. rewrite negb_true_iff. split.
  - intros H. apply Qnot_le_lt. intros Hle.
    apply Qle_bool_iff in Hle. congruence.
  - intros H. destruct (Qle_bool b a) eqn:E; [|done].
    apply Qle_bool_iff in E. by apply Qlt_not_le in H.
Qed.

Lemma Qltb_ge (a b : Q) : Qltb a b = false <-> b <= a.
Proof.
  unfold Qltb. rewrite negb_false_iff. apply Qle_bool_iff.
Qed.

(** ** The table [cohn] builds *)

Lemma shift_lookup (L : list float64) : forall i,
  shift L !! i =
    match L !! i with
    | None => None
    | Some _ => Some (match L !! (i + 1)%nat with Some y => y | None => NaN end)
    end.
Proof.
  induction L as [|x L IH]; intros i; [done|].
  destruct L as [|y L]; destruct i as [|i]; try done.
  change (shift (x :: y :: L)) with (y :: shift (y :: L)).
  change ((y :: shift (y :: L)) !! S i) with (shift (y :: L) !! i).
  by rewrite IH.
Qed.

Lemma cohn_bounds_lookup (L : list float64) (i : nat) :
  (forall x, x ∈ L -> exists q, x = Fin q) ->
  cohn_bounds L !! i = (fun lo => (lo, upper_at L i)) <$> L !! i.
Proof.
  intros HL. unfold cohn_bounds, upper_at.
  destruct (1 <? length L)%nat eqn:E.
  - rewrite lookup_zip_with, !lookup_map, shift_lookup.
    destruct (L !! i) as [lo|] eqn:Hlo; [simpl|done].
    destruct (HL lo) as [q ->]; [by eapply list_elem_of_lookup_2|].
    destruct (L !! (i + 1)%nat) as [up|] eqn:Hup; [|done].
    destruct (HL up) as [q' ->]; [by eapply list_elem_of_lookup_2|]. done.
  - apply Nat.ltb_ge in E.
    destruct L as [|x [|y L]]; simpl in E; try lia; [done|].
    destruct i; done.
Qed.

Lemma cohn_limits_Fin (data : list obs) (uniq : list Q) (x : float64) :
  x ∈ cohn_limits data uniq -> exists q, x = Fin q.
Proof.
  unfold cohn_limits.
  destruct (fltb (series_min (map res data)) (series_min uniq)) eqn:E.
  - intros [->|H]%elem_of_cons.
    + revert E. destruct (map res data); simpl; [done | eauto].
    + apply list_elem_of_In, in_map_iff in H as (q & <- & _). eauto.
  - intros H. apply list_elem_of_In, in_map_iff in H as (q & <- & _). eauto.
Qed.

Lemma unique_nil (l : list Q) : unique l = [] <-> l = [].
Proof. destruct l; simpl; split; intros H; done. Qed.

Lemma unique_subset (l : list Q) (x : Q) : x ∈ unique l -> x ∈ l.
Proof.
  induction l as [|y l IH]; simpl; [done|].
  intros [->|H]%elem_of_cons; [left|right].
  apply IH. apply list_elem_of_In in H. apply filter_In in H as [H _].
  by apply list_elem_of_In.
Qed.

(** Every value keeps a representative equal to it. *)
Lemma unique_complete (l : list Q) (x : Q) :
  x ∈ l -> exists u, u ∈ unique l /\ Qeq u x.
Proof.
  induction l as [|y l IH]; simpl; [intros H; inversion H|].
  intros [->|H]%elem_of_cons.
  - exists y. split; [left|reflexivity].
  - destruct (IH H) as (u & Hu & E).
    destruct (Qeq_bool u y) eqn:Ey.
    + exists y. split; [left|]. apply Qeq_bool_iff in Ey.
      rewrite <- Ey. done.
    + exists u. split; [|done]. right. apply list_elem_of_In, filter_In.
      split; [by apply list_elem_of_In|]. by rewrite Ey.
Qed.

Lemma limits_length (data : list obs) :
  length (cohn_bounds (limits data)) = length (limits data).
Proof.
  apply Nat.le_antisymm.
  - destruct (decide (length (cohn_bounds (limits data)) <= length (limits data))%nat)
      as [|Hgt]; [done|].
    destruct (lookup_lt_is_Some_2 (cohn_bounds (limits data)) (length (limits data)))
      as [x Hx]; [lia|].
    rewrite cohn_bounds_lookup in Hx by apply cohn_limits_Fin.
    rewrite lookup_ge_None_2 in Hx by lia. done.
  - destruct (decide (length (limits data) <= length (cohn_bounds (limits data)))%nat)
      as [|Hgt]; [done|].
    destruct (lookup_lt_is_Some_2 (limits data) (length (cohn_bounds (limits data))))
      as [x Hx]; [lia|].
    pose proof (cohn_bounds_lookup (limits data) (length (cohn_bounds (limits data)))
                  (cohn_limits_Fin _ _)) as H.
    rewrite Hx in H. rewrite lookup_ge_None_2 in H by lia. done.
Qed.

(** The table is empty, or it is one row per limit followed by the
    appended row. *)
Lemma cohn_struct (data : list obs) :
  (List.filter is_ND data = [] /\ cohn data = []) \/
  (List.filter is_ND data <> [] /\
   exists real, cohn data = real ++ [nan_row] /\
     length real = length (limits data) /\
     forall i, real !! i =
       (fun lo => cohn_row data (lo, upper_at (limits data) i)) <$> limits data !! i).
Proof.
  unfold cohn. fold (limits data).
  destruct (List.filter is_ND data) as [|r nds] eqn:E.
  - left. done.
  - right. split; [done|]. simpl.
    eexists. split; [reflexivity|]. split.
    + rewrite length_map. apply limits_length.
    + intros i. rewrite lookup_map.
      rewrite cohn_bounds_lookup by apply cohn_limits_Fin.
      by destruct (limits data !! i).
Qed.

Lemma filter_length_pos {T} (p : T -> bool) (l : list T) (x : T) :
  x ∈ l -> p x = true -> (1 <= length (List.filter p l))%nat.
Proof.
  intros Hx Hp.
  assert (H : In x (List.filter p l)).
  { apply filter_In. split; [by apply list_elem_of_In|done]. }
  destruct (List.filter p l); [done|simpl; lia].
Qed.

Lemma censored_value_row (data : list obs) (u : Q) :
  u ∈ unique (map res (List.filter is_ND data)) ->
  exists r, r ∈ data /\ is_ND r = true /\ res r = u.
Proof.
  intros H. apply unique_subset, list_elem_of_In, in_map_iff in H as (r & <- & H).
  apply filter_In in H as [H1 H2]. exists r. by rewrite list_elem_of_In.
Qed.

Lemma censored_limit_B (data : list obs) (u : Q) :
  u ∈ unique (map res (List.filter is_ND data)) -> (1 <= _B data (Fin u))%nat.
Proof.
  intros H. destruct (censored_value_row data u H) as (r & Hr & Hnd & <-).
  unfold _B.
  assert (1 <= length (List.filter
            (fun r0 => fleb (Fin (res r0)) (Fin (res r)) && is_ND r0) data))%nat.
  { apply (filter_length_pos _ data r Hr). simpl. rewrite Hnd.
    assert (Qle_bool (res r) (res r) = true) as -> by (apply Qle_bool_iff, Qle_refl).
    done. }
  lia.
Qed.

(** When the smallest result is stacked in front, it is a detected value
    below every censored one. *)
Lemma stacked_limit_A (data : list obs) (uniq : list Q) :
  uniq = unique (map res (List.filter is_ND data)) ->
  fltb (series_min (map res data)) (series_min uniq) = true ->
  exists m u0 us, series_min (map res data) = Fin m /\ uniq = u0 :: us /\
    (forall r, r ∈ data -> m <= res r) /\
    (1 <= _A data (Fin m) (Fin u0))%nat /\ _B data (Fin m) = 0%nat.
Proof.
  intros Hu Hlt.
  destruct data as [|r0 data']; [done|].
  destruct (series_min_spec (map res (r0 :: data'))) as (m & Hm & Hin & Hle); [done|].
  rewrite Hm in Hlt.
  destruct uniq as [|u0 us]; [done|].
  destruct (series_min_spec (u0 :: us)) as (mu & Hmu & Hmuin & Hmule); [done|].
  rewrite Hmu in Hlt. simpl in Hlt. apply Qltb_lt in Hlt.
  set (data := r0 :: data') in *.
  assert (Hall : forall r, r ∈ data -> m <= res r).
  { intros r Hr. apply Hle. apply list_elem_of_In, in_map, list_elem_of_In, Hr. }
  assert (Hnd : forall r, r ∈ data -> is_ND r = true -> mu <= res r).
  { intros r Hr Hnd.
    destruct (unique_complete (map res (List.filter is_ND data)) (res r))
      as (u & Huin & Heq).
    { apply list_elem_of_In, in_map, filter_In. by rewrite <- list_elem_of_In. }
    rewrite <- Hu in Huin. rewrite <- Heq. by apply Hmule. }
  exists m, u0, us. repeat split; auto.
  - apply list_elem_of_In, in_map_iff in Hin as (r & Hr & Hrin).
    apply list_elem_of_In in Hrin.
    apply (filter_length_pos _ data r Hrin). simpl. rewrite Hr.
    assert (Qle_bool m m = true) as -> by (apply Qle_bool_iff, Qle_refl).
    assert (Qltb m u0 = true) as ->.
    { apply Qltb_lt. eapply Qlt_le_trans; [done|]. apply Hmule. left. }
    simpl. unfold is_detect. apply negb_true_iff.
    destruct (String.eqb (qual r) "ND") eqn:E; [|done].
    specialize (Hnd r Hrin E). rewrite Hr in Hnd.
    by apply Qlt_not_le in Hlt.
  - unfold _B.
    assert (forall p : obs -> bool, (forall r, r ∈ data -> p r = false) ->
              length (List.filter p data) = 0%nat) as Hzero.
    { intros p Hp. destruct (List.filter p data) as [|x xs] eqn:E; [done|].
      assert (In x (List.filter p data)) as Hx by (rewrite E; left; done).
      apply filter_In in Hx as [Hx1 Hx2]. apply list_elem_of_In in Hx1.
      rewrite Hp in Hx2; done. }
    rewrite !Hzero; [done| |].
    + intros r Hr. simpl. destruct (Qltb (res r) m) eqn:E; [|done].
      apply Qltb_lt in E. specialize (Hall r Hr). by apply Qlt_not_le in E.
    + intros r Hr. simpl. destruct (is_ND r) eqn:E; [|by rewrite andb_false_r].
      rewrite andb_true_r. destruct (Qle_bool (res r) m) eqn:E'; [|done].
      apply Qle_bool_iff in E'. specialize (Hnd r Hr E).
      exfalso. apply (Qlt_not_le _ _ Hlt). by eapply Qle_trans.
Qed.

(** No limit has an empty denominator: a censored value counts itself in
    [B], and a stacked minimum counts itself in [A]. *)
Lemma limit_counts (data : list obs) (i : nat) (lo : float64) :
  limits data !! i = Some lo ->
  (1 <= _A data lo (upper_at (limits data) i) + _B data lo)%nat /\
  ((1 <= i)%nat -> (1 <= _B data lo)%nat).
Proof.
  unfold limits, cohn_limits.
  set (uniq := unique (map res (List.filter is_ND data))).
  destruct (fltb (series_min (map res data)) (series_min uniq)) eqn:E.
  - destruct (stacked_limit_A data uniq eq_refl E)
      as (m & u0 & us & Hm & Hu & _ & HA & _).
    rewrite Hm, Hu. destruct i as [|i].
    + intros [= <-]. unfold upper_at. simpl. split; lia.
    + intros H. change (map Fin (u0 :: us) !! i = Some lo) in H.
      rewrite lookup_map in H.
      destruct ((u0 :: us) !! i) as [u|] eqn:Hi; [|done]. injection H as <-.
      assert (1 <= _B data (Fin u))%nat.
      { apply censored_limit_B. fold uniq. rewrite Hu.
        by eapply list_elem_of_lookup_2. }
      split; lia.
  - intros H. rewrite lookup_map in H.
    destruct (uniq !! i) as [u|] eqn:Hi; [|done]. injection H as <-.
    assert (1 <= _B data (Fin u))%nat.
    { apply censored_limit_B. by eapply list_elem_of_lookup_2. }
    split; lia.
Qed.

(** ** The rank loop *)

Lemma loc_set_insert (lbls : list Z) (col : list float64) (n : nat) (lbl : Z)
    (v : float64) :
  NoDup lbls -> lbls !! n = Some lbl -> length col = length lbls ->
  loc_set lbls lbl v col = <[ n := v ]> col.
Proof.
  intros Hnd Hn Hlen. apply list_eq. intros i. unfold loc_set.
  rewrite lookup_zip_with.
  destruct (decide (i = n)) as [->|Hne].
  - rewrite Hn. simpl.
    destruct (lookup_lt_is_Some_2 col n) as [x Hx].
    { rewrite Hlen. by eapply lookup_lt_Some. }
    rewrite Hx. simpl. rewrite Z.eqb_refl.
    rewrite list_lookup_insert_eq; [done|]. by eapply lookup_lt_Some.
  - rewrite list_lookup_insert_ne by done.
    destruct (lbls !! i) as [l|] eqn:Hl; simpl.
    + destruct (col !! i) as [x|] eqn:Hx; [simpl|done].
      destruct (Z.eqb l lbl) eqn:E; [|done].
      apply Z.eqb_eq in E as ->. exfalso. apply Hne.
      by eapply NoDup_lookup.
    + symmetry. apply lookup_ge_None. rewrite Hlen. by apply lookup_ge_None.
Qed.

Lemma rank_body_spec (data : list indexed) (col : list float64) (n : nat) (lbl : Z) :
  NoDup (labels data) -> labels data !! n = Some lbl ->
  length col = length data ->
  rank_body data col (n, lbl) =
    <[ n := if starts_run data n then Fin 1
            else fadd (nth (n - 1) col NaN) (Fin 1) ]> col.
Proof.
  intros Hnd Hn Hlen.
  assert (length col = length (labels data)) as Hl.
  { unfold labels. by rewrite length_map. }
  unfold rank_body, starts_run.
  destruct (_ || _ || _); by apply loc_set_insert.
Qed.

Lemma rank_fold (data : list indexed) :
  NoDup (labels data) ->
  forall (ls : list Z) (s : nat) (col : list float64),
    drop s (labels data) = ls -> length col = length data ->
    let col' := fold_left (rank_body data) (zip (seq s (length ls)) ls) col in
    length col' = length data /\
    (forall n, (n < s)%nat -> col' !! n = col !! n) /\
    (forall n, (s <= n < length data)%nat ->
       col' !! n = Some (if starts_run data n then Fin 1
                         else fadd (nth (n - 1) col' NaN) (Fin 1))).
Proof.
  intros Hnd. induction ls as [|x ls IH]; intros s col Hdrop Hlen; cbv zeta.
  - simpl. split; [done|]. split; [done|]. intros n [Hn1 Hn2].
    assert (length (drop s (labels data)) = 0%nat) as H0 by by rewrite Hdrop.
    rewrite length_drop in H0. unfold labels in H0. rewrite length_map in H0. lia.
  - assert (labels data !! s = Some x) as Hs.
    { pose proof (lookup_drop (labels data) s 0) as H.
      rewrite Hdrop, Nat.add_0_r in H. done. }
    assert (drop (S s) (labels data) = ls) as Hdrop'.
    { rewrite (drop_S _ _ _ Hs) in Hdrop. congruence. }
    change (fold_left (rank_body data) (zip (seq s (length (x :: ls))) (x :: ls)) col)
      with (fold_left (rank_body data) (zip (seq (S s) (length ls)) ls)
              (rank_body data col (s, x))).
    rewrite (rank_body_spec data col s x Hnd Hs Hlen).
    set (v := if starts_run data s then _ else _).
    assert (s < length data)%nat as Hslt.
    { apply lookup_lt_Some in Hs. unfold labels in Hs. by rewrite length_map in Hs. }
    destruct (IH (S s) (<[s:=v]> col) Hdrop') as (L & Hlt & Hge).
    { by rewrite length_insert. }
    split; [done|]. split.
    + intros n Hn. rewrite Hlt by lia. apply list_lookup_insert_ne. lia.
    + intros n [Hn1 Hn2]. destruct (decide (n = s)) as [->|Hne].
      * rewrite Hlt by lia. rewrite list_lookup_insert_eq by lia.
        f_equal.
        assert (s <> 0%nat ->
                nth (s - 1) (fold_left (rank_body data)
                               (zip (seq (S s) (length ls)) ls) (<[s:=v]> col)) NaN
                = nth (s - 1) col NaN) as Hprev.
        { intros Hs0. rewrite !nth_lookup, Hlt by lia.
          rewrite list_lookup_insert_ne by lia. done. }
        destruct (starts_run data s) eqn:E; [done|].
        rewrite Hprev; [done|]. intros ->. unfold starts_run in E. done.
      * apply Hge. lia.
Qed.

Lemma norm_ranks_spec (data : list indexed) (N : nat) :
  NoDup (labels data) ->
  length (norm_ranks data N) = length data /\
  forall n, (n < length data)%nat ->
    norm_ranks data N !! n =
      Some (if starts_run data n then Fin 1
            else fadd (nth (n - 1) (norm_ranks data N) NaN) (Fin 1)).
Proof.
  intros Hnd. unfold norm_ranks.
  destruct (rank_fold data Hnd (labels data) 0
              (map (fun _ => of_nat N) data)) as (L & _ & H).
  - done.
  - by rewrite length_map.
  - split; [done|]. intros n Hn. apply H. lia.
Qed.

Lemma ros_ranks_lookup (data : list indexed) (N n : nat) (r : ranked) :
  _ros_ranks data N !! n = Some r ->
  data !! n = Some (ix r) /\
  norm_ranks data N !! n = Some (Norm_Ranks r) /\
  Avg_Ranks r = avgrank data (norm_ranks data N) (ix r, Norm_Ranks r).
Proof.
  unfold _ros_ranks. rewrite lookup_map, lookup_zip_with.
  destruct (data !! n) as [d|]; [simpl|done].
  destruct (norm_ranks data N !! n) as [v|]; [simpl|done].
  intros [= <-]. done.
Qed.

Lemma ros_ranks_length (data : list indexed) (N : nat) :
  NoDup (labels data) -> length (_ros_ranks data N) = length data.
Proof.
  intros Hnd. unfold _ros_ranks.
  rewrite length_map, length_zip_with.
  destruct (norm_ranks_spec data N Hnd) as [-> _]. lia.
Qed.

Lemma ros_ranks_ix (data : list indexed) (N : nat) :
  NoDup (labels data) -> map ix (_ros_ranks data N) = data.
Proof.
  intros Hnd. apply list_eq. intros n. rewrite lookup_map.
  destruct (_ros_ranks data N !! n) as [r|] eqn:E; simpl.
  - apply ros_ranks_lookup in E as (-> & _). done.
  - symmetry. apply lookup_ge_None. apply lookup_ge_None in E.
    by rewrite ros_ranks_length in E.
Qed.

(** ** The detection-limit index *)

Lemma DL_index_spec (DLs : list dlrow) (r : obs) (i : nat) :
  DLs <> [] -> _ros_DL_index DLs r = OK i ->
  (exists d, DLs !! i = Some d /\ fleb (DL d) (Fin (res r)) = true) /\
  (forall j d, (i < j)%nat -> DLs !! j = Some d ->
     fleb (DL d) (Fin (res r)) = false).
Proof.
  intros Hne. unfold _ros_DL_index.
  destruct DLs as [|d0 DLs]; [done|].
  change (0 <? length (d0 :: DLs))%nat with true. cbv iota.
  set (p := fun d => fleb (DL d) (Fin (res r))).
  destruct (last (np_where p 0 (d0 :: DLs))) as [k|] eqn:E; [|done].
  intros [= ->]. split.
  - apply last_Some_elem_of, np_where_spec in E as (_ & d & Hd & Hp).
    rewrite Nat.sub_0_r in Hd. eauto.
  - intros j d Hj Hd. destruct (p d) eqn:Hp; [|done].
    assert (j ∈ np_where p 0 (d0 :: DLs)) as Hin.
    { apply np_where_spec. split; [lia|]. exists d. by rewrite Nat.sub_0_r. }
    pose proof (np_where_last p _ 0 i E j Hin). lia.
Qed.

Lemma DL_index_found (DLs : list dlrow) (r : obs) :
  (exists d, d ∈ DLs /\ fleb (DL d) (Fin (res r)) = true) ->
  exists i, _ros_DL_index DLs r = OK i.
Proof.
  intros (d & Hd & Hp). unfold _ros_DL_index.
  destruct DLs as [|d0 DLs]; [inversion Hd|].
  change (0 <? length (d0 :: DLs))%nat with true. cbv iota.
  apply list_elem_of_lookup in Hd as [j Hj].
  assert (j ∈ np_where (fun d => fleb (DL d) (Fin (res r))) 0 (d0 :: DLs)) as Hin.
  { apply np_where_spec. split; [lia|]. exists d. by rewrite Nat.sub_0_r. }
  destruct (last _) as [k|] eqn:E; [eauto|].
  apply last_None in E. rewrite E in Hin. inversion Hin.
Qed.

(** Every row has a limit at or below it: the stacked minimum, or the
    smallest censored value. *)
Lemma cohn_covers (data : list obs) (r : obs) :
  r ∈ data -> List.filter is_ND data <> [] ->
  exists d, d ∈ cohn data /\ fleb (DL d) (Fin (res r)) = true.
Proof.
  intros Hr Hne.
  destruct (cohn_struct data) as [[H _]|(_ & real & Hc & Hlen & Hreal)]; [done|].
  assert (exists i m, limits data !! i = Some (Fin m) /\ m <= res r)
    as (i & m & Hi & Hm).
  { unfold limits, cohn_limits.
    set (uniq := unique (map res (List.filter is_ND data))).
    destruct (fltb (series_min (map res data)) (series_min uniq)) eqn:E.
    - destruct (stacked_limit_A data uniq eq_refl E)
        as (m & u0 & us & Hm & _ & Hall & _).
      exists 0%nat, m. rewrite Hm. split; [done|]. by apply Hall.
    - assert (uniq <> []) as Hu.
      { unfold uniq. rewrite unique_nil. intros H.
        apply map_eq_nil in H. done. }
      destruct (series_min_spec uniq Hu) as (mu & Hmu & Hin & _).
      assert (map res data <> []) as Hd.
      { destruct data; [inversion Hr|done]. }
      destruct (series_min_spec (map res data) Hd) as (m & Hm & _ & Hle).
      rewrite Hmu, Hm in E. simpl in E. apply Qltb_ge in E.
      apply list_elem_of_lookup in Hin as [i Hi].
      exists i, mu. rewrite lookup_map, Hi. split; [done|].
      eapply Qle_trans; [done|]. apply Hle.
      apply list_elem_of_In, in_map, list_elem_of_In, Hr. }
  exists (cohn_row data (Fin m, upper_at (limits data) i)). split.
  - rewrite Hc. apply elem_of_app. left.
    apply list_elem_of_lookup. exists i. by rewrite Hreal, Hi.
  - simpl. by apply Qle_bool_iff.
Qed.

(** The index found is never the appended row. *)
Lemma DL_index_in_range (data : list obs) (r : obs) (i : nat) :
  cohn data <> [] -> _ros_DL_index (cohn data) r = OK i ->
  (i + 1 < length (cohn data))%nat.
Proof.
  intros Hne H. apply DL_index_spec in H as [(d & Hd & Hp) _]; [|done].
  destruct (cohn_struct data) as [[_ H]|(_ & real & Hc & Hlen & Hreal)]; [done|].
  rewrite Hc in Hd |- *. rewrite length_app. simpl.
  destruct (decide (i < length real)%nat) as [|Hge]; [lia|].
  rewrite lookup_app_r in Hd by lia.
  destruct (i - length real)%nat; [|by destruct n].
  injection Hd as <-. done.
Qed.

Lemma assign_DLIndex_spec (DLs : list dlrow) (data : list obs) (w : list indexed) :
  assign_DLIndex DLs data = OK w ->
  map ob w = data /\
  forall x, x ∈ w -> _ros_DL_index DLs (ob x) = OK (DLIndex x).
Proof.
  intros H. apply apply_rows_Forall2 in H.
  induction H as [|r y data w Hy _ IH]; [split; [done|intros x Hx; inversion Hx]|].
  apply bind_OK in Hy as (i & Hi & [= <-]).
  destruct IH as [IH1 IH2]. split; [simpl; by rewrite IH1|].
  intros x [->|Hx]%elem_of_cons; [done|by apply IH2].
Qed.

Lemma labels_assign (w : list indexed) : labels w = map index (map ob w).
Proof. unfold labels. by rewrite map_map. Qed.

Lemma canonical_perm (data : list obs) (nd : string) :
  canonical data nd ≡ₚ map (standardize nd) data.
Proof. apply rosSort_perm. Qed.

Lemma canonical_labels (data : list obs) (nd : string) :
  map index (canonical data nd) ≡ₚ map index data.
Proof.
  rewrite canonical_perm, map_map. done.
Qed.

Lemma canonical_NoDup (data : list obs) (nd : string) :
  NoDup (map index data) -> NoDup (map index (canonical data nd)).
Proof. intros H. by rewrite canonical_labels. Qed.

(** The rows standardised to 'ND' are those whose qualifier is the symbol. *)
Lemma is_ND_standardize (nd : string) (r : obs) :
  is_ND (standardize nd r) = String.eqb (qual r) nd.
Proof. unfold is_ND, standardize. simpl. by destruct (String.eqb (qual r) nd). Qed.

Lemma canonical_count (data : list obs) (nd : string) (p : obs -> bool) :
  length (List.filter p (canonical data nd)) =
  length (List.filter (fun r => p (standardize nd r)) data).
Proof.
  rewrite (filter_length_perm p _ _ (canonical_perm data nd)).
  apply filter_map_length.
Qed.

Lemma canonical_censored (data : list obs) (nd : string) :
  length (List.filter is_ND (canonical data nd)) = count_nd nd data.
Proof.
  rewrite canonical_count. unfold count_nd.
  apply filter_ext_length, is_ND_standardize.
Qed.

Lemma cohn_nil_iff (data : list obs) (nd : string) :
  cohn (canonical data nd) = [] <-> count_nd nd data = 0%nat.
Proof.
  rewrite <- canonical_censored.
  destruct (cohn_struct (canonical data nd)) as [[H1 H2]|(H1 & real & H2 & _)].
  - rewrite H1, H2. done.
  - rewrite H2. split.
    + intros H. by destruct real.
    + intros H. by destruct (List.filter is_ND (canonical data nd)).
Qed.

(** ** The three branches of [estimator] *)

Section Branches.
Variable ppf : float64 -> float64.
Variable np_log np_exp : float64 -> float64.
Variable linregress : list float64 -> list float64 -> float64 * float64.

Local Abbreviation run_estimator := (estimator ppf np_log np_exp linregress).
Local Abbreviation model := (fit_and_model ppf np_log np_exp linregress).

Lemma estimator_no_censored (self : MRself) :
  self_N_nd self = 0%nat ->
  run_estimator self =
    OK {| est_DLs := self_DLs self; est_fit := None;
          est_data := map (fun r : ranked =>
            {| rk := r; plot_pos := None; Zprelim := None;
               modeled_data := None; final_data := Fin (res r) |})
            (self_data self) |}.
Proof. intros H. unfold estimator. by rewrite H. Qed.

Lemma estimator_half_DLs (self : MRself) :
  self_N_nd self <> 0%nat ->
  too_few_detects (self_N_tot self) (self_N_nd self) = true ->
  run_estimator self =
    OK {| est_DLs := self_DLs self; est_fit := None;
          est_data := map (fun r : ranked =>
            {| rk := r; plot_pos := None; Zprelim := None;
               modeled_data := None; final_data := _select_half_DLs r |})
            (self_data self) |}.
Proof.
  intros H1 H2. unfold estimator.
  apply Nat.eqb_neq in H1. by rewrite H1, H2.
Qed.

Lemma estimator_regression (self : MRself) :
  self_N_nd self <> 0%nat ->
  too_few_detects (self_N_tot self) (self_N_nd self) = false ->
  run_estimator self =
    (pp ← apply_rows (_ros_plotting_pos (compute_PE (self_DLs self)))
                     (self_data self);
     OK (model self (compute_PE (self_DLs self)) pp)).
Proof.
  intros H1 H2. unfold estimator.
  apply Nat.eqb_neq in H1. by rewrite H1, H2.
Qed.
End Branches.

(** ** The constructor returns on every valid input *)

Lemma positive_min (data : list obs) :
  Forall (fun r => 0 < res r) data ->
  fleb (series_min (map res data)) (Fin 0) = false.
Proof.
  intros H. rewrite Forall_forall in H. destruct data as [|r0 data]; [done|].
  destruct (series_min_spec (map res (r0 :: data))) as (m & -> & Hin & _); [done|].
  apply list_elem_of_In, in_map_iff in Hin as (r & <- & Hr).
  apply list_elem_of_In, H in Hr. simpl.
  destruct (Qle_bool (res r) 0) eqn:E; [|done].
  apply Qle_bool_iff in E. by apply Qlt_not_le in Hr.
Qed.

Lemma assign_DLIndex_total (data : list obs) :
  exists w, assign_DLIndex (cohn data) data = OK w.
Proof.
  apply apply_rows_total. intros r Hr.
  destruct (cohn_struct data) as [[_ H]|(Hne & _)].
  - rewrite H. simpl. eauto.
  - destruct (DL_index_found (cohn data) r) as [i Hi]; [by apply cohn_covers|].
    rewrite Hi. simpl. eauto.
Qed.

Lemma assign_DLIndex_NoDup (DLs : list dlrow) (data : list obs) (w : list indexed) :
  NoDup (map index data) -> assign_DLIndex DLs data = OK w -> NoDup (labels w).
Proof.
  intros Hnd H. apply assign_DLIndex_spec in H as [H _].
  by rewrite labels_assign, H.
Qed.

Lemma plotting_pos_lookups (data : list obs) (w : list indexed) (N : nat)
    (row : ranked) :
  cohn data <> [] -> assign_DLIndex (cohn data) data = OK w ->
  row ∈ _ros_ranks w N ->
  exists dl_1 dl_2,
    compute_PE (cohn data) !! DLIndex row = Some dl_1 /\
    compute_PE (cohn data) !! (DLIndex row + 1)%nat = Some dl_2.
Proof.
  intros Hne Hw Hrow.
  apply list_elem_of_lookup in Hrow as [n Hn].
  apply ros_ranks_lookup in Hn as (Hn & _).
  apply assign_DLIndex_spec in Hw as [_ Hw].
  assert (ix row ∈ w) as Hin by by eapply list_elem_of_lookup_2.
  apply Hw, DL_index_in_range in Hin; [|done].
  destruct (compute_PE_spec (cohn data)) as (Hlen & _).
  destruct (lookup_lt_is_Some_2 (compute_PE (cohn data)) (DLIndex row)) as [d1 H1];
    [rewrite Hlen; lia|].
  destruct (lookup_lt_is_Some_2 (compute_PE (cohn data)) (DLIndex row + 1)) as [d2 H2];
    [rewrite Hlen; lia|].
  eauto.
Qed.

Lemma plotting_pos_total (data : list obs) (w : list indexed) (N : nat) :
  cohn data <> [] -> assign_DLIndex (cohn data) data = OK w ->
  exists pp, apply_rows (_ros_plotting_pos (compute_PE (cohn data)))
                        (_ros_ranks w N) = OK pp.
Proof.
  intros Hne Hw. apply apply_rows_total. intros row Hrow.
  destruct (plotting_pos_lookups data w N row Hne Hw Hrow) as (d1 & d2 & H1 & H2).
  unfold _ros_plotting_pos. rewrite H1, H2.
  destruct (String.eqb (qual row) "ND"); eauto.
Qed.

Section Returns.
Variable ppf : float64 -> float64.
Variable np_log np_exp : float64 -> float64.
Variable linregress : list float64 -> list float64 -> float64 * float64.

Lemma estimator_total (data : list obs) (nd : string) (fl : bool)
    (w : list indexed) :
  assign_DLIndex (cohn (canonical data nd)) (canonical data nd) = OK w ->
  exists e, estimator ppf np_log np_exp linregress (self_of data nd fl w) = OK e.
Proof.
  intros Hw.
  destruct (decide (count_nd nd data = 0%nat)) as [H0|H0].
  { rewrite estimator_no_censored by done. eauto. }
  destruct (too_few_detects (length data) (count_nd nd data)) eqn:E.
  { rewrite estimator_half_DLs by done. eauto. }
  rewrite estimator_regression by done. simpl.
  destruct (plotting_pos_total (canonical data nd) w (length data)) as [pp Hpp].
  - by rewrite cohn_nil_iff.
  - done.
  - rewrite Hpp. simpl. eauto.
Qed.

Lemma init_returns (data : list obs) (nd : string) (fl : bool) :
  valid data ->
  exists w e,
    assign_DLIndex (cohn (canonical data nd)) (canonical data nd) = OK w /\
    estimator ppf np_log np_exp linregress (self_of data nd fl w) = OK e /\
    __init__ ppf np_log np_exp linregress data nd fl =
      OK {| N_tot := length data; N_nd := count_nd nd data; fitlogs := fl;
            DLs := est_DLs e; fit := est_fit e;
            data := map select_columns (est_data e); debug := est_data e |}.
Proof.
  intros [Hnd Hpos].
  destruct (assign_DLIndex_total (canonical data nd)) as [w Hw].
  destruct (estimator_total data nd fl w Hw) as [e He].
  exists w, e. split; [done|]. split; [done|].
  unfold __init__.
  rewrite (bool_decide_eq_true_2 _ Hnd). simpl.
  rewrite (positive_min data Hpos).
  fold (canonical data nd). rewrite Hw. simpl.
  fold (self_of data nd fl w). rewrite He. done.
Qed.
End Returns.

(** ** The branch a data set takes *)

Lemma count_split (p : obs -> bool) (data : list obs) :
  (count p data + count (fun r => negb (p r)) data = length data)%nat.
Proof.
  unfold count. rewrite <- length_app.
  apply Permutation_length, filter_split_perm.
Qed.

Lemma inject_nat_nonzero (n : nat) :
  (0 < n)%nat -> Qeq_bool (inject_Z (Z.of_nat n)) 0 = false.
Proof.
  intros H. destruct (Qeq_bool _ 0) eqn:E; [|done].
  apply Qeq_bool_iff in E. unfold Qeq in E. simpl in E. lia.
Qed.

Lemma too_few_detects_fraction (nd : string) (data : list obs) :
  (0 < n_censored nd data)%nat ->
  too_few_detects (length data) (count_nd nd data) =
    (n_detected nd data <? 2)%nat
    || Qltb (8 # 10) (censored_fraction nd data).
Proof.
  intros Hc. pose proof (count_split (censored nd) data) as Hs.
  fold (n_censored nd data) in Hs. fold (n_detected nd data) in Hs.
  unfold too_few_detects. change (count_nd nd data) with (n_censored nd data).
  f_equal.
  - destruct (n_detected nd data <? 2)%nat eqn:E.
    + apply Nat.ltb_lt in E. apply Z.ltb_lt. lia.
    + apply Nat.ltb_ge in E. apply Z.ltb_ge. lia.
  - unfold of_nat, fdiv. rewrite inject_nat_nonzero by lia. done.
Qed.

Lemma regression_path_branch (nd : string) (data : list obs) :
  regression_path nd data ->
  count_nd nd data <> 0%nat /\
  too_few_detects (length data) (count_nd nd data) = false.
Proof.
  intros (Hc & Hd & Hf). split.
  - change (count_nd nd data) with (n_censored nd data). lia.
  - rewrite too_few_detects_fraction by done.
    apply orb_false_iff. split.
    + apply Nat.ltb_ge. lia.
    + by apply Qltb_ge.
Qed.

Lemma fallback_path_branch (nd : string) (data : list obs) :
  fallback_path nd data ->
  count_nd nd data <> 0%nat /\
  too_few_detects (length data) (count_nd nd data) = true.
Proof.
  intros (Hc & Hd). split.
  - change (count_nd nd data) with (n_censored nd data). lia.
  - rewrite too_few_detects_fraction by done.
    apply orb_true_iff. destruct Hd as [Hd|Hd].
    + left. apply Nat.ltb_lt. lia.
    + right. by apply Qltb_lt.
Qed.

Section Runs.
Variable ppf : float64 -> float64.
Variable np_log np_exp : float64 -> float64.
Variable linregress : list float64 -> list float64 -> float64 * float64.

Local Abbreviation init := (__init__ ppf np_log np_exp linregress).
Local Abbreviation model := (fit_and_model ppf np_log np_exp linregress).

(** What the constructor returns on each branch. *)
Lemma run_no_censored (data : list obs) (nd : string) (fl : bool) :
  valid data -> n_censored nd data = 0%nat ->
  exists w,
    assign_DLIndex (cohn (canonical data nd)) (canonical data nd) = OK w /\
    cohn (canonical data nd) = [] /\
    let frame := map (fun r : ranked =>
      {| rk := r; plot_pos := None; Zprelim := None;
         modeled_data := None; final_data := Fin (res r) |})
      (_ros_ranks w (length data)) in
    init data nd fl =
      OK {| N_tot := length data; N_nd := count_nd nd data; fitlogs := fl;
            DLs := []; fit := None;
            data := map select_columns frame; debug := frame |}.
Proof.
  intros Hv H0.
  destruct (init_returns ppf np_log np_exp linregress data nd fl Hv)
    as (w & e & Hw & He & Hinit).
  rewrite estimator_no_censored in He by done. injection He as <-.
  exists w. split; [done|].
  assert (cohn (canonical data nd) = []) as Hc by by apply cohn_nil_iff.
  split; [done|]. simpl in Hinit. rewrite Hc in Hinit. done.
Qed.

Lemma run_fallback (data : list obs) (nd : string) (fl : bool) :
  valid data -> fallback_path nd data ->
  exists w,
    assign_DLIndex (cohn (canonical data nd)) (canonical data nd) = OK w /\
    let frame := map (fun r : ranked =>
      {| rk := r; plot_pos := None; Zprelim := None;
         modeled_data := None; final_data := _select_half_DLs r |})
      (_ros_ranks w (length data)) in
    init data nd fl =
      OK {| N_tot := length data; N_nd := count_nd nd data; fitlogs := fl;
            DLs := cohn (canonical data nd); fit := None;
            data := map select_columns frame; debug := frame |}.
Proof.
  intros Hv Hp. destruct (fallback_path_branch nd data Hp) as [H0 Ht].
  destruct (init_returns ppf np_log np_exp linregress data nd fl Hv)
    as (w & e & Hw & He & Hinit).
  rewrite estimator_half_DLs in He by done. injection He as <-.
  exists w. split; [done|]. done.
Qed.

Lemma run_regression (data : list obs) (nd : string) (fl : bool) :
  valid data -> regression_path nd data ->
  exists w pp,
    assign_DLIndex (cohn (canonical data nd)) (canonical data nd) = OK w /\
    apply_rows (_ros_plotting_pos (compute_PE (cohn (canonical data nd))))
               (_ros_ranks w (length data)) = OK pp /\
    let e := model (self_of data nd fl w)
                   (compute_PE (cohn (canonical data nd))) pp in
    init data nd fl =
      OK {| N_tot := length data; N_nd := count_nd nd data; fitlogs := fl;
            DLs := compute_PE (cohn (canonical data nd)); fit := est_fit e;
            data := map select_columns (est_data e); debug := est_data e |}.
Proof.
  intros Hv Hp. destruct (regression_path_branch nd data Hp) as [H0 Ht].
  destruct (init_returns ppf np_log np_exp linregress data nd fl Hv)
    as (w & e & Hw & He & Hinit).
  rewrite estimator_regression in He by done.
  apply bind_OK in He as (pp & Hpp & [= <-]).
  exists w, pp. split; [done|]. split; [done|]. done.
Qed.

(** On every branch the table is [cohn]'s, up to its PE column. *)
Lemma run_table (data : list obs) (nd : string) (fl : bool) (o : MR) :
  init data nd fl = OK o ->
  length (DLs o) = length (cohn (canonical data nd)) /\
  forall i d, DLs o !! i = Some d ->
    exists d0, cohn (canonical data nd) !! i = Some d0 /\ d = set_PE d0 (PE d).
Proof.
  intros H. apply init_OK in H as (_ & _ & w & e & _ & He & ->). simpl.
  assert (est_DLs e = cohn (canonical data nd) \/
          est_DLs e = compute_PE (cohn (canonical data nd))) as [->| ->].
  { destruct (decide (count_nd nd data = 0%nat)) as [H0|H0].
    { rewrite estimator_no_censored in He by done. injection He as <-. by left. }
    destruct (too_few_detects (length data) (count_nd nd data)) eqn:E.
    { rewrite estimator_half_DLs in He by done. injection He as <-. by left. }
    rewrite estimator_regression in He by done.
    apply bind_OK in He as (pp & _ & [= <-]). by right. }
  - split; [done|]. intros i d Hd. exists d. split; [done|]. by destruct d.
  - destruct (compute_PE_spec (cohn (canonical data nd))) as (L & _ & Hs & _).
    split; [done|]. done.
Qed.
End Runs.

(** ** Counting *)

Lemma filter_filter_length {T} (p q : T -> bool) (l : list T) :
  length (List.filter p (List.filter q l)) =
  length (List.filter (fun x => q x && p x) l).
Proof.
  induction l as [|x l IH]; simpl; [done|].
  destruct (q x); simpl; [|done]. destruct (p x); simpl; by rewrite IH.
Qed.

Lemma count_sum_ext {T} (p q p' q' : T -> bool) (l : list T) :
  (forall x, (Nat.b2n (p x) + Nat.b2n (q x) =
              Nat.b2n (p' x) + Nat.b2n (q' x))%nat) ->
  (length (List.filter p l) + length (List.filter q l) =
   length (List.filter p' l) + length (List.filter q' l))%nat.
Proof.
  intros H. induction l as [|x l IH]; simpl; [done|].
  specialize (H x).
  destruct (p x), (q x), (p' x), (q' x); simpl in *; lia.
Qed.

Lemma fleb_split (a : Q) (lo : float64) :
  fleb (Fin a) lo = fltb (Fin a) lo || feqb (Fin a) lo.
Proof.
  destruct lo as [b| | |]; simpl; try done.
  destruct (Qle_bool a b) eqn:Ele, (Qltb a b) eqn:Elt, (Qeq_bool a b) eqn:Eeq;
    try done; exfalso.
  - apply Qle_bool_iff in Ele. apply Qltb_ge in Elt.
    assert (a == b) as H by by apply Qle_antisym.
    apply Qeq_bool_iff in H. congruence.
  - apply Qltb_lt in Elt. apply Qlt_le_weak, Qle_bool_iff in Elt. congruence.
  - apply Qltb_lt in Elt. apply Qlt_le_weak, Qle_bool_iff in Elt. congruence.
  - apply Qeq_bool_iff in Eeq.
    assert (a <= b) as H by (rewrite Eeq; apply Qle_refl).
    apply Qle_bool_iff in H. congruence.
Qed.

Lemma fltb_feqb (a : Q) (lo : float64) :
  fltb (Fin a) lo = true -> feqb (Fin a) lo = false.
Proof.
  destruct lo as [b| | |]; simpl; try done.
  intros Hlt. apply Qltb_lt in Hlt.
  destruct (Qeq_bool a b) eqn:E; [|done].
  apply Qeq_bool_iff in E. rewrite E in Hlt. by apply Qlt_irrefl in Hlt.
Qed.

Lemma is_detect_standardize (nd : string) (r : obs) :
  is_detect (standardize nd r) = negb (censored nd r).
Proof. unfold is_detect. fold (is_ND (standardize nd r)). by rewrite is_ND_standardize. Qed.

(** The counts [cohn] takes over the sorted frame are the counts of the
    specification over the input. *)
Lemma cohn_A_spec (data : list obs) (nd : string) (lo up : float64) :
  _A (canonical data nd) lo up = spec_A nd data lo up.
Proof.
  unfold _A, spec_A, count. rewrite canonical_count.
  apply filter_ext_length. intros r. rewrite is_detect_standardize.
  change (res (standardize nd r)) with (res r).
  by destruct (censored nd r), (fleb lo (Fin (res r))), (fltb (Fin (res r)) up).
Qed.

Lemma cohn_C_spec (data : list obs) (nd : string) (lo : float64) :
  _C (canonical data nd) lo = spec_C nd data lo.
Proof.
  unfold _C, spec_C, count. rewrite filter_filter_length, canonical_count.
  apply filter_ext_length. intros r. by rewrite is_ND_standardize.
Qed.

Lemma cohn_B_spec (data : list obs) (nd : string) (lo : float64) :
  _B (canonical data nd) lo = spec_B nd data lo.
Proof.
  unfold _B, spec_B, spec_C, count. rewrite !canonical_count.
  apply count_sum_ext. intros r.
  rewrite is_ND_standardize, is_detect_standardize.
  change (res (standardize nd r)) with (res r).
  fold (censored nd r). rewrite fleb_split.
  pose proof (fltb_feqb (res r) lo) as H.
  destruct (censored nd r), (fltb (Fin (res r)) lo), (feqb (Fin (res r)) lo);
    simpl; try done. by specialize (H eq_refl).
Qed.

(** The rows of the table before the appended one are [cohn_row]s. *)
Lemma cohn_real_row (data : list obs) (i : nat) (d : dlrow) :
  (i + 1 < length (cohn data))%nat -> cohn data !! i = Some d ->
  exists lo, limits data !! i = Some lo /\
    d = cohn_row data (lo, upper_at (limits data) i).
Proof.
  intros Hi Hd.
  destruct (cohn_struct data) as [[_ H]|(_ & real & Hc & Hlen & Hreal)].
  - by rewrite H in Hd.
  - rewrite Hc in Hi, Hd. rewrite length_app in Hi. simpl in Hi.
    rewrite lookup_app_l in Hd by lia. rewrite Hreal in Hd.
    destruct (limits data !! i) as [lo|]; [|done].
    injection Hd as <-. eauto.
Qed.

(** ** The rows of the returned frame *)

Lemma zip_fst_map {T U} (l : list T) (k : list U) :
  length l = length k -> map fst (zip l k) = l.
Proof. intros H. apply (fst_zip l k). lia. Qed.

Lemma apply_rows_length {T U} (f : T -> result U) (l : list T) (l' : list U) :
  apply_rows f l = OK l' -> length l' = length l.
Proof. intros H. apply apply_rows_Forall2, Forall2_length in H. done. Qed.

Lemma canonical_qual (data : list obs) (nd : string) (r : obs) :
  r ∈ canonical data nd -> qual r = "ND" \/ qual r = "=".
Proof.
  rewrite canonical_perm. intros H.
  apply list_elem_of_In, in_map_iff in H as (x & <- & _).
  unfold standardize. simpl. destruct (String.eqb (qual x) nd); auto.
Qed.

Section Frame.
Variable ppf : float64 -> float64.
Variable np_log np_exp : float64 -> float64.
Variable linregress : list float64 -> list float64 -> float64 * float64.

Lemma fit_and_model_rk (self : MRself) (t : list dlrow) (pp : list float64) :
  length pp = length (self_data self) ->
  map rk (est_data (fit_and_model ppf np_log np_exp linregress self t pp)) =
  self_data self.
Proof.
  intros H. unfold fit_and_model. simpl. rewrite map_map. simpl.
  apply zip_fst_map. rewrite length_zip_with, length_map. lia.
Qed.

(** The frame extends the rows [_ros_ranks] produced; their observations
    are the sorted input. *)
Lemma run_rows (data : list obs) (nd : string) (fl : bool) (o : MR) :
  __init__ ppf np_log np_exp linregress data nd fl = OK o ->
  exists w,
    assign_DLIndex (cohn (canonical data nd)) (canonical data nd) = OK w /\
    NoDup (labels w) /\
    map ob w = canonical data nd /\
    map rk (debug o) = _ros_ranks w (length data).
Proof.
  intros H. apply init_OK in H as (Hnd & _ & w & e & Hw & He & ->). simpl.
  exists w. split; [done|].
  assert (NoDup (labels w)) as Hl.
  { eapply assign_DLIndex_NoDup; [|done]. by apply canonical_NoDup. }
  split; [done|]. split; [by apply assign_DLIndex_spec in Hw as [? _]|].
  destruct (decide (count_nd nd data = 0%nat)) as [H0|H0].
  { rewrite estimator_no_censored in He by done. injection He as <-. simpl.
    rewrite map_map. simpl. apply map_id. }
  destruct (too_few_detects (length data) (count_nd nd data)) eqn:E.
  { rewrite estimator_half_DLs in He by done. injection He as <-. simpl.
    rewrite map_map. simpl. apply map_id. }
  rewrite estimator_regression in He by done.
  apply bind_OK in He as (pp & Hpp & [= <-]).
  apply fit_and_model_rk. by apply apply_rows_length in Hpp.
Qed.

(** Every input observation has its row in the frame, under its label. *)
Lemma run_row_of (data : list obs) (nd : string) (fl : bool) (o : MR) (x : obs) :
  __init__ ppf np_log np_exp linregress data nd fl = OK o -> x ∈ data ->
  exists r : estimated, r ∈ debug o /\ index r = index x /\ res r = res x /\
    is_ND r = censored nd x.
Proof.
  intros H Hx. destruct (run_rows data nd fl o H) as (w & _ & Hl & Hob & Hrk).
  assert (map (fun r : estimated => ob (ix (rk r))) (debug o) = canonical data nd)
    as Hrows.
  { rewrite <- Hob, <- (ros_ranks_ix w (length data) Hl), <- Hrk.
    by rewrite !map_map. }
  assert (standardize nd x ∈ canonical data nd) as Hin.
  { rewrite canonical_perm. by apply list_elem_of_In, in_map, list_elem_of_In. }
  rewrite <- Hrows in Hin.
  apply list_elem_of_In, in_map_iff in Hin as (r & Hr & Hrin).
  exists r. split; [by apply list_elem_of_In|].
  change (index r) with (index (ob (ix (rk r)))).
  change (res r) with (res (ob (ix (rk r)))).
  change (is_ND r) with (is_ND (ob (ix (rk r)))).
  rewrite Hr. split; [done|]. split; [done|]. apply is_ND_standardize.
Qed.

Lemma run_length (data : list obs) (nd : string) (fl : bool) (o : MR) :
  __init__ ppf np_log np_exp linregress data nd fl = OK o ->
  length (debug o) = length data.
Proof.
  intros H. destruct (run_rows data nd fl o H) as (w & _ & Hl & Hob & Hrk).
  rewrite <- (length_map rk), Hrk, (ros_ranks_length w _ Hl).
  rewrite <- (length_map ob), Hob.
  rewrite (Permutation_length (canonical_perm data nd)). apply length_map.
Qed.
End Frame.

Lemma cohn_PE_zero (data : list obs) (d : dlrow) :
  d ∈ cohn data -> PE d = Fin 0.
Proof.
  unfold cohn. destruct (0 <? _)%nat; [|intros H; inversion H].
  intros [H|H]%elem_of_app.
  - apply list_elem_of_In, in_map_iff in H as (lu & <- & _). done.
  - apply list_elem_of_singleton in H as ->. done.
Qed.

(** With every row in one run the raw rank is the position, from 1. *)
Lemma single_run_ranks (w : list indexed) (N : nat) :
  NoDup (labels w) ->
  (forall n, (0 < n < length w)%nat -> starts_run w n = false) ->
  forall n, (n < length w)%nat ->
    exists q, norm_ranks w N !! n = Some (Fin q) /\
              q == inject_Z (Z.of_nat (n + 1)).
Proof.
  intros Hnd Hrun. destruct (norm_ranks_spec w N Hnd) as [_ Hrec].
  induction n as [|n IH]; intros Hn.
  - exists 1. rewrite Hrec by done. done.
  - destruct IH as (q & Hq & Eq); [lia|].
    exists (q + 1). rewrite Hrec by done. rewrite Hrun by lia.
    replace (S n - 1)%nat with n by lia.
    rewrite nth_lookup, Hq. simpl. split; [done|].
    rewrite Eq. change 1 with (inject_Z 1). rewrite <- inject_Z_plus.
    f_equiv. lia.
Qed.

(** ** Ranks in the returned frame *)

Lemma map_filter_map {T U V} (f : T -> U) (g : U -> V) (p : U -> bool)
    (l : list T) :
  map g (List.filter p (map f l)) =
  map (fun x => g (f x)) (List.filter (fun x => p (f x)) l).
Proof.
  induction l as [|x l IH]; simpl; [done|].
  destruct (p (f x)); simpl; by rewrite IH.
Qed.

Lemma avgrank_rows (w : list indexed) (N : nat) (r : ranked) :
  r ∈ _ros_ranks w N ->
  Avg_Ranks r =
    if is_ND r then Norm_Ranks r
    else mean (map Norm_Ranks (List.filter (tied_with r) (_ros_ranks w N))).
Proof.
  intros Hr. apply list_elem_of_lookup in Hr as [n Hn].
  apply ros_ranks_lookup in Hn as (_ & _ & ->).
  unfold avgrank, is_ND. simpl.
  destruct (String.eqb (qual r) "ND"); simpl; [done|].
  unfold _ros_ranks. by rewrite map_filter_map.
Qed.

Lemma tied_with_ext (r1 r2 x : ranked) :
  DLIndex r1 = DLIndex r2 -> res r1 == res r2 ->
  tied_with r1 x = tied_with r2 x.
Proof.
  intros Hd Hr. unfold tied_with. rewrite Hd. f_equal. f_equal.
  destruct (Qeq_bool (res x) (res r1)) eqn:E1, (Qeq_bool (res x) (res r2)) eqn:E2;
    try done; exfalso.
  - apply Qeq_bool_iff in E1. rewrite Hr in E1.
    apply Qeq_bool_iff in E1. congruence.
  - apply Qeq_bool_iff in E2. rewrite <- Hr in E2.
    apply Qeq_bool_iff in E2. congruence.
Qed.

(** Between standardised rows the qualifiers differ exactly when the
    censoring status does. *)
Lemma standard_qual_eqb (a b : obs) :
  (qual a = "ND" \/ qual a = "=") -> (qual b = "ND" \/ qual b = "=") ->
  String.eqb (qual a) (qual b) = Bool.eqb (is_ND a) (is_ND b).
Proof. unfold is_ND. by intros [-> | ->] [-> | ->]. Qed.

Lemma cohn_lower_DL (data : list obs) (d : dlrow) :
  d ∈ cohn data -> lower d = DL d.
Proof.
  unfold cohn. destruct (0 <? _)%nat; [|intros H; inversion H].
  intros [H|H]%elem_of_app.
  - apply list_elem_of_In, in_map_iff in H as (lu & <- & _). done.
  - apply list_elem_of_singleton in H as ->. done.
Qed.

(** ** Bounds on the exceedance probabilities *)

Lemma inject_sum_pos (a b : nat) :
  (1 <= a + b)%nat -> 0 < inject_Z (Z.of_nat a) + inject_Z (Z.of_nat b).
Proof.
  intros H. rewrite <- inject_Z_plus. change 0 with (inject_Z 0).
  rewrite <- Zlt_Qlt. lia.
Qed.

Lemma inject_nat_nonneg (a : nat) : 0 <= inject_Z (Z.of_nat a).
Proof. change 0 with (inject_Z 0). rewrite <- Zle_Qle. lia. Qed.

Lemma inject_nat_pos (a : nat) : (1 <= a)%nat -> 0 < inject_Z (Z.of_nat a).
Proof. intros H. change 0 with (inject_Z 0). rewrite <- Zlt_Qlt. lia. Qed.

(** The ratio [A / (A + B)] of two counts that are not both zero. *)
Lemma ratio_bounds (a b : nat) :
  (1 <= a + b)%nat ->
  let r := inject_Z (Z.of_nat a) / (inject_Z (Z.of_nat a) + inject_Z (Z.of_nat b)) in
  0 <= r /\ r <= 1 /\ ((1 <= b)%nat -> r < 1) /\ ((1 <= a)%nat -> 0 < r).
Proof.
  intros H r. pose proof (inject_sum_pos a b H) as Hs.
  pose proof (inject_nat_nonneg a) as Ha. pose proof (inject_nat_nonneg b) as Hb.
  unfold r. repeat split.
  - apply Qle_shift_div_l; [done|]. lra.
  - apply Qle_shift_div_r; [done|]. lra.
  - intros H1. apply Qlt_shift_div_r; [done|].
    pose proof (inject_nat_pos b H1). lra.
  - intros H1. apply Qlt_shift_div_l; [done|].
    pose proof (inject_nat_pos a H1). lra.
Qed.

(** One step of the recursion on finite values. *)
Lemma PE_step_value (a b : nat) (p : Q) :
  (1 <= a + b)%nat ->
  fadd (Fin p)
       (fmul (fdiv (of_nat a) (fadd (of_nat a) (of_nat b)))
             (fsub (Fin 1) (Fin p))) =
  Fin (p + inject_Z (Z.of_nat a)
           / (inject_Z (Z.of_nat a) + inject_Z (Z.of_nat b)) * (1 + - p)).
Proof.
  intros H. unfold of_nat. simpl.
  destruct (Qeq_bool _ 0) eqn:E; [|done].
  apply Qeq_bool_iff in E. pose proof (inject_sum_pos a b H) as Hs.
  rewrite E in Hs. by apply Qlt_irrefl in Hs.
Qed.

(** An entry of the finished table before the appended one: its counts
    and its [PE] in terms of the next entry's. *)
Lemma PE_entry (data : list obs) (j : nat) (d : dlrow) :
  (j + 1 < length (cohn data))%nat ->
  compute_PE (cohn data) !! j = Some d ->
  exists lo d1,
    limits data !! j = Some lo /\
    lower d = lo /\ upper d = upper_at (limits data) j /\
    A d = of_nat (_A data lo (upper_at (limits data) j)) /\
    B d = of_nat (_B data lo) /\
    C d = of_nat (_C data lo) /\
    compute_PE (cohn data) !! (j + 1)%nat = Some d1 /\
    PE d = fadd (PE d1)
             (fmul (fdiv (A d) (fadd (A d) (B d))) (fsub (Fin 1) (PE d1))).
Proof.
  intros Hj Hd.
  destruct (compute_PE_spec (cohn data)) as (_ & _ & Hsame & Hrec).
  destruct (Hsame j d Hd) as (d0 & Hd0 & E).
  destruct (cohn_real_row data j d0 Hj Hd0) as (lo & Hlo & ->).
  destruct (Hrec j Hj) as (d' & d1 & Hd' & Hd1 & HPE).
  assert (d' = d) as -> by congruence.
  exists lo, d1. rewrite E. simpl. rewrite E in HPE. simpl in HPE. done.
Qed.

Lemma PE_last (data : list obs) (j : nat) (d : dlrow) :
  (j + 1 = length (cohn data))%nat ->
  compute_PE (cohn data) !! j = Some d -> PE d = Fin 0.
Proof.
  intros Hj Hd.
  destruct (compute_PE_spec (cohn data)) as (_ & Hge & _).
  rewrite Hge in Hd by lia. apply (cohn_PE_zero data).
  by eapply list_elem_of_lookup_2.
Qed.

(** Every [PE] of the finished table lies in [0, 1], and below 1 from the
    second entry on. *)
Lemma PE_table (data : list obs) : forall k j d,
  (j + k + 1 = length (cohn data))%nat ->
  compute_PE (cohn data) !! j = Some d ->
  exists q, PE d = Fin q /\ 0 <= q /\ q <= 1 /\ ((1 <= j)%nat -> q < 1).
Proof.
  induction k as [|k IH]; intros j d Hj Hd.
  - rewrite (PE_last data j d) by (done || lia). exists 0.
    repeat split; try done. 
  - destruct (PE_entry data j d) as (lo & d1 & Hlo & _ & _ & HA & HB & _ & Hd1 & HPE);
      [lia|done|].
    destruct (IH (j + 1)%nat d1) as (p & Hp & Hp0 & Hp1 & Hplt); [lia|done|].
    specialize (Hplt ltac:(lia)).
    destruct (limit_counts data j lo Hlo) as [Hab Hb].
    rewrite HA, HB, Hp in HPE. rewrite PE_step_value in HPE by done.
    destruct (ratio_bounds _ _ Hab) as (Hr0 & Hr1 & Hrlt & _).
    eexists. split; [exact HPE|].
    set (r := inject_Z _ / _) in *. clearbody r.
    split; [nra|]. split; [nra|]. intros H1.
    specialize (Hrlt (Hb H1)). nra.
Qed.

(** ** The limits are strictly increasing *)

Lemma sort_insert_sorted (x : obs) (l : list obs) :
  StronglySorted (fun a b => res a <= res b) l ->
  StronglySorted (fun a b => res a <= res b) (sort_insert x l).
Proof.
  induction 1 as [|y l Hs IH Hy]; simpl.
  - repeat constructor.
  - destruct (Qle_bool (res x) (res y)) eqn:E.
    + apply Qle_bool_iff in E. constructor; [by constructor|].
      constructor; [done|]. eapply Forall_impl; [exact Hy|].
      intros z Hz. simpl in Hz. by eapply Qle_trans.
    + constructor; [done|].
      rewrite (sort_insert_perm x l). constructor; [|done].
      apply Qlt_le_weak, Qltb_lt. unfold Qltb. by rewrite E.
Qed.

Lemma sort_res_sorted (l : list obs) :
  StronglySorted (fun a b => res a <= res b) (sort_res l).
Proof.
  induction l as [|x l IH]; simpl; [constructor|].
  by apply sort_insert_sorted.
Qed.

Lemma filter_sorted {T} (R : T -> T -> Prop) (p : T -> bool) (l : list T) :
  StronglySorted R l -> StronglySorted R (List.filter p l).
Proof.
  induction 1 as [|x l Hs IH Hx]; simpl; [constructor|].
  destruct (p x); [|done]. constructor; [done|].
  apply Forall_forall. intros y Hy. rewrite Forall_forall in Hx. apply Hx.
  apply list_elem_of_In, filter_In in Hy as [Hy _]. by apply list_elem_of_In.
Qed.

Lemma map_res_sorted (l : list obs) :
  StronglySorted (fun a b => res a <= res b) l -> StronglySorted Qle (map res l).
Proof.
  induction 1 as [|x l Hs IH Hx]; simpl; [constructor|].
  constructor; [done|]. apply Forall_forall. intros y Hy.
  apply list_elem_of_In, in_map_iff in Hy as (r & <- & Hr).
  rewrite Forall_forall in Hx. by apply Hx, list_elem_of_In.
Qed.

Lemma unique_sorted (l : list Q) :
  StronglySorted Qle l -> StronglySorted Qlt (unique l).
Proof.
  induction 1 as [|x l Hs IH Hx]; simpl; [constructor|].
  constructor; [by apply filter_sorted|].
  apply Forall_forall. intros y Hy.
  apply list_elem_of_In, filter_In in Hy as [Hy Hne].
  apply list_elem_of_In, unique_subset in Hy.
  rewrite Forall_forall in Hx. specialize (Hx y Hy).
  apply Qle_lteq in Hx as [Hlt|Heq]; [done|].
  symmetry in Heq. apply Qeq_bool_iff in Heq. by rewrite Heq in Hne.
Qed.

Lemma filter_none {T} (p : T -> bool) (l : list T) :
  (forall x, x ∈ l -> p x = false) -> List.filter p l = [].
Proof.
  intros H. destruct (List.filter p l) as [|x xs] eqn:E; [done|].
  assert (In x (List.filter p l)) as Hx by (rewrite E; by left).
  apply filter_In in Hx as [Hx1 Hx2]. apply list_elem_of_In in Hx1.
  rewrite H in Hx2; done.
Qed.

(** Whatever the symbol, the rows qualified 'ND' all lie in one of the two
    sorted halves of the frame. *)
Lemma rosSort_ND_sorted (l : list obs) (nd : string) :
  StronglySorted (fun a b => res a <= res b) (List.filter is_ND (rosSort l nd)).
Proof.
  unfold rosSort. rewrite List.filter_app.
  destruct (String.eqb "ND" nd) eqn:E.
  - apply String.eqb_eq in E as <-.
    rewrite (filter_none is_ND
               (sort_res (List.filter (fun r => negb (String.eqb (qual r) "ND")) l))).
    + rewrite app_nil_r. apply filter_sorted, sort_res_sorted.
    + intros x Hx. rewrite sort_res_perm in Hx.
      apply list_elem_of_In, filter_In in Hx as [_ Hx].
      unfold is_ND. by apply negb_true_iff in Hx.
  - rewrite (filter_none is_ND (sort_res (List.filter (fun r => String.eqb (qual r) nd) l))).
    + apply filter_sorted, sort_res_sorted.
    + intros x Hx. rewrite sort_res_perm in Hx.
      apply list_elem_of_In, filter_In in Hx as [_ Hx].
      apply String.eqb_eq in Hx. unfold is_ND. rewrite Hx.
      by rewrite String.eqb_sym.
Qed.

Lemma sorted_lookup {T} (R : T -> T -> Prop) (l : list T) :
  StronglySorted R l ->
  forall k i a b, (k < i)%nat -> l !! k = Some a -> l !! i = Some b -> R a b.
Proof.
  induction 1 as [|x l Hs IH Hx]; intros k i a b Hki Hk Hi; [done|].
  destruct i as [|i]; [lia|]. destruct k as [|k].
  - injection Hk as <-. rewrite Forall_forall in Hx. apply Hx.
    by eapply list_elem_of_lookup_2.
  - apply (IH k i); [lia|done|done].
Qed.

Lemma limits_sorted (data : list obs) (nd : string) :
  StronglySorted (fun x y => fltb x y = true) (limits (canonical data nd)).
Proof.
  unfold limits, cohn_limits.
  set (c := canonical data nd).
  set (uniq := unique (map res (List.filter is_ND c))).
  assert (StronglySorted Qlt uniq) as Hu.
  { apply unique_sorted, map_res_sorted, rosSort_ND_sorted. }
  assert (StronglySorted (fun x y => fltb x y = true) (map Fin uniq)) as Hf.
  { clear -Hu. induction Hu as [|x l Hs IH Hx]; simpl; constructor; [done|].
    apply Forall_forall. intros y Hy.
    apply list_elem_of_In, in_map_iff in Hy as (q & <- & Hq).
    rewrite Forall_forall in Hx. simpl. by apply Qltb_lt, Hx, list_elem_of_In. }
  destruct (fltb (series_min (map res c)) (series_min uniq)) eqn:E; [|done].
  destruct uniq as [|u0 us] eqn:Eu; [by destruct (series_min (map res c))|].
  destruct (series_min_spec (u0 :: us)) as (mu & Hmu & _ & Hle); [done|].
  rewrite Hmu in E. destruct (map res c) as [|r0 rs]; [done|].
  simpl in E. apply Qltb_lt in E. cbn [series_min].
  constructor; [done|]. apply Forall_forall. intros y Hy.
  apply list_elem_of_In, in_map_iff in Hy as (q & <- & Hq). simpl.
  apply Qltb_lt. eapply Qlt_le_trans; [done|]. by apply Hle, list_elem_of_In.
Qed.

(** ** Where a row falls among the limits *)

Lemma limits_Fin (data : list obs) (x : float64) :
  x ∈ limits data -> exists q, x = Fin q.
Proof. apply cohn_limits_Fin. Qed.

Lemma limits_ND (data : list obs) (i : nat) (lo : float64) :
  limits data !! i = Some lo -> List.filter is_ND data <> [].
Proof.
  unfold limits, cohn_limits. intros H E. rewrite E in H. simpl in H.
  destruct (series_min (map res data)); done.
Qed.

Lemma cohn_DL_at (data : list obs) (i : nat) (lo : float64) :
  limits data !! i = Some lo ->
  (i + 1 < length (cohn data))%nat /\
  cohn data !! i = Some (cohn_row data (lo, upper_at (limits data) i)).
Proof.
  intros Hlo. pose proof (limits_ND data i lo Hlo) as Hne.
  destruct (cohn_struct data) as [[H _]|(_ & real & Hc & Hlen & Hreal)]; [done|].
  pose proof (lookup_lt_Some _ _ _ Hlo) as Hi.
  rewrite Hc, length_app. simpl. split; [lia|].
  rewrite lookup_app_l by lia. by rewrite Hreal, Hlo.
Qed.

Lemma cohn_nonempty_ND (data : list obs) :
  cohn data <> [] <-> List.filter is_ND data <> [].
Proof.
  destruct (cohn_struct data) as [[H1 H2]|(H1 & real & H2 & _)].
  - rewrite H1, H2. done.
  - rewrite H2. split; [done|]. intros _. by destruct real.
Qed.

Lemma assigned_row (c : list obs) (w : list indexed) (y : indexed) :
  assign_DLIndex (cohn c) c = OK w -> y ∈ w -> cohn c <> [] ->
  ob y ∈ c /\
  (exists lo, limits c !! DLIndex y = Some lo /\
     fleb lo (Fin (res y)) = true) /\
  (forall j lo, (DLIndex y < j)%nat -> limits c !! j = Some lo ->
     fleb lo (Fin (res y)) = false).
Proof.
  intros Hw Hy Hne. destruct (assign_DLIndex_spec _ _ _ Hw) as [Hob Hidx].
  split. { rewrite <- Hob. by apply list_elem_of_In, in_map, list_elem_of_In. }
  specialize (Hidx y Hy).
  pose proof (DL_index_in_range c _ _ Hne Hidx) as Hrange.
  destruct (DL_index_spec _ _ _ Hne Hidx) as [(d & Hd & Hle) Habove].
  split.
  - destruct (cohn_real_row c _ d Hrange Hd) as (lo & Hlo & ->).
    exists lo. done.
  - intros j lo Hj Hlo. destruct (cohn_DL_at c j lo Hlo) as [_ Hrow].
    by apply (Habove j _ Hj Hrow).
Qed.

(** A censored row sits exactly at its limit. *)
Lemma censored_row_at_limit (data : list obs) (nd : string) (w : list indexed)
    (y : indexed) (lo : float64) :
  let c := canonical data nd in
  assign_DLIndex (cohn c) c = OK w -> y ∈ w -> is_ND y = true ->
  limits c !! DLIndex y = Some lo ->
  feqb (Fin (res y)) lo = true.
Proof.
  intros c Hw Hy Hnd Hlo.
  assert (cohn c <> []) as Hne.
  { apply cohn_nonempty_ND. by eapply limits_ND. }
  destruct (assigned_row c w y Hw Hy Hne) as (Hin & (lo' & Hlo' & Hle) & Habove).
  assert (lo' = lo) as -> by congruence.
  destruct (limits_Fin c lo) as [ui ->]; [by eapply list_elem_of_lookup_2|].
  simpl in Hle. apply Qle_bool_iff in Hle.
  destruct (unique_complete (map res (List.filter is_ND c)) (res y))
    as (u & Hu & Heq).
  { apply list_elem_of_In, in_map, filter_In. by rewrite <- list_elem_of_In. }
  assert (Fin u ∈ limits c) as Hul.
  { unfold limits, cohn_limits.
    destruct (fltb _ _); [right|];
      by apply list_elem_of_In, in_map, list_elem_of_In. }
  apply list_elem_of_lookup in Hul as [k Hk].
  assert (k <= DLIndex y)%nat as Hki.
  { destruct (decide (k <= DLIndex y)%nat) as [|Hgt]; [done|].
    pose proof (Habove k (Fin u) ltac:(lia) Hk) as Hf. simpl in Hf.
    assert (u <= res y) as Hur by (rewrite Heq; apply Qle_refl).
    apply Qle_bool_iff in Hur. congruence. }
  destruct (decide (k = DLIndex y)) as [->|Hne'].
  - assert (Fin u = Fin ui) as [= <-] by congruence.
    simpl. apply Qeq_bool_iff. by symmetry.
  - pose proof (sorted_lookup _ _ (limits_sorted data nd) k (DLIndex y)
                  (Fin u) (Fin ui) ltac:(lia) Hk Hlo) as Hlt.
    simpl in Hlt. apply Qltb_lt in Hlt. rewrite Heq in Hlt.
    exfalso. by apply (Qlt_not_le _ _ Hlt).
Qed.

(** A detected row lies in the interval of its limit. *)
Lemma detected_row_in_interval (c : list obs) (w : list indexed)
    (y : indexed) (lo : float64) :
  assign_DLIndex (cohn c) c = OK w -> y ∈ w ->
  limits c !! DLIndex y = Some lo ->
  fleb lo (Fin (res y)) = true /\
  fltb (Fin (res y)) (upper_at (limits c) (DLIndex y)) = true.
Proof.
  intros Hw Hy Hlo.
  assert (cohn c <> []) as Hne.
  { apply cohn_nonempty_ND. by eapply limits_ND. }
  destruct (assigned_row c w y Hw Hy Hne) as (Hin & (lo' & Hlo' & Hle) & Habove).
  assert (lo' = lo) as -> by congruence.
  split; [done|]. unfold upper_at.
  destruct (limits c !! (DLIndex y + 1)%nat) as [up|] eqn:Hup; [|done].
  pose proof (Habove (DLIndex y + 1)%nat up ltac:(lia) Hup) as Hf.
  destruct (limits_Fin c up) as [u ->]; [by eapply list_elem_of_lookup_2|].
  simpl in *. apply Qltb_lt. apply Qnot_le_lt. intros Hle'.
  apply Qle_bool_iff in Hle'. congruence.
Qed.

(** ** A raw rank never exceeds the size of its group *)

Lemma same_run_refl (r : indexed) : same_run r r = true.
Proof. unfold same_run. by rewrite Nat.eqb_refl, String.eqb_refl. Qed.

Lemma filter_take_length {T} (p : T -> bool) (l : list T) (m : nat) :
  (length (List.filter p (take m l)) <= length (List.filter p l))%nat.
Proof.
  rewrite <- (take_drop m l) at 2. rewrite List.filter_app, length_app. lia.
Qed.

Lemma filter_length_le_map {T U} (f : T -> U) (P : T -> bool) (Q : U -> bool)
    (l : list T) :
  (forall z, z ∈ l -> P z = true -> Q (f z) = true) ->
  (length (List.filter P l) <= length (List.filter Q (map f l)))%nat.
Proof.
  induction l as [|z l IH]; intros H; simpl; [done|].
  assert (length (List.filter P l) <= length (List.filter Q (map f l)))%nat as IH'.
  { apply IH. intros z' Hz'. apply H. by right. }
  destruct (P z) eqn:E.
  - rewrite (H z) by (done || left). simpl. lia.
  - destruct (Q (f z)); simpl; lia.
Qed.

Lemma rank_bound (w : list indexed) (N : nat) :
  NoDup (labels w) ->
  forall n r, w !! n = Some r ->
    exists (k : nat) (q : Q),
      norm_ranks w N !! n = Some (Fin q) /\
      q == inject_Z (Z.of_nat k) /\
      (1 <= k <= length (List.filter (same_run r) (take (S n) w)))%nat.
Proof.
  intros Hnd. destruct (norm_ranks_spec w N Hnd) as [_ Hrec].
  induction n as [|n IH]; intros r Hr.
  - exists 1%nat, 1. rewrite Hrec by (by eapply lookup_lt_Some).
    split; [done|]. split; [done|].
    destruct w as [|r0 w]; [done|]. injection Hr as ->.
    simpl. rewrite same_run_refl. simpl. lia.
  - pose proof (lookup_lt_Some _ _ _ Hr) as Hlt.
    destruct (lookup_lt_is_Some_2 w n) as [p Hp]; [lia|].
    destruct (IH p Hp) as (k & q & Hq & Eq & Hk).
    rewrite (take_S_r w (S n) r Hr), List.filter_app. simpl.
    rewrite same_run_refl, length_app. simpl.
    rewrite Hrec by done.
    destruct (starts_run w (S n)) eqn:E.
    + exists 1%nat, 1. split; [done|]. split; [done|]. lia.
    + exists (S k), (q + 1). replace (S n - 1)%nat with n by lia.
      rewrite nth_lookup, Hq. simpl. split; [done|]. split.
      * rewrite Eq. change 1 with (inject_Z 1). rewrite <- inject_Z_plus.
        f_equiv. lia.
      * unfold starts_run, iloc_DLIndex, iloc_qual in E.
        replace (S n - 1)%nat with n in E by lia.
        rewrite Hr, Hp in E. simpl in E.
        apply orb_false_iff in E as [E1 E2].
        apply negb_false_iff, Nat.eqb_eq in E1.
        apply negb_false_iff, String.eqb_eq in E2.
        assert (List.filter (same_run r) (take (S n) w) =
                List.filter (same_run p) (take (S n) w)) as ->.
        { apply List.filter_ext. intros x. unfold same_run. by rewrite E1, E2. }
        lia.
Qed.

(** The rank of a row of the ranked frame, as a count within the rows of
    its DLIndex and qualifier. *)
Lemma ranked_row_rank (w : list indexed) (N : nat) (x : ranked) :
  NoDup (labels w) -> x ∈ _ros_ranks w N ->
  ix x ∈ w /\
  exists (k : nat) (q : Q),
    Norm_Ranks x = Fin q /\ q == inject_Z (Z.of_nat k) /\
    (1 <= k <= length (List.filter (same_run (ix x)) w))%nat.
Proof.
  intros Hnd Hx. apply list_elem_of_lookup in Hx as [n Hn].
  apply ros_ranks_lookup in Hn as (Hw & Hnr & _).
  split; [by eapply list_elem_of_lookup_2|].
  destruct (rank_bound w N Hnd n (ix x) Hw) as (k & q & Hq & Eq & Hk).
  exists k, q. split; [congruence|]. split; [done|].
  pose proof (filter_take_length (same_run (ix x)) w (S n)). lia.
Qed.

(** The group of a censored row is counted in [C], that of a detected row
    in [A]. *)
Lemma censored_group_C (data : list obs) (nd : string) (w : list indexed)
    (y : indexed) (lo : float64) :
  let c := canonical data nd in
  assign_DLIndex (cohn c) c = OK w -> y ∈ w -> is_ND y = true ->
  limits c !! DLIndex y = Some lo ->
  (length (List.filter (same_run y) w) <= _C c lo)%nat.
Proof.
  intros c Hw Hy Hnd Hlo.
  destruct (assign_DLIndex_spec _ _ _ Hw) as [Hob _].
  unfold _C. rewrite filter_filter_length, <- Hob.
  apply filter_length_le_map. intros z Hz Hrun.
  unfold same_run in Hrun. apply andb_true_iff in Hrun as [Hd Hq].
  apply Nat.eqb_eq in Hd. apply String.eqb_eq in Hq.
  assert (is_ND z = true) as Hzn.
  { unfold is_ND in *. by rewrite Hq. }
  rewrite Hzn. simpl.
  apply (censored_row_at_limit data nd w z lo Hw Hz Hzn). by rewrite Hd.
Qed.

Lemma detected_group_A (c : list obs) (w : list indexed)
    (y : indexed) (lo : float64) :
  assign_DLIndex (cohn c) c = OK w -> y ∈ w -> is_ND y = false ->
  limits c !! DLIndex y = Some lo ->
  (length (List.filter (same_run y) w)
   <= _A c lo (upper_at (limits c) (DLIndex y)))%nat.
Proof.
  intros Hw Hy Hnd Hlo.
  destruct (assign_DLIndex_spec _ _ _ Hw) as [Hob _].
  assert (forall z, z ∈ w -> DLIndex z = DLIndex y ->
            fleb lo (Fin (res z)) = true /\
            fltb (Fin (res z)) (upper_at (limits c) (DLIndex y)) = true) as Hint.
  { intros z Hz Hd. rewrite <- Hd.
    apply (detected_row_in_interval c w z lo Hw Hz). by rewrite Hd. }
  set (up := upper_at (limits c) (DLIndex y)) in *. clearbody up.
  unfold _A. rewrite <- Hob.
  apply filter_length_le_map. intros z Hz Hrun.
  unfold same_run in Hrun. apply andb_true_iff in Hrun as [Hd Hq].
  apply Nat.eqb_eq in Hd. apply String.eqb_eq in Hq.
  assert (is_detect z = true) as Hzd.
  { unfold is_detect, is_ND in *. by rewrite Hq, Hnd. }
  rewrite Hzd, andb_true_r.
  destruct (Hint z Hz Hd) as [H1 H2]. by rewrite H1, H2.
Qed.

Lemma C_le_B (data : list obs) (lo : float64) : (_C data lo <= _B data lo)%nat.
Proof.
  unfold _C, _B. rewrite filter_filter_length.
  assert (length (List.filter (fun x => is_ND x && feqb (Fin (res x)) lo) data)
          <= length (List.filter (fun r => fleb (Fin (res r)) lo && is_ND r) data))%nat.
  { rewrite <- (map_id data) at 2. apply filter_length_le_map.
    intros z _ Hz. apply andb_true_iff in Hz as [-> Hz].
    by rewrite fleb_split, Hz, orb_true_r. }
  lia.
Qed.

(** ** Plotting positions lie strictly between 0 and 1 *)

Lemma pp_censored_range (p1 q : Q) (c : nat) :
  0 <= p1 -> p1 < 1 -> 1 <= q -> q <= inject_Z (Z.of_nat c) ->
  exists v,
    fdiv (fmul (fsub (Fin 1) (Fin p1)) (Fin q)) (fadd (of_nat c) (Fin 1)) = Fin v /\
    0 < v /\ v < 1.
Proof.
  intros H0 H1 Hq1 Hqc. unfold of_nat. simpl.
  pose proof (inject_nat_nonneg c) as Hc.
  destruct (Qeq_bool _ 0) eqn:E.
  { apply Qeq_bool_iff in E. lra. }
  eexists. split; [reflexivity|].
  set (n := inject_Z (Z.of_nat c)) in *. clearbody n. split.
  - apply Qlt_shift_div_l; [lra|]. nra.
  - apply Qlt_shift_div_r; [lra|]. nra.
Qed.

Lemma pp_detected_range (p1 p2 q : Q) (a : nat) :
  0 <= p2 -> p2 < p1 -> p1 <= 1 -> 1 <= q -> q <= inject_Z (Z.of_nat a) ->
  exists v,
    fadd (fsub (Fin 1) (Fin p1))
         (fdiv (fmul (fsub (Fin p1) (Fin p2)) (Fin q))
               (fadd (of_nat a) (Fin 1))) = Fin v /\
    0 < v /\ v < 1.
Proof.
  intros H0 H12 H1 Hq1 Hqa. unfold of_nat. simpl.
  pose proof (inject_nat_nonneg a) as Ha.
  destruct (Qeq_bool _ 0) eqn:E.
  { apply Qeq_bool_iff in E. lra. }
  eexists. split; [reflexivity|].
  set (n := inject_Z (Z.of_nat a)) in *. clearbody n.
  set (T := (p1 + - p2) * q / (n + 1)).
  assert (0 < T).
  { apply Qlt_shift_div_l; [lra|]. nra. }
  assert (T < p1 + - p2).
  { apply Qlt_shift_div_r; [lra|]. nra. }
  split; lra.
Qed.

Lemma plotting_pos_range (data : list obs) (nd : string) (w : list indexed)
    (N : nat) (x : ranked) (v : float64) :
  let c := canonical data nd in
  NoDup (map index data) ->
  assign_DLIndex (cohn c) c = OK w -> x ∈ _ros_ranks w N ->
  _ros_plotting_pos (compute_PE (cohn c)) x = OK v ->
  exists q, v = Fin q /\ 0 < q /\ q < 1.
Proof.
  intros c Hnd Hw Hx Hv.
  assert (NoDup (labels w)) as Hl.
  { eapply assign_DLIndex_NoDup; [|done]. by apply canonical_NoDup. }
  destruct (ranked_row_rank w N x Hl Hx) as (Hin & k & q & Hq & Eq & Hk).
  unfold _ros_plotting_pos in Hv.
  destruct (compute_PE (cohn c) !! DLIndex x) as [dl_1|] eqn:H1; [|done].
  destruct (compute_PE (cohn c) !! (DLIndex x + 1)%nat) as [dl_2|] eqn:H2; [|done].
  destruct (compute_PE_spec (cohn c)) as (Hlen & _).
  pose proof (lookup_lt_Some _ _ _ H2) as Hi. rewrite Hlen in Hi.
  destruct (PE_entry c (DLIndex x) dl_1 Hi H1)
    as (lo & d1 & Hlo & _ & _ & HA & HB & HC & Hd1 & HPE).
  assert (d1 = dl_2) as -> by congruence.
  destruct (PE_table c (length (cohn c) - (DLIndex x + 1) - 1)
              (DLIndex x + 1)%nat dl_2)
    as (p2 & Hp2 & Hp20 & _ & Hp21); [lia|done|].
  specialize (Hp21 ltac:(lia)).
  destruct (limit_counts c _ lo Hlo) as [Hab _].
  rewrite HA, HB, Hp2 in HPE. rewrite PE_step_value in HPE by done.
  destruct (ratio_bounds _ _ Hab) as (Hr0 & Hr1 & Hrlt & Hrpos).
  set (a := _A c lo (upper_at (limits c) (DLIndex x))) in *.
  set (b := _B c lo) in *.
  set (r := inject_Z (Z.of_nat a) / _) in *. clearbody r.
  assert (1 <= q) as Hq1.
  { rewrite Eq. change 1 with (inject_Z 1). rewrite <- Zle_Qle. lia. }
  change (DLIndex x) with (DLIndex (ix x)) in Hlo.
  rewrite HPE, Hp2, Hq in Hv.
  destruct (String.eqb (qual x) "ND") eqn:End.
  - pose proof (censored_group_C data nd w (ix x) lo Hw Hin End Hlo) as HC'.
    fold c in HC'. pose proof (C_le_B c lo) as HCB. fold b in HCB.
    specialize (Hrlt ltac:(lia)).
    rewrite HC in Hv. injection Hv as <-.
    apply pp_censored_range; [nra|nra|done|].
    rewrite Eq. rewrite <- Zle_Qle. lia.
  - pose proof (detected_group_A c w (ix x) lo Hw Hin End Hlo) as HA'.
    fold a in HA'. specialize (Hrpos ltac:(lia)).
    rewrite HA in Hv. injection Hv as <-.
    apply pp_detected_range; [done|nra|nra|done|].
    rewrite Eq. rewrite <- Zle_Qle. lia.
Qed.

(** ** The statements of the specification, on finite results *)

(** On the regression path the constructor returns, and the table it
    leaves satisfies the backward recursion at every entry but the last:
    [PE[i] = PE[i+1] + A[i] / (A[i] + B[i]) * (1 - PE[i+1])], from the
    second-to-last entry down to the first; the last entry, the appended
    one, has [PE = 0]. *)
Theorem backward_recursion
    (ppf np_log np_exp : float64 -> float64)
    (linregress : list float64 -> list float64 -> float64 * float64)
    (data : list obs) (ndsymbol : string) (fitlogs : bool) :
  valid data -> regression_path ndsymbol data ->
  exists o, __init__ ppf np_log np_exp linregress data ndsymbol fitlogs = OK o /\
    (forall i, (i + 1 < length (DLs o))%nat ->
       exists d d1, DLs o !! i = Some d /\ DLs o !! (i + 1)%nat = Some d1 /\
         PE d = fadd (PE d1)
                  (fmul (fdiv (A d) (fadd (A d) (B d))) (fsub (Fin 1) (PE d1)))) /\
    (exists s, last (DLs o) = Some s /\ PE s = Fin 0).
Proof.
  intros Hv Hp.
  destruct (run_regression ppf np_log np_exp linregress data ndsymbol fitlogs Hv Hp)
    as (w & pp & _ & _ & Hinit).
  eexists. split; [exact Hinit|]. simpl.
  set (t := cohn (canonical data ndsymbol)).
  destruct (compute_PE_spec t) as (Hlen & Hge & _ & Hrec).
  split.
  - intros i Hi. apply Hrec. lia.
  - exists nan_row. split; [|done].
    rewrite last_lookup, Hlen, Hge by lia.
    destruct (regression_path_branch ndsymbol data Hp) as [H0 _].
    destruct (cohn_struct (canonical data ndsymbol))
      as [[_ H]|(_ & real & Hc & _)].
    + apply cohn_nil_iff in H. done.
    + unfold t. rewrite Hc, length_app. simpl.
      rewrite lookup_app_r by lia.
      by replace (Init.Nat.pred (length real + 1) - length real)%nat with 0%nat by lia.
Qed.

(** The constructor returns on every valid data set, and every entry
    of its table but the appended one carries the Cohn counts of the
    specification, taken over the input: [A] the detected observations with
    value in [lower, upper), [B] the observations below [lower] plus the
    censored ones at [lower], [C] the censored observations at [lower]. *)
Theorem cohn_counts
    (ppf np_log np_exp : float64 -> float64)
    (linregress : list float64 -> list float64 -> float64 * float64)
    (data : list obs) (ndsymbol : string) (fitlogs : bool) :
  valid data ->
  exists o, __init__ ppf np_log np_exp linregress data ndsymbol fitlogs = OK o /\
    forall i d, (i + 1 < length (DLs o))%nat -> DLs o !! i = Some d ->
      A d = of_nat (spec_A ndsymbol data (lower d) (upper d)) /\
      B d = of_nat (spec_B ndsymbol data (lower d)) /\
      C d = of_nat (spec_C ndsymbol data (lower d)).
Proof.
  intros Hv.
  destruct (init_returns ppf np_log np_exp linregress data ndsymbol fitlogs Hv)
    as (w & e & _ & _ & Hinit).
  eexists. split; [exact Hinit|].
  destruct (run_table _ _ _ _ _ _ _ _ Hinit) as [Hlen Hrows].
  intros i d Hi Hd. destruct (Hrows i d Hd) as (d0 & Hd0 & ->).
  rewrite Hlen in Hi.
  destruct (cohn_real_row _ i d0 Hi Hd0) as (lo & _ & ->). simpl.
  by rewrite cohn_A_spec, cohn_B_spec, cohn_C_spec.
Qed.

(** With at least one censored observation and fewer than two detected
    ones, or a censored fraction above 0.8, the constructor returns without
    a fit, and the row of every input observation holds half its value when
    it is censored and its value when it is detected. *)
Theorem half_limit_fallback
    (ppf np_log np_exp : float64 -> float64)
    (linregress : list float64 -> list float64 -> float64 * float64)
    (input : list obs) (ndsymbol : string) (fitlogs : bool) :
  valid input -> fallback_path ndsymbol input ->
  exists o, __init__ ppf np_log np_exp linregress input ndsymbol fitlogs = OK o /\
    fit o = None /\
    length (data o) = length input /\
    forall x, x ∈ input ->
      exists r, r ∈ data o /\ f_index r = index x /\ f_res r = res x /\
        f_final_data r =
          if censored ndsymbol x then fmul (Fin (1 # 2)) (Fin (res x))
          else Fin (res x).
Proof.
  intros Hv Hp.
  destruct (run_fallback ppf np_log np_exp linregress input ndsymbol fitlogs Hv Hp)
    as (w & Hw & Hinit). cbv zeta in Hinit.
  eexists. split; [exact Hinit|]. split; [done|].
  pose proof (run_length _ _ _ _ _ _ _ _ Hinit) as Hlen.
  split. { simpl in *. by rewrite length_map. }
  intros x Hx.
  destruct (run_row_of _ _ _ _ _ _ _ _ x Hinit Hx) as (r & Hr & Hi & Hres & Hnd).
  exists (select_columns r). split.
  { simpl. by apply list_elem_of_In, in_map, list_elem_of_In. }
  split; [done|]. split; [done|]. simpl in Hr |- *.
  apply list_elem_of_In, in_map_iff in Hr as (k & <- & _). simpl in *.
  unfold _select_half_DLs. fold (is_ND k). by rewrite Hnd, Hres.
Qed.

(** On the fallback path nothing of the regression branch runs: the
    table is the one [cohn] built, every [PE] still 0, no fit is stored,
    and the frame is the ranked rows with the final_data column only, the
    plot_pos, Zprelim and modeled_data columns never assigned. *)
Theorem fallback_frame
    (ppf np_log np_exp : float64 -> float64)
    (linregress : list float64 -> list float64 -> float64 * float64)
    (input : list obs) (ndsymbol : string) (fitlogs : bool) :
  valid input -> fallback_path ndsymbol input ->
  exists o w, __init__ ppf np_log np_exp linregress input ndsymbol fitlogs = OK o /\
    DLs o = cohn (canonical input ndsymbol) /\
    (forall d, d ∈ DLs o -> PE d = Fin 0) /\
    fit o = None /\
    assign_DLIndex (cohn (canonical input ndsymbol)) (canonical input ndsymbol)
      = OK w /\
    map rk (debug o) = _ros_ranks w (length input) /\
    (forall r, r ∈ debug o ->
       plot_pos r = None /\ Zprelim r = None /\ modeled_data r = None).
Proof.
  intros Hv Hp.
  destruct (run_fallback ppf np_log np_exp linregress input ndsymbol fitlogs Hv Hp)
    as (w & Hw & Hinit). cbv zeta in Hinit.
  eexists. exists w. split; [exact Hinit|]. simpl.
  split; [done|]. split; [apply cohn_PE_zero|]. split; [done|]. split; [done|].
  split.
  - rewrite map_map. simpl. apply map_id.
  - intros r Hr. apply list_elem_of_In, in_map_iff in Hr as (k & <- & _). done.
Qed.

(** With no censored observation the constructor
    returns an empty table and no fit, never assigns the plot_pos, Zprelim
    and modeled_data columns, and gives every observation its own value as
    final value.  The DLIndex and rank columns are assigned all the same:
    DLIndex is 0 on every row and the raw rank is the position of the row
    in the sorted frame, counted from 1. *)
Theorem no_censored
    (ppf np_log np_exp : float64 -> float64)
    (linregress : list float64 -> list float64 -> float64 * float64)
    (input : list obs) (ndsymbol : string) (fitlogs : bool) :
  valid input -> n_censored ndsymbol input = 0%nat ->
  exists o, __init__ ppf np_log np_exp linregress input ndsymbol fitlogs = OK o /\
    DLs o = [] /\ fit o = None /\
    (forall r, r ∈ debug o ->
       plot_pos r = None /\ Zprelim r = None /\ modeled_data r = None /\
       DLIndex r = 0%nat /\ final_data r = Fin (res r)) /\
    (forall x, x ∈ input ->
       exists r, r ∈ data o /\ f_index r = index x /\
         f_final_data r = Fin (res x)) /\
    (forall n (r : estimated), debug o !! n = Some r ->
       exists q, Norm_Ranks r = Fin q /\ q == inject_Z (Z.of_nat (n + 1))).
Proof.
  intros Hv H0.
  destruct (run_no_censored ppf np_log np_exp linregress input ndsymbol fitlogs Hv H0)
    as (w & Hw & Hc & Hinit). cbv zeta in Hinit.
  eexists. split; [exact Hinit|]. split; [done|]. split; [done|].
  destruct (run_rows _ _ _ _ _ _ _ _ Hinit) as (w' & Hw' & Hl & Hob & Hrk).
  assert (w' = w) as -> by congruence.
  destruct (assign_DLIndex_spec _ _ _ Hw) as [_ Hidx]. rewrite Hc in Hidx.
  assert (Hrow : forall (n : nat) (k : ranked),
            _ros_ranks w (length input) !! n = Some k ->
            DLIndex k = 0%nat /\ qual k = "=").
  { intros n k Hk. apply ros_ranks_lookup in Hk as (Hk & _).
    assert (ix k ∈ w) as Hin by by eapply list_elem_of_lookup_2.
    split.
    - specialize (Hidx _ Hin). unfold _ros_DL_index in Hidx. simpl in Hidx.
      by injection Hidx.
    - assert (ob (ix k) ∈ canonical input ndsymbol) as Hcan.
      { rewrite <- Hob. by apply list_elem_of_In, in_map, list_elem_of_In. }
      destruct (canonical_qual _ _ _ Hcan) as [E|E]; [|done].
      exfalso. apply cohn_nil_iff in Hc.
      rewrite <- canonical_censored in Hc.
      pose proof (filter_length_pos is_ND _ _ Hcan) as Hpos.
      unfold is_ND in Hpos at 1. rewrite E in Hpos. specialize (Hpos eq_refl). lia. }
  split; [|split].
  - intros r Hr. simpl in Hr.
    apply list_elem_of_In, in_map_iff in Hr as (k & <- & Hk). simpl.
    apply list_elem_of_In, list_elem_of_lookup in Hk as [n Hn].
    destruct (Hrow n k Hn) as [-> _]. done.
  - intros x Hx.
    destruct (run_row_of _ _ _ _ _ _ _ _ x Hinit Hx) as (r & Hr & Hi & Hres & _).
    exists (select_columns r). split.
    { simpl. by apply list_elem_of_In, in_map, list_elem_of_In. }
    split; [done|]. simpl in Hr |- *.
    apply list_elem_of_In, in_map_iff in Hr as (k & <- & _). simpl in *.
    by rewrite Hres.
  - intros n r Hr.
    assert (_ros_ranks w (length input) !! n = Some (rk r)) as Hk.
    { rewrite <- Hrk, lookup_map, Hr. done. }
    pose proof (lookup_lt_Some _ _ _ Hk) as Hn.
    rewrite (ros_ranks_length w _ Hl) in Hn.
    destruct (single_run_ranks w (length input) Hl) with (n := n)
      as (q & Hq & Eq); [|done|].
    + intros m Hm. unfold starts_run, iloc_DLIndex, iloc_qual.
      destruct (lookup_lt_is_Some_2 (_ros_ranks w (length input)) m) as [k1 Hk1];
        [rewrite (ros_ranks_length w _ Hl); lia|].
      destruct (lookup_lt_is_Some_2 (_ros_ranks w (length input)) (m - 1)) as [k2 Hk2];
        [rewrite (ros_ranks_length w _ Hl); lia|].
      destruct (Hrow _ _ Hk1) as [D1 Q1]. destruct (Hrow _ _ Hk2) as [D2 Q2].
      apply ros_ranks_lookup in Hk1 as (-> & _).
      apply ros_ranks_lookup in Hk2 as (-> & _).
      rewrite D1, D2, Q1, Q2. by destruct m; [lia|].
    + exists q. split; [|done].
      apply ros_ranks_lookup in Hk as (_ & Hnr & _).
      change (Norm_Ranks r) with (Norm_Ranks (rk r)). congruence.
Qed.

(** In the frame the constructor returns, the raw rank of the first
    row is 1; the raw rank of any later row is the previous row's plus 1
    when both its DLIndex and its censoring status are the previous row's,
    and 1 otherwise.  The averaged rank of a censored row is its raw rank;
    that of a detected row is the mean of the raw ranks of the detected
    rows with its DLIndex and its value, so that two such tied rows have
    the same averaged rank. *)
Theorem rank_assignment
    (ppf np_log np_exp : float64 -> float64)
    (linregress : list float64 -> list float64 -> float64 * float64)
    (input : list obs) (ndsymbol : string) (fitlogs : bool) :
  valid input ->
  exists o, __init__ ppf np_log np_exp linregress input ndsymbol fitlogs = OK o /\
    (forall r : estimated, debug o !! 0%nat = Some r -> Norm_Ranks r = Fin 1) /\
    (forall (n : nat) (p r : estimated),
       debug o !! n = Some p -> debug o !! S n = Some r ->
       Norm_Ranks r =
         if (DLIndex r =? DLIndex p)%nat && Bool.eqb (is_ND r) (is_ND p)
         then fadd (Norm_Ranks p) (Fin 1) else Fin 1) /\
    (forall r : estimated, r ∈ debug o -> is_ND r = true ->
       Avg_Ranks r = Norm_Ranks r) /\
    (forall r : estimated, r ∈ debug o -> is_ND r = false ->
       Avg_Ranks r =
         mean (map (fun x : estimated => Norm_Ranks x)
                   (List.filter (fun x : estimated => tied_with r x) (debug o)))) /\
    (forall r1 r2 : estimated, r1 ∈ debug o -> r2 ∈ debug o ->
       is_ND r1 = false -> is_ND r2 = false ->
       DLIndex r1 = DLIndex r2 -> res r1 == res r2 ->
       Avg_Ranks r1 = Avg_Ranks r2).
Proof.
  intros Hv.
  destruct (init_returns ppf np_log np_exp linregress input ndsymbol fitlogs Hv)
    as (w0 & e & _ & _ & Hinit).
  eexists. split; [exact Hinit|].
  destruct (run_rows _ _ _ _ _ _ _ _ Hinit) as (w & Hw & Hl & Hob & Hrk).
  set (frame := debug _) in *. clearbody frame. clear Hinit e w0.
  set (R := _ros_ranks w (length input)) in *.
  assert (Hat : forall (n : nat) (r : estimated), frame !! n = Some r ->
            R !! n = Some (rk r)).
  { intros n r Hr. rewrite <- Hrk, lookup_map, Hr. done. }
  assert (Hin : forall r : estimated, r ∈ frame -> rk r ∈ R).
  { intros r [n Hn]%list_elem_of_lookup. eapply list_elem_of_lookup_2, Hat, Hn. }
  destruct (norm_ranks_spec w (length input) Hl) as [_ Hrec].
  assert (Havg : forall r : estimated, r ∈ frame -> is_ND r = false ->
            Avg_Ranks r =
              mean (map (fun x : estimated => Norm_Ranks x)
                      (List.filter (fun x : estimated => tied_with r x) frame))).
  { intros r Hr Hnd. rewrite (avgrank_rows w (length input) r (Hin r Hr)).
    change (is_ND (rk r)) with (is_ND r). rewrite Hnd.
    fold R. rewrite <- Hrk. by rewrite map_filter_map. }
  split; [|split; [|split; [|split]]].
  - intros r Hr. apply Hat, ros_ranks_lookup in Hr as (Hw0 & Hnr & _).
    rewrite Hrec in Hnr by (by eapply lookup_lt_Some). by injection Hnr.
  - intros n p r Hp Hr.
    apply Hat, ros_ranks_lookup in Hp as (Hwp & Hnp & _).
    apply Hat, ros_ranks_lookup in Hr as (Hwr & Hnr & _).
    rewrite Hrec in Hnr by (by eapply lookup_lt_Some).
    injection Hnr as <-.
    unfold starts_run, iloc_DLIndex, iloc_qual.
    rewrite ?Nat.sub_0_r. replace (S n - 1)%nat with n by lia.
    rewrite Hwp, Hwr, nth_lookup, Hnp. simpl.
    assert (Hq : forall x : indexed, x ∈ w -> qual x = "ND" \/ qual x = "=").
    { intros x Hx. apply (canonical_qual input ndsymbol). rewrite <- Hob.
      by apply list_elem_of_In, in_map, list_elem_of_In. }
    rewrite (standard_qual_eqb (ix (rk r)) (ix (rk p))).
    + change (is_ND (ix (rk r))) with (is_ND r).
      change (is_ND (ix (rk p))) with (is_ND p).
      by destruct (_ =? _)%nat, (Bool.eqb (is_ND r) (is_ND p)).
    + apply Hq. by eapply list_elem_of_lookup_2.
    + apply Hq. by eapply list_elem_of_lookup_2.
  - intros r Hr Hnd. rewrite (avgrank_rows w (length input) r (Hin r Hr)).
    change (is_ND (rk r)) with (is_ND r). by rewrite Hnd.
  - exact Havg.
  - intros r1 r2 H1 H2 N1 N2 Hd Hres.
    rewrite (Havg r1 H1 N1), (Havg r2 H2 N2). do 2 f_equal.
    apply List.filter_ext. intros x. by apply tied_with_ext.
Qed.

(** On the regression path every row of the frame
    has a plotting position, computed from the entry [i] of the table at
    its DLIndex (the last entry whose lower limit is at or below its value)
    and the entry [i + 1], with the row's raw rank for censored and for
    detected rows alike:
    [(1 - PE[i]) * rank / (C[i] + 1)] for a censored row,
    [(1 - PE[i]) + (PE[i] - PE[i+1]) * rank / (A[i] + 1)] for a detected one. *)
Theorem plotting_position
    (ppf np_log np_exp : float64 -> float64)
    (linregress : list float64 -> list float64 -> float64 * float64)
    (input : list obs) (ndsymbol : string) (fitlogs : bool) :
  valid input -> regression_path ndsymbol input ->
  exists o, __init__ ppf np_log np_exp linregress input ndsymbol fitlogs = OK o /\
    forall r : estimated, r ∈ debug o ->
      exists dl_1 dl_2,
        DLs o !! DLIndex r = Some dl_1 /\
        DLs o !! (DLIndex r + 1)%nat = Some dl_2 /\
        fleb (lower dl_1) (Fin (res r)) = true /\
        (forall j d, (DLIndex r < j)%nat -> DLs o !! j = Some d ->
           fleb (lower d) (Fin (res r)) = false) /\
        plot_pos r =
          Some (if is_ND r
                then fdiv (fmul (fsub (Fin 1) (PE dl_1)) (Norm_Ranks r))
                          (fadd (C dl_1) (Fin 1))
                else fadd (fsub (Fin 1) (PE dl_1))
                          (fdiv (fmul (fsub (PE dl_1) (PE dl_2)) (Norm_Ranks r))
                                (fadd (A dl_1) (Fin 1)))).
Proof.
  intros Hv Hp.
  destruct (run_regression ppf np_log np_exp linregress input ndsymbol fitlogs Hv Hp)
    as (w & pp & Hw & Hpp & Hinit). cbv zeta in Hinit.
  eexists. split; [exact Hinit|]. simpl.
  set (c := canonical input ndsymbol) in *. set (t := compute_PE (cohn c)) in *.
  destruct (regression_path_branch ndsymbol input Hp) as [H0 _].
  assert (cohn c <> []) as Hne.
  { intros H. by apply (cohn_nil_iff input ndsymbol) in H. }
  destruct (compute_PE_spec (cohn c)) as (_ & _ & Hsame & _). fold t in Hsame.
  intros r Hr.
  apply list_elem_of_In, in_map_iff in Hr as ([x [p z]] & <- & Hx). simpl.
  apply list_elem_of_In, list_elem_of_lookup in Hx as [n Hn].
  rewrite lookup_zip_with in Hn.
  destruct (_ros_ranks w (length input) !! n) as [x'|] eqn:Hx'; [|done].
  simpl in Hn. rewrite lookup_zip_with in Hn.
  destruct (pp !! n) as [p'|] eqn:Hp'; [|done]. simpl in Hn.
  destruct (map ppf pp !! n) as [z'|]; [|done]. simpl in Hn.
  injection Hn as -> -> ->.
  pose proof (apply_rows_Forall2 _ _ _ Hpp) as HF.
  pose proof (Forall2_lookup_lr _ _ _ _ _ _ HF Hx' Hp') as Hpos.
  unfold _ros_plotting_pos in Hpos.
  destruct (t !! DLIndex x) as [dl_1|] eqn:H1; [|done].
  destruct (t !! (DLIndex x + 1)%nat) as [dl_2|] eqn:H2; [|done].
  exists dl_1, dl_2. split; [done|]. split; [done|].
  apply ros_ranks_lookup in Hx' as (Hwx & _).
  destruct (assign_DLIndex_spec _ _ _ Hw) as [_ Hidx].
  assert (ix x ∈ w) as Hin by by eapply list_elem_of_lookup_2.
  destruct (DL_index_spec _ _ _ Hne (Hidx _ Hin)) as [(d0 & Hd0 & Hle) Habove].
  assert (Hlow : forall j d, t !! j = Some d ->
            exists d', cohn c !! j = Some d' /\ lower d = DL d').
  { intros j d Hd. destruct (Hsame j d Hd) as (d' & Hd' & ->).
    exists d'. split; [done|]. simpl. apply (cohn_lower_DL c).
    by eapply list_elem_of_lookup_2. }
  split; [|split].
  - destruct (Hlow _ _ H1) as (d' & Hd' & ->).
    change (DLIndex x) with (DLIndex (ix x)) in Hd'. congruence.
  - intros j d Hj Hd. destruct (Hlow _ _ Hd) as (d' & Hd' & ->).
    by eapply Habove.
  - unfold is_ND. destruct (String.eqb (qual x) "ND"); by injection Hpos as <-.
Qed.

(** What the code does when log-space fitting is switched off.  The
    line is fitted to the detected values themselves, and the final value
    of every censored row is still [np.exp(slope * Zprelim + intercept)]:
    the exponential is applied whatever [fitlogs] is.  Detected rows keep
    their value. *)
Theorem exp_without_logs
    (ppf np_log np_exp : float64 -> float64)
    (linregress : list float64 -> list float64 -> float64 * float64)
    (input : list obs) (ndsymbol : string) :
  valid input -> regression_path ndsymbol input ->
  exists o slope intercept,
    __init__ ppf np_log np_exp linregress input ndsymbol false = OK o /\
    fit o = Some (slope, intercept) /\
    (slope, intercept) =
      linregress
        (map (fun r : estimated => default NaN (Zprelim r))
             (List.filter (fun r : estimated => is_detect r) (debug o)))
        (map (fun r : estimated => Fin (res r))
             (List.filter (fun r : estimated => is_detect r) (debug o))) /\
    (forall r : estimated, r ∈ debug o -> is_ND r = true ->
       exists z, Zprelim r = Some z /\
         final_data r = np_exp (fadd (fmul slope z) intercept)) /\
    (forall r : estimated, r ∈ debug o -> is_ND r = false ->
       final_data r = Fin (res r)).
Proof.
  intros Hv Hp.
  destruct (run_regression ppf np_log np_exp linregress input ndsymbol false Hv Hp)
    as (w & pp & Hw & Hpp & Hinit). cbv zeta in Hinit.
  eexists. eexists. eexists. split; [exact Hinit|]. simpl.
  split; [apply f_equal, surjective_pairing|].
  split; [|split].
  - rewrite !map_filter_map. simpl. symmetry. apply surjective_pairing.
  - intros r Hr Hnd.
    apply list_elem_of_In, in_map_iff in Hr as ([x [p z]] & <- & _).
    simpl in *. exists z. split; [done|].
    unfold _select_final_data. fold (is_ND x). by rewrite Hnd.
  - intros r Hr Hnd.
    apply list_elem_of_In, in_map_iff in Hr as ([x [p z]] & <- & _).
    simpl in *. unfold _select_final_data. fold (is_ND x). by rewrite Hnd.
Qed.

(** In the table of every returning run each
    [PE] is a number of the closed interval [0, 1], below 1 at every entry
    but the first, and the [PE] of the last entry, the appended one, is 0. *)
Theorem PE_range
    (ppf np_log np_exp : float64 -> float64)
    (linregress : list float64 -> list float64 -> float64 * float64)
    (input : list obs) (ndsymbol : string) (fitlogs : bool) :
  valid input ->
  exists o, __init__ ppf np_log np_exp linregress input ndsymbol fitlogs = OK o /\
    (forall j d, DLs o !! j = Some d ->
       exists q, PE d = Fin q /\ 0 <= q /\ q <= 1 /\ ((1 <= j)%nat -> q < 1)) /\
    (forall s, last (DLs o) = Some s -> PE s = Fin 0).
Proof.
  intros Hv.
  destruct (init_returns ppf np_log np_exp linregress input ndsymbol fitlogs Hv)
    as (w & e & Hw & He & Hinit).
  eexists. split; [exact Hinit|]. simpl.
  set (c := canonical input ndsymbol) in *.
  assert (Hzero : forall j d, cohn c !! j = Some d ->
            exists q, PE d = Fin q /\ 0 <= q /\ q <= 1 /\ ((1 <= j)%nat -> q < 1)).
  { intros j d Hd. exists 0. rewrite (cohn_PE_zero c d).
    - repeat split; done.
    - by eapply list_elem_of_lookup_2. }
  assert (Hlast0 : forall s, last (cohn c) = Some s -> PE s = Fin 0).
  { intros s Hs. apply (cohn_PE_zero c). by apply last_Some_elem_of. }
  destruct (decide (count_nd ndsymbol input = 0%nat)) as [H0|H0].
  { rewrite estimator_no_censored in He by done. injection He as <-. done. }
  destruct (too_few_detects (length input) (count_nd ndsymbol input)) eqn:E.
  { rewrite estimator_half_DLs in He by done. injection He as <-. done. }
  rewrite estimator_regression in He by done.
  apply bind_OK in He as (pp & _ & [= <-]). simpl. fold c.
  destruct (compute_PE_spec (cohn c)) as (Hlen & Hge & _).
  split.
  - intros j d Hd. pose proof (lookup_lt_Some _ _ _ Hd) as Hj.
    apply (PE_table c (length (cohn c) - j - 1) j d); [lia|done].
  - intros s Hs. rewrite last_lookup, Hlen, Hge in Hs by lia.
    rewrite <- last_lookup in Hs. by apply Hlast0.
Qed.

(** The code has no degenerate-estimation error
    and no test for one; what holds is that the conditions never arise in
    a run of the constructor.  On every valid data set it returns; every
    entry of its table but the appended one has counts [A] and [B] with
    [A + B >= 1], so the recursion never divides by zero; and every
    plotting position it assigns is a number strictly between 0 and 1. *)
Theorem no_degenerate_run
    (ppf np_log np_exp : float64 -> float64)
    (linregress : list float64 -> list float64 -> float64 * float64)
    (input : list obs) (ndsymbol : string) (fitlogs : bool) :
  valid input ->
  exists o, __init__ ppf np_log np_exp linregress input ndsymbol fitlogs = OK o /\
    (forall j d, (j + 1 < length (DLs o))%nat -> DLs o !! j = Some d ->
       exists a b : nat, A d = of_nat a /\ B d = of_nat b /\ (1 <= a + b)%nat) /\
    (forall (r : estimated) (v : float64), r ∈ debug o -> plot_pos r = Some v ->
       exists q, v = Fin q /\ 0 < q /\ q < 1).
Proof.
  intros Hv.
  destruct (init_returns ppf np_log np_exp linregress input ndsymbol fitlogs Hv)
    as (w & e & Hw & He & Hinit).
  eexists. split; [exact Hinit|].
  destruct (run_table _ _ _ _ _ _ _ _ Hinit) as [Hlen Hrows].
  split.
  - intros j d Hj Hd. destruct (Hrows j d Hd) as (d0 & Hd0 & ->).
    rewrite Hlen in Hj.
    destruct (cohn_real_row _ j d0 Hj Hd0) as (lo & Hlo & ->).
    destruct (limit_counts _ j lo Hlo) as [Hab _].
    eexists _, _. split; [reflexivity|]. split; [reflexivity|]. exact Hab.
  - simpl. clear Hinit Hlen Hrows.
    destruct (decide (count_nd ndsymbol input = 0%nat)) as [H0|H0].
    { rewrite estimator_no_censored in He by done. injection He as <-.
      intros r v Hr. simpl in Hr.
      apply list_elem_of_In, in_map_iff in Hr as (k & <- & _). done. }
    destruct (too_few_detects (length input) (count_nd ndsymbol input)) eqn:E.
    { rewrite estimator_half_DLs in He by done. injection He as <-.
      intros r v Hr. simpl in Hr.
      apply list_elem_of_In, in_map_iff in Hr as (k & <- & _). done. }
    rewrite estimator_regression in He by done.
    apply bind_OK in He as (pp & Hpp & [= <-]).
    intros r v Hr Hpos. simpl in Hr, Hpp.
    apply list_elem_of_In, in_map_iff in Hr as ([x [p z]] & <- & Hx).
    simpl in Hpos. injection Hpos as ->.
    apply list_elem_of_In, list_elem_of_lookup in Hx as [n Hn].
    rewrite lookup_zip_with in Hn.
    destruct (_ros_ranks w (length input) !! n) as [x'|] eqn:Hx'; [|done].
    simpl in Hn. rewrite lookup_zip_with in Hn.
    destruct (pp !! n) as [p'|] eqn:Hp'; [|done]. simpl in Hn.
    destruct (map ppf pp !! n) as [z'|]; [|done]. simpl in Hn.
    injection Hn as -> -> ->.
    pose proof (apply_rows_Forall2 _ _ _ Hpp) as HF.
    pose proof (Forall2_lookup_lr _ _ _ _ _ _ HF Hx' Hp') as Hval.
    destruct Hv as [Hnd _].
    apply (plotting_pos_range input ndsymbol w (length input) x v Hnd Hw);
      [by eapply list_elem_of_lookup_2|done].
Qed.

(** ** Further properties, on finite results *)

(** ** rosSort *)

Lemma rosSort_split (dataframe : list obs) (ndsymbol : string) :
  exists nondetects detects,
    rosSort dataframe ndsymbol = nondetects ++ detects /\
    nondetects ++ detects ≡ₚ dataframe /\
    Forall (fun r => qual r = ndsymbol) nondetects /\
    Forall (fun r => qual r <> ndsymbol) detects /\
    StronglySorted (fun a b => res a <= res b) nondetects /\
    StronglySorted (fun a b => res a <= res b) detects.
Proof.
  eexists _, _. split; [reflexivity|]. split; [apply rosSort_perm|].
  split; [|split; [|split]]; try apply sort_res_sorted.
  - apply Forall_forall. intros r Hr. rewrite sort_res_perm in Hr.
    apply list_elem_of_In, filter_In in Hr as [_ Hr]. by apply String.eqb_eq.
  - apply Forall_forall. intros r Hr. rewrite sort_res_perm in Hr.
    apply list_elem_of_In, filter_In in Hr as [_ Hr].
    apply negb_true_iff in Hr. by apply String.eqb_neq.
Qed.

(** ** The order of the returned frame *)

Section FrameOrder.
Variable ppf : float64 -> float64.
Variable np_log np_exp : float64 -> float64.
Variable linregress : list float64 -> list float64 -> float64 * float64.

(** The observations of the frame are the sorted input. *)
Lemma run_canonical (input : list obs) (nd : string) (fl : bool) (o : MR) :
  __init__ ppf np_log np_exp linregress input nd fl = OK o ->
  map (fun r : estimated => ob (ix (rk r))) (debug o) = canonical input nd.
Proof.
  intros H. destruct (run_rows _ _ _ _ input nd fl o H) as (w & _ & Hl & Hob & Hrk).
  rewrite <- Hob, <- (ros_ranks_ix w (length input) Hl), <- Hrk.
  by rewrite !map_map.
Qed.

Lemma run_canonical_lookup (input : list obs) (nd : string) (fl : bool) (o : MR)
    (n : nat) (r : estimated) :
  __init__ ppf np_log np_exp linregress input nd fl = OK o ->
  debug o !! n = Some r -> canonical input nd !! n = Some (ob (ix (rk r))).
Proof.
  intros H Hr. rewrite <- (run_canonical input nd fl o H), lookup_map, Hr. done.
Qed.
End FrameOrder.

Lemma standardize_qual (nd : string) (x : obs) :
  qual (standardize nd x) = "ND" \/ qual (standardize nd x) = "=".
Proof. unfold standardize. simpl. destruct (String.eqb (qual x) nd); auto. Qed.

(** With the symbol 'ND' the frame is the censored rows, ascending,
    followed by the detected rows, ascending. *)
Lemma canonical_ND_split (input : list obs) :
  exists nondetects detects,
    canonical input "ND" = nondetects ++ detects /\
    Forall (fun r => is_ND r = true) nondetects /\
    Forall (fun r => is_ND r = false) detects /\
    StronglySorted (fun a b => res a <= res b) nondetects /\
    StronglySorted (fun a b => res a <= res b) detects /\
    length nondetects = count_nd "ND" input.
Proof.
  destruct (rosSort_split (map (standardize "ND") input) "ND")
    as (l1 & l2 & E & Hp & H1 & H2 & S1 & S2).
  exists l1, l2. unfold canonical. split; [done|].
  split; [|split; [|split; [done|split; [done|]]]].
  - eapply Forall_impl; [exact H1|]. intros r Hr. by apply String.eqb_eq.
  - eapply Forall_impl; [exact H2|]. intros r Hr. by apply String.eqb_neq.
  - rewrite <- canonical_censored. unfold canonical. rewrite E, List.filter_app.
    rewrite (filter_none is_ND l2).
    + rewrite app_nil_r.
      assert (List.filter is_ND l1 = l1) as ->; [|done].
      clear -H1. induction H1 as [|r l Hr _ IH]; simpl; [done|].
      unfold is_ND at 1. rewrite Hr. simpl. by rewrite IH.
    + intros r Hr. rewrite Forall_forall in H2.
      by apply String.eqb_neq, H2.
Qed.

(** With a symbol other than 'ND' and '=', no standardised qualifier
    equals the symbol [rosSort] is handed, and the frame is one ascending
    run of all the rows. *)
Lemma canonical_other_symbol (input : list obs) (nd : string) :
  nd <> "ND" -> nd <> "=" ->
  StronglySorted (fun a b => res a <= res b) (canonical input nd).
Proof.
  intros H1 H2. unfold canonical, rosSort.
  rewrite (filter_none (fun r => String.eqb (qual r) nd)).
  - simpl. apply sort_res_sorted.
  - intros r Hr. apply list_elem_of_In, in_map_iff in Hr as (x & <- & _).
    apply String.eqb_neq. by destruct (standardize_qual nd x) as [-> | ->].
Qed.

(** With the symbol 'ND' the frame the constructor returns has its
    [N_nd] censored rows first and its detected rows after them, and within
    each of the two groups the results ascend. *)
Theorem frame_censored_first
    (ppf np_log np_exp : float64 -> float64)
    (linregress : list float64 -> list float64 -> float64 * float64)
    (input : list obs) (fitlogs : bool) :
  valid input ->
  exists o, __init__ ppf np_log np_exp linregress input "ND" fitlogs = OK o /\
    (forall (n : nat) (r : estimated), debug o !! n = Some r ->
       (is_ND r = true <-> (n < N_nd o)%nat)) /\
    (forall (m n : nat) (r1 r2 : estimated), (m < n)%nat ->
       debug o !! m = Some r1 -> debug o !! n = Some r2 ->
       is_ND r1 = is_ND r2 -> res r1 <= res r2).
Proof.
  intros Hv.
  destruct (init_returns ppf np_log np_exp linregress input "ND" fitlogs Hv)
    as (w & e & _ & _ & Hinit).
  eexists. split; [exact Hinit|].
  pose proof (fun n r => run_canonical_lookup ppf np_log np_exp linregress
                          input "ND" fitlogs _ n r Hinit) as Hlook.
  set (frame := debug _) in *. clearbody frame. simpl. clear Hinit e w.
  destruct (canonical_ND_split input) as (l1 & l2 & E & H1 & H2 & S1 & S2 & Hlen).
  rewrite Forall_forall in H1, H2. rewrite <- Hlen.
  assert (Hside : forall (n : nat) (r : estimated), frame !! n = Some r ->
            ((n < length l1)%nat /\ l1 !! n = Some (ob (ix (rk r))) /\ is_ND r = true) \/
            ((length l1 <= n)%nat /\ l2 !! (n - length l1)%nat = Some (ob (ix (rk r)))
             /\ is_ND r = false)).
  { intros n r Hr. apply Hlook in Hr. rewrite E in Hr.
    destruct (decide (n < length l1)%nat) as [Hn|Hn].
    - left. rewrite lookup_app_l in Hr by done. split; [done|]. split; [done|].
      apply H1. by eapply list_elem_of_lookup_2.
    - right. rewrite lookup_app_r in Hr by lia. split; [lia|]. split; [done|].
      apply H2. by eapply list_elem_of_lookup_2. }
  split.
  - intros n r Hr. destruct (Hside n r Hr) as [(Hn & _ & Hnd)|(Hn & _ & Hnd)];
      rewrite Hnd; split; try done; lia.
  - intros m n r1 r2 Hmn Hr1 Hr2 Hsame.
    destruct (Hside m r1 Hr1) as [(Hm & L1 & N1)|(Hm & L1 & N1)];
      destruct (Hside n r2 Hr2) as [(Hn & L2 & N2)|(Hn & L2 & N2)];
      try congruence.
    + apply (sorted_lookup _ _ S1 m n _ _ Hmn L1 L2).
    + apply (sorted_lookup _ _ S2 (m - length l1) (n - length l1) _ _
               ltac:(lia) L1 L2).
Qed.

(** With a non-detect symbol other than 'ND' and '=' the qualifiers
    are standardised before [rosSort] is called with the caller's symbol,
    which no row carries any more: the frame the constructor returns is all
    the rows in one ascending order of result, the censored rows not moved
    to the top. *)
Theorem frame_other_symbol
    (ppf np_log np_exp : float64 -> float64)
    (linregress : list float64 -> list float64 -> float64 * float64)
    (input : list obs) (ndsymbol : string) (fitlogs : bool) :
  valid input -> ndsymbol <> "ND" -> ndsymbol <> "=" ->
  exists o, __init__ ppf np_log np_exp linregress input ndsymbol fitlogs = OK o /\
    forall (m n : nat) (r1 r2 : estimated), (m < n)%nat ->
      debug o !! m = Some r1 -> debug o !! n = Some r2 -> res r1 <= res r2.
Proof.
  intros Hv H1 H2.
  destruct (init_returns ppf np_log np_exp linregress input ndsymbol fitlogs Hv)
    as (w & e & _ & _ & Hinit).
  eexists. split; [exact Hinit|].
  intros m n r1 r2 Hmn Hr1 Hr2.
  apply (run_canonical_lookup _ _ _ _ _ _ _ _ _ _ Hinit) in Hr1, Hr2.
  apply (sorted_lookup _ _ (canonical_other_symbol input ndsymbol H1 H2)
           m n _ _ Hmn Hr1 Hr2).
Qed.

(** ** The table and the rows, in the returned object *)

(** Every limit is a result of the data. *)
Lemma limits_result (data : list obs) (i : nat) (lo : float64) :
  limits data !! i = Some lo -> exists r, r ∈ data /\ lo = Fin (res r).
Proof.
  unfold limits, cohn_limits.
  set (uniq := unique (map res (List.filter is_ND data))).
  assert (Htail : forall j, map Fin uniq !! j = Some lo ->
            exists r, r ∈ data /\ lo = Fin (res r)).
  { intros j H. rewrite lookup_map in H.
    destruct (uniq !! j) as [u|] eqn:Hj; [|done]. injection H as <-.
    apply list_elem_of_lookup_2, unique_subset in Hj.
    apply list_elem_of_In, in_map_iff in Hj as (r & <- & Hr).
    apply filter_In in Hr as [Hr _]. exists r. split; [|done].
    by apply list_elem_of_In. }
  destruct (fltb (series_min (map res data)) (series_min uniq)) eqn:E;
    [|by apply Htail].
  destruct i as [|i]; [|by apply Htail].
  intros [= <-].
  destruct (series_min_spec (map res data)) as (m & Hm & Hin & _).
  { intros H. rewrite H in E. done. }
  apply list_elem_of_In, in_map_iff in Hin as (r & <- & Hr).
  exists r. split; [by apply list_elem_of_In|done].
Qed.

Lemma limits_tail (data : list obs) (i : nat) (lo : float64) :
  limits data !! i = Some lo ->
  (exists u, u ∈ unique (map res (List.filter is_ND data)) /\ lo = Fin u) \/
  (i = 0%nat /\ _B data lo = 0%nat /\
   forall r, r ∈ data -> fleb lo (Fin (res r)) = true).
Proof.
  unfold limits, cohn_limits.
  set (uniq := unique (map res (List.filter is_ND data))).
  destruct (fltb (series_min (map res data)) (series_min uniq)) eqn:E.
  - destruct (stacked_limit_A data uniq eq_refl E)
      as (m & u0 & us & Hm & Hu & Hall & _ & HB).
    rewrite Hm. destruct i as [|i].
    + intros [= <-]. right. split; [done|]. split; [done|].
      intros r Hr. simpl. by apply Qle_bool_iff, Hall.
    + intros H. change (map Fin uniq !! i = Some lo) in H.
      rewrite lookup_map in H. destruct (uniq !! i) as [u|] eqn:Hi; [|done].
      injection H as <-. left. exists u. split; [|done].
      by eapply list_elem_of_lookup_2.
  - intros H. rewrite lookup_map in H.
    destruct (uniq !! i) as [u|] eqn:Hi; [|done]. injection H as <-.
    left. exists u. split; [|done]. by eapply list_elem_of_lookup_2.
Qed.

Lemma canonical_censored_row (input : list obs) (nd : string) (r : obs) :
  r ∈ canonical input nd -> is_ND r = true ->
  exists x, x ∈ input /\ censored nd x = true /\ res x = res r.
Proof.
  rewrite canonical_perm. intros Hr Hnd.
  apply list_elem_of_In, in_map_iff in Hr as (x & <- & Hx).
  exists x. split; [by apply list_elem_of_In|].
  rewrite is_ND_standardize in Hnd. done.
Qed.

Section Object.
Variable ppf : float64 -> float64.
Variable np_log np_exp : float64 -> float64.
Variable linregress : list float64 -> list float64 -> float64 * float64.

Lemma run_table_row (input : list obs) (nd : string) (fl : bool) (o : MR)
    (i : nat) (d0 : dlrow) :
  __init__ ppf np_log np_exp linregress input nd fl = OK o ->
  cohn (canonical input nd) !! i = Some d0 ->
  exists d, DLs o !! i = Some d /\ d = set_PE d0 (PE d).
Proof.
  intros H Hd0. destruct (run_table _ _ _ _ _ _ _ _ H) as [Hlen Hrows].
  destruct (lookup_lt_is_Some_2 (DLs o) i) as [d Hd].
  { rewrite Hlen. by eapply lookup_lt_Some. }
  destruct (Hrows i d Hd) as (d0' & Hd0' & E).
  exists d. split; [done|]. congruence.
Qed.

(** An entry of the returned table before the appended one, read through
    the limits. *)
Lemma run_entry (input : list obs) (nd : string) (fl : bool) (o : MR)
    (i : nat) (d : dlrow) :
  let c := canonical input nd in
  __init__ ppf np_log np_exp linregress input nd fl = OK o ->
  (i + 1 < length (DLs o))%nat -> DLs o !! i = Some d ->
  exists lo, limits c !! i = Some lo /\
    DL d = lo /\ lower d = lo /\ upper d = upper_at (limits c) i /\
    A d = of_nat (_A c lo (upper_at (limits c) i)) /\
    B d = of_nat (_B c lo) /\ C d = of_nat (_C c lo).
Proof.
  intros c H Hi Hd. destruct (run_table _ _ _ _ _ _ _ _ H) as [Hlen Hrows].
  destruct (Hrows i d Hd) as (d0 & Hd0 & ->). rewrite Hlen in Hi.
  destruct (cohn_real_row _ i d0 Hi Hd0) as (lo & Hlo & ->).
  exists lo. done.
Qed.

(** The entry of the returned table at a limit. *)
Lemma run_entry_at (input : list obs) (nd : string) (fl : bool) (o : MR)
    (i : nat) (lo : float64) :
  let c := canonical input nd in
  __init__ ppf np_log np_exp linregress input nd fl = OK o ->
  limits c !! i = Some lo ->
  (i + 1 < length (DLs o))%nat /\
  exists d, DLs o !! i = Some d /\
    DL d = lo /\ lower d = lo /\ upper d = upper_at (limits c) i /\
    A d = of_nat (_A c lo (upper_at (limits c) i)) /\
    B d = of_nat (_B c lo) /\ C d = of_nat (_C c lo).
Proof.
  intros c H Hlo. destruct (cohn_DL_at c i lo Hlo) as [Hi Hrow].
  destruct (run_table _ _ _ _ _ _ _ _ H) as [Hlen _].
  split; [by rewrite Hlen|].
  destruct (run_table_row _ _ _ _ _ _ H Hrow) as (d & Hd & E).
  exists d. split; [done|]. rewrite E. done.
Qed.

(** A row of the returned frame, when the table is not empty: its row
    before the ranks, and the limit at its DLIndex. *)
Lemma run_row_limit (input : list obs) (nd : string) (fl : bool) (o : MR)
    (r : estimated) :
  let c := canonical input nd in
  __init__ ppf np_log np_exp linregress input nd fl = OK o ->
  r ∈ debug o -> (0 < n_censored nd input)%nat ->
  exists w lo,
    assign_DLIndex (cohn c) c = OK w /\ NoDup (labels w) /\
    rk r ∈ _ros_ranks w (length input) /\ ix (rk r) ∈ w /\
    limits c !! DLIndex r = Some lo /\ fleb lo (Fin (res r)) = true.
Proof.
  intros c H Hr Hc.
  destruct (run_rows _ _ _ _ input nd fl o H) as (w & Hw & Hl & Hob & Hrk).
  exists w.
  assert (rk r ∈ _ros_ranks w (length input)) as Hin.
  { rewrite <- Hrk. by apply list_elem_of_In, in_map, list_elem_of_In. }
  destruct (ranked_row_rank w _ _ Hl Hin) as [Hw' _].
  assert (cohn c <> []) as Hne.
  { intros E. apply (cohn_nil_iff input nd) in E.
    change (count_nd nd input) with (n_censored nd input) in E. lia. }
  destruct (assigned_row c w _ Hw Hw' Hne) as (_ & (lo & Hlo & Hle) & _).
  exists lo. done.
Qed.
End Object.

Lemma limits_member (data : list obs) (u : Q) :
  u ∈ unique (map res (List.filter is_ND data)) -> Fin u ∈ limits data.
Proof.
  intros Hu. unfold limits, cohn_limits.
  destruct (fltb _ _); [right|]; by apply list_elem_of_In, in_map, list_elem_of_In.
Qed.

Lemma limits_cohn_length (data : list obs) :
  cohn data <> [] -> length (cohn data) = (length (limits data) + 1)%nat.
Proof.
  intros Hne.
  destruct (cohn_struct data) as [[_ H]|(_ & real & Hc & Hlen & _)]; [done|].
  rewrite Hc, length_app, Hlen. done.
Qed.

Lemma cohn_last (data : list obs) (s : dlrow) :
  last (cohn data) = Some s -> s = nan_row.
Proof.
  destruct (cohn_struct data) as [[_ H]|(_ & real & Hc & _)].
  - by rewrite H.
  - rewrite Hc, last_snoc. congruence.
Qed.

Section Table.
Variable ppf : float64 -> float64.
Variable np_log np_exp : float64 -> float64.
Variable linregress : list float64 -> list float64 -> float64 * float64.

Lemma run_last (input : list obs) (nd : string) (fl : bool) (o : MR) (s : dlrow) :
  __init__ ppf np_log np_exp linregress input nd fl = OK o ->
  last (DLs o) = Some s -> s = nan_row.
Proof.
  intros H Hs. destruct (run_table _ _ _ _ _ _ _ _ H) as [Hlen Hrows].
  apply init_OK in H as (_ & _ & w & e & _ & He & ->). simpl in *.
  set (c := canonical input nd) in *.
  assert (est_DLs e = cohn c \/ est_DLs e = compute_PE (cohn c)) as [E|E].
  { destruct (decide (count_nd nd input = 0%nat)) as [H0|H0].
    { rewrite estimator_no_censored in He by done. injection He as <-. by left. }
    destruct (too_few_detects (length input) (count_nd nd input)) eqn:E.
    { rewrite estimator_half_DLs in He by done. injection He as <-. by left. }
    rewrite estimator_regression in He by done.
    apply bind_OK in He as (pp & _ & [= <-]). by right. }
  - rewrite E in Hs. by apply (cohn_last c).
  - rewrite E in Hs. destruct (compute_PE_spec (cohn c)) as (L & Hge & _).
    rewrite last_lookup, L, Hge in Hs by lia. rewrite <- last_lookup in Hs.
    by apply (cohn_last c).
Qed.

(** The entries of the returned table before the appended row have
    finite, strictly increasing lower limits; each one's DL is its lower
    limit and its upper limit is the next entry's lower limit, infinity for
    the last of them.  The appended row holds NaN in every column but PE,
    which is 0. *)
Theorem table_intervals
    (input : list obs) (ndsymbol : string) (fitlogs : bool) :
  valid input ->
  exists o, __init__ ppf np_log np_exp linregress input ndsymbol fitlogs = OK o /\
    (forall i d, (i + 1 < length (DLs o))%nat -> DLs o !! i = Some d ->
       exists lo, DL d = Fin lo /\ lower d = Fin lo /\
         (((i + 2)%nat = length (DLs o) /\ upper d = PInf) \/
          (exists d' lo', (i + 2 < length (DLs o))%nat /\
             DLs o !! (i + 1)%nat = Some d' /\ lower d' = Fin lo' /\
             upper d = Fin lo' /\ lo < lo'))) /\
    (forall s, last (DLs o) = Some s -> s = nan_row).
Proof.
  intros Hv.
  destruct (init_returns ppf np_log np_exp linregress input ndsymbol fitlogs Hv)
    as (w & e & _ & _ & Hinit).
  eexists. split; [exact Hinit|].
  split; [|intros s; by apply (run_last _ _ _ _ _ Hinit)].
  intros i d Hi Hd.
  destruct (run_entry _ _ _ _ _ _ _ _ _ _ Hinit Hi Hd)
    as (lo & Hlo & HDL & Hlow & Hup & _).
  set (c := canonical input ndsymbol) in *.
  destruct (limits_Fin c lo) as [q ->]; [by eapply list_elem_of_lookup_2|].
  exists q. split; [done|]. split; [done|].
  destruct (run_table _ _ _ _ _ _ _ _ Hinit) as [Hlen _].
  unfold upper_at in Hup.
  destruct (limits c !! (i + 1)%nat) as [up|] eqn:Hnext.
  - right.
    destruct (run_entry_at _ _ _ _ _ _ _ _ _ _ Hinit Hnext)
      as (Hi' & d' & Hd' & _ & Hlow' & _).
    destruct (limits_Fin c up) as [q' ->]; [by eapply list_elem_of_lookup_2|].
    exists d', q'. split; [lia|]. split; [done|]. split; [done|]. split; [done|].
    pose proof (sorted_lookup _ _ (limits_sorted input ndsymbol) i (i + 1)
                  (Fin q) (Fin q') ltac:(lia) Hlo Hnext) as Hlt.
    by apply Qltb_lt.
  - left. split; [|done]. apply lookup_ge_None in Hnext.
    apply lookup_lt_Some in Hlo.
    rewrite Hlen, limits_cohn_length.
    + fold c. lia.
    + intros E. rewrite E in Hlen. simpl in Hlen, Hi. lia.
Qed.

(** Every censored value of the input is the lower limit of an entry
    of the returned table, whose [C] counts it.  Conversely the lower limit
    of an entry is a censored value, except that the first entry may be the
    smallest result of the data, below every censored value, with [B = 0]. *)
Theorem limits_are_censored_values
    (input : list obs) (ndsymbol : string) (fitlogs : bool) :
  valid input ->
  exists o, __init__ ppf np_log np_exp linregress input ndsymbol fitlogs = OK o /\
    (forall x, x ∈ input -> censored ndsymbol x = true ->
       exists i d (c : nat), (i + 1 < length (DLs o))%nat /\
         DLs o !! i = Some d /\ feqb (Fin (res x)) (lower d) = true /\
         C d = of_nat c /\ (1 <= c)%nat) /\
    (forall i d, (i + 1 < length (DLs o))%nat -> DLs o !! i = Some d ->
       (exists x, x ∈ input /\ censored ndsymbol x = true /\
          lower d = Fin (res x)) \/
       (i = 0%nat /\ B d = of_nat 0 /\
        (exists x, x ∈ input /\ lower d = Fin (res x)) /\
        forall x, x ∈ input -> fleb (lower d) (Fin (res x)) = true)).
Proof.
  intros Hv.
  destruct (init_returns ppf np_log np_exp linregress input ndsymbol fitlogs Hv)
    as (w & e & _ & _ & Hinit).
  eexists. split; [exact Hinit|].
  set (c := canonical input ndsymbol).
  split.
  - intros x Hx Hcens.
    assert (standardize ndsymbol x ∈ c) as Hin.
    { unfold c. rewrite canonical_perm.
      by apply list_elem_of_In, in_map, list_elem_of_In. }
    assert (is_ND (standardize ndsymbol x) = true) as Hnd.
    { by rewrite is_ND_standardize. }
    destruct (unique_complete (map res (List.filter is_ND c)) (res x))
      as (u & Hu & Heq).
    { apply list_elem_of_In.
      change (res x) with (res (standardize ndsymbol x)).
      apply in_map, filter_In. by rewrite <- list_elem_of_In. }
    pose proof (limits_member c u Hu) as Hl.
    apply list_elem_of_lookup in Hl as [k Hk].
    destruct (run_entry_at _ _ _ _ _ _ _ _ _ _ Hinit Hk)
      as (Hi & d & Hd & _ & Hlow & _ & _ & _ & HC).
    exists k, d, (_C c (Fin u)). split; [done|]. split; [done|].
    assert (Qeq_bool (res x) u = true) as Hxu.
    { apply Qeq_bool_iff. by symmetry. }
    split; [by rewrite Hlow|]. split; [done|].
    unfold _C. apply (filter_length_pos _ _ (standardize ndsymbol x)); [|exact Hxu].
    apply list_elem_of_In, filter_In. by rewrite <- list_elem_of_In.
  - intros i d Hi Hd.
    destruct (run_entry _ _ _ _ _ _ _ _ _ _ Hinit Hi Hd)
      as (lo & Hlo & _ & Hlow & _ & _ & HB & _).
    fold c in Hlo, HB.
    destruct (limits_tail c i lo Hlo) as [(u & Hu & ->)|(-> & HB0 & Hall)].
    + left. destruct (censored_value_row c u Hu) as (r & Hr & Hnd & <-).
      destruct (canonical_censored_row input ndsymbol r Hr Hnd)
        as (x & Hx & Hcens & Hres).
      exists x. split; [done|]. split; [done|]. by rewrite Hlow, Hres.
    + right. split; [done|]. split; [by rewrite HB, HB0|]. split.
      { destruct (limits_result c 0 lo Hlo) as (r & Hr & ->).
        unfold c in Hr. rewrite canonical_perm in Hr.
        apply list_elem_of_In, in_map_iff in Hr as (x & <- & Hx).
        exists x. split; [by apply list_elem_of_In|]. by rewrite Hlow. }
      intros x Hx. rewrite Hlow.
      change (res x) with (res (standardize ndsymbol x)). apply Hall.
      unfold c. rewrite canonical_perm.
      by apply list_elem_of_In, in_map, list_elem_of_In.
Qed.
End Table.

(** ** Each row against the entry at its DLIndex *)

Section Rows.
Variable ppf : float64 -> float64.
Variable np_log np_exp : float64 -> float64.
Variable linregress : list float64 -> list float64 -> float64 * float64.

(** When the data has a censored observation, the DLIndex of every
    row of the returned frame points at an entry of the table before the
    appended one, and the row's value lies in that entry's interval:
    at or above its lower limit and below its upper limit. *)
Theorem DLIndex_interval
    (input : list obs) (ndsymbol : string) (fitlogs : bool) :
  valid input -> (0 < n_censored ndsymbol input)%nat ->
  exists o, __init__ ppf np_log np_exp linregress input ndsymbol fitlogs = OK o /\
    forall r : estimated, r ∈ debug o ->
      exists d, (DLIndex r + 1 < length (DLs o))%nat /\
        DLs o !! DLIndex r = Some d /\
        fleb (lower d) (Fin (res r)) = true /\
        fltb (Fin (res r)) (upper d) = true.
Proof.
  intros Hv Hc.
  destruct (init_returns ppf np_log np_exp linregress input ndsymbol fitlogs Hv)
    as (w0 & e & _ & _ & Hinit).
  eexists. split; [exact Hinit|]. intros r Hr.
  destruct (run_row_limit _ _ _ _ _ _ _ _ r Hinit Hr Hc)
    as (w & lo & Hw & Hl & Hin & Hin' & Hlo & Hle).
  destruct (run_entry_at _ _ _ _ _ _ _ _ _ _ Hinit Hlo)
    as (Hi & d & Hd & _ & Hlow & Hup & _).
  exists d. split; [done|]. split; [done|].
  destruct (detected_row_in_interval _ w (ix (rk r)) lo Hw Hin' Hlo) as [H1 H2].
  rewrite Hlow, Hup. done.
Qed.

(** A censored row of the returned frame sits exactly at the lower
    limit of the entry at its DLIndex. *)
Theorem censored_at_limit
    (input : list obs) (ndsymbol : string) (fitlogs : bool) :
  valid input ->
  exists o, __init__ ppf np_log np_exp linregress input ndsymbol fitlogs = OK o /\
    forall r : estimated, r ∈ debug o -> is_ND r = true ->
      exists d, DLs o !! DLIndex r = Some d /\
        feqb (Fin (res r)) (lower d) = true.
Proof.
  intros Hv.
  destruct (init_returns ppf np_log np_exp linregress input ndsymbol fitlogs Hv)
    as (w0 & e & _ & _ & Hinit).
  eexists. split; [exact Hinit|]. intros r Hr Hnd.
  assert (0 < n_censored ndsymbol input)%nat as Hc.
  { change (n_censored ndsymbol input) with (count_nd ndsymbol input).
    rewrite <- canonical_censored.
    apply (filter_length_pos is_ND _ (ob (ix (rk r)))); [|done].
    rewrite <- (run_canonical _ _ _ _ _ _ _ _ Hinit).
    apply list_elem_of_In.
    apply (in_map (fun r : estimated => ob (ix (rk r)))).
    by apply list_elem_of_In. }
  destruct (run_row_limit _ _ _ _ _ _ _ _ r Hinit Hr Hc)
    as (w & lo & Hw & Hl & Hin & Hin' & Hlo & Hle).
  destruct (run_entry_at _ _ _ _ _ _ _ _ _ _ Hinit Hlo)
    as (Hi & d & Hd & _ & Hlow & _).
  exists d. split; [done|]. rewrite Hlow.
  apply (censored_row_at_limit input ndsymbol w (ix (rk r)) lo Hw Hin' Hnd Hlo).
Qed.

(** When the data has a censored observation, the raw rank of every
    row of the returned frame is a whole number from 1 up to the count of
    its entry: [C] for a censored row, [A] for a detected one. *)
Theorem rank_within_count
    (input : list obs) (ndsymbol : string) (fitlogs : bool) :
  valid input -> (0 < n_censored ndsymbol input)%nat ->
  exists o, __init__ ppf np_log np_exp linregress input ndsymbol fitlogs = OK o /\
    forall r : estimated, r ∈ debug o ->
      exists d (k n : nat) (q : Q),
        DLs o !! DLIndex r = Some d /\
        Norm_Ranks r = Fin q /\ q == inject_Z (Z.of_nat k) /\
        (if is_ND r then C d else A d) = of_nat n /\
        (1 <= k <= n)%nat.
Proof.
  intros Hv Hc.
  destruct (init_returns ppf np_log np_exp linregress input ndsymbol fitlogs Hv)
    as (w0 & e & _ & _ & Hinit).
  eexists. split; [exact Hinit|]. intros r Hr.
  destruct (run_row_limit _ _ _ _ _ _ _ _ r Hinit Hr Hc)
    as (w & lo & Hw & Hl & Hin & Hin' & Hlo & Hle).
  destruct (run_entry_at _ _ _ _ _ _ _ _ _ _ Hinit Hlo)
    as (Hi & d & Hd & _ & _ & _ & HA & _ & HC).
  destruct (ranked_row_rank w _ _ Hl Hin) as (_ & k & q & Hq & Eq & Hk).
  exists d, k. destruct (is_ND r) eqn:Hnd.
  - eexists _, q. split; [done|]. split; [done|]. split; [done|].
    split; [exact HC|].
    pose proof (censored_group_C input ndsymbol w (ix (rk r)) lo Hw Hin' Hnd Hlo).
    lia.
  - eexists _, q. split; [done|]. split; [done|]. split; [done|].
    split; [exact HA|].
    pose proof (detected_group_A _ w (ix (rk r)) lo Hw Hin' Hnd Hlo). lia.
Qed.
End Rows.

(** ** The exceedance probabilities along the table *)

Lemma PE_step_monotone (a b : nat) (p : Q) :
  (1 <= a + b)%nat -> 0 <= p -> p <= 1 ->
  p <= p + inject_Z (Z.of_nat a)
           / (inject_Z (Z.of_nat a) + inject_Z (Z.of_nat b)) * (1 + - p).
Proof.
  intros Hab H0 H1. destruct (ratio_bounds _ _ Hab) as (Hr0 & Hr1 & _).
  set (r := inject_Z _ / _) in *. clearbody r. nra.
Qed.

Section Monotone.
Variable ppf : float64 -> float64.
Variable np_log np_exp : float64 -> float64.
Variable linregress : list float64 -> list float64 -> float64 * float64.

Lemma run_DLs_cases (input : list obs) (nd : string) (fl : bool) (o : MR) :
  __init__ ppf np_log np_exp linregress input nd fl = OK o ->
  DLs o = cohn (canonical input nd) \/
  DLs o = compute_PE (cohn (canonical input nd)).
Proof.
  intros H. apply init_OK in H as (_ & _ & w & e & _ & He & ->). simpl.
  destruct (decide (count_nd nd input = 0%nat)) as [H0|H0].
  { rewrite estimator_no_censored in He by done. injection He as <-. by left. }
  destruct (too_few_detects (length input) (count_nd nd input)) eqn:E.
  { rewrite estimator_half_DLs in He by done. injection He as <-. by left. }
  rewrite estimator_regression in He by done.
  apply bind_OK in He as (pp & _ & [= <-]). by right.
Qed.

(** Along the returned table the exceedance probability never
    increases with the index: each entry's [PE] is at least the next
    entry's. *)
Theorem PE_nonincreasing
    (input : list obs) (ndsymbol : string) (fitlogs : bool) :
  valid input ->
  exists o, __init__ ppf np_log np_exp linregress input ndsymbol fitlogs = OK o /\
    forall i d d1, DLs o !! i = Some d -> DLs o !! (i + 1)%nat = Some d1 ->
      exists p p1, PE d = Fin p /\ PE d1 = Fin p1 /\ p1 <= p.
Proof.
  intros Hv.
  destruct (init_returns ppf np_log np_exp linregress input ndsymbol fitlogs Hv)
    as (w & e & _ & _ & Hinit).
  eexists. split; [exact Hinit|].
  destruct (run_DLs_cases _ _ _ _ Hinit) as [-> | ->]; intros i d d1 Hd Hd1.
  - exists 0, 0.
    rewrite (cohn_PE_zero _ d) by (by eapply list_elem_of_lookup_2).
    rewrite (cohn_PE_zero _ d1) by (by eapply list_elem_of_lookup_2).
    done.
  - set (c := canonical input ndsymbol) in *.
    destruct (compute_PE_spec (cohn c)) as (Hlen & _).
    pose proof (lookup_lt_Some _ _ _ Hd1) as Hi. rewrite Hlen in Hi.
    destruct (PE_entry c i d Hi Hd)
      as (lo & d1' & Hlo & _ & _ & HA & HB & _ & Hd1' & HPE).
    assert (d1' = d1) as -> by congruence.
    destruct (PE_table c (length (cohn c) - (i + 1) - 1) (i + 1)%nat d1)
      as (p1 & Hp1 & Hp10 & Hp11 & _); [lia|done|].
    destruct (limit_counts c i lo Hlo) as [Hab _].
    rewrite HA, HB, Hp1 in HPE. rewrite PE_step_value in HPE by done.
    eexists _, p1. split; [exact HPE|]. split; [done|].
    by apply PE_step_monotone.
Qed.
End Monotone.

(** ** The rows of the public frame *)

Section Public.
Variable ppf : float64 -> float64.
Variable np_log np_exp : float64 -> float64.
Variable linregress : list float64 -> list float64 -> float64 * float64.

(** The public frame holds the input rows, none lost and none
    repeated: each with its label, its result and its qualifier
    standardised to 'ND' or '='.  [N_tot] is the number of rows and [N_nd]
    the number of censored ones. *)
Theorem rows_preserved
    (input : list obs) (ndsymbol : string) (fitlogs : bool) :
  valid input ->
  exists o, __init__ ppf np_log np_exp linregress input ndsymbol fitlogs = OK o /\
    N_tot o = length input /\
    N_nd o = n_censored ndsymbol input /\
    map final_row_key (data o) ≡ₚ map (obs_key ndsymbol) input.
Proof.
  intros Hv.
  destruct (init_returns ppf np_log np_exp linregress input ndsymbol fitlogs Hv)
    as (w & e & _ & _ & Hinit).
  eexists. split; [exact Hinit|]. split; [done|]. split; [done|].
  pose proof (run_canonical _ _ _ _ _ _ _ _ Hinit) as Hrows.
  simpl in *. rewrite map_map.
  transitivity (map (fun r : obs => (index r, res r, qual r))
                    (canonical input ndsymbol)).
  - rewrite <- Hrows, map_map. done.
  - rewrite canonical_perm, map_map. done.
Qed.

(** With log-space fitting on, the line is fitted to [np.log] of the
    detected results against their Zprelim, every censored final value is
    [np.exp(slope * Zprelim + intercept)], and every detected final value
    is the observed result. *)
Theorem regression_in_logs
    (input : list obs) (ndsymbol : string) :
  valid input -> regression_path ndsymbol input ->
  exists o slope intercept,
    __init__ ppf np_log np_exp linregress input ndsymbol true = OK o /\
    fit o = Some (slope, intercept) /\
    (slope, intercept) =
      linregress
        (map (fun r : estimated => default NaN (Zprelim r))
             (List.filter (fun r : estimated => is_detect r) (debug o)))
        (map (fun r : estimated => np_log (Fin (res r)))
             (List.filter (fun r : estimated => is_detect r) (debug o))) /\
    (forall r : estimated, r ∈ debug o ->
       exists p, plot_pos r = Some p /\ Zprelim r = Some (ppf p)) /\
    (forall r : estimated, r ∈ debug o -> is_ND r = true ->
       exists z, Zprelim r = Some z /\
         modeled_data r = Some (np_exp (fadd (fmul slope z) intercept)) /\
         final_data r = np_exp (fadd (fmul slope z) intercept)) /\
    (forall r : estimated, r ∈ debug o -> is_ND r = false ->
       modeled_data r = Some NaN /\ final_data r = Fin (res r)).
Proof.
  intros Hv Hp.
  destruct (run_regression ppf np_log np_exp linregress input ndsymbol true Hv Hp)
    as (w & pp & Hw & Hpp & Hinit). cbv zeta in Hinit.
  eexists. eexists. eexists. split; [exact Hinit|]. simpl.
  split; [apply f_equal, surjective_pairing|].
  assert (Hz : forall x : ranked * (float64 * float64),
            x ∈ zip (_ros_ranks w (length input)) (zip pp (map ppf pp)) ->
            snd (snd x) = ppf (fst (snd x))).
  { intros [x [p z]] Hx. apply list_elem_of_lookup in Hx as [n Hn].
    rewrite lookup_zip_with in Hn.
    destruct (_ros_ranks w (length input) !! n); [|done]. simpl in Hn.
    rewrite lookup_zip_with, lookup_map in Hn.
    destruct (pp !! n); [|done]. simpl in Hn. by injection Hn as _ <- <-. }
  split; [|split; [|split]].
  - rewrite !map_filter_map. simpl. symmetry. apply surjective_pairing.
  - intros r Hr.
    apply list_elem_of_In, in_map_iff in Hr as (x & <- & Hx).
    apply list_elem_of_In, Hz in Hx. simpl. rewrite Hx. eauto.
  - intros r Hr Hnd.
    apply list_elem_of_In, in_map_iff in Hr as ([x [p z]] & <- & _).
    simpl in *. exists z. split; [done|].
    unfold _select_final_data. fold (is_ND x). by rewrite Hnd.
  - intros r Hr Hnd.
    apply list_elem_of_In, in_map_iff in Hr as ([x [p z]] & <- & _).
    simpl in *. unfold _select_final_data. fold (is_ND x). by rewrite Hnd.
Qed.
End Public.

(** ** Plotting positions along a run *)

Lemma rank_successor (w : list indexed) (N n : nat) (x1 x2 : ranked) :
  NoDup (labels w) ->
  (forall y : indexed, y ∈ w -> qual y = "ND" \/ qual y = "=") ->
  _ros_ranks w N !! n = Some x1 -> _ros_ranks w N !! S n = Some x2 ->
  DLIndex x1 = DLIndex x2 -> is_ND x1 = is_ND x2 ->
  Norm_Ranks x2 = fadd (Norm_Ranks x1) (Fin 1).
Proof.
  intros Hl Hq H1 H2 Hd Hnd.
  destruct (norm_ranks_spec w N Hl) as [_ Hrec].
  apply ros_ranks_lookup in H1 as (Hw1 & Hn1 & _).
  apply ros_ranks_lookup in H2 as (Hw2 & Hn2 & _).
  rewrite Hrec in Hn2 by (by eapply lookup_lt_Some).
  injection Hn2 as <-.
  unfold starts_run, iloc_DLIndex, iloc_qual.
  rewrite ?Nat.sub_0_r. replace (S n - 1)%nat with n by lia.
  rewrite Hw1, Hw2, nth_lookup, Hn1. simpl.
  rewrite (standard_qual_eqb (ix x2) (ix x1)).
  - change (is_ND (ix x2)) with (is_ND x2). change (is_ND (ix x1)) with (is_ND x1).
    change (DLIndex (ix x2)) with (DLIndex x2).
    change (DLIndex (ix x1)) with (DLIndex x1).
    rewrite Hd, Hnd, Nat.eqb_refl. by destruct (is_ND x2).
  - apply Hq. by eapply list_elem_of_lookup_2.
  - apply Hq. by eapply list_elem_of_lookup_2.
Qed.

(** The terms of a row's plotting position. *)
Lemma position_terms (data : list obs) (nd : string) (w : list indexed)
    (N : nat) (x : ranked) (dl_1 dl_2 : dlrow) :
  let c := canonical data nd in
  NoDup (map index data) ->
  assign_DLIndex (cohn c) c = OK w -> x ∈ _ros_ranks w N ->
  compute_PE (cohn c) !! DLIndex x = Some dl_1 ->
  compute_PE (cohn c) !! (DLIndex x + 1)%nat = Some dl_2 ->
  exists (p1 p2 : Q) (n : nat),
    PE dl_1 = Fin p1 /\ PE dl_2 = Fin p2 /\
    (if is_ND x then C dl_1 else A dl_1) = of_nat n /\
    (if is_ND x then p1 < 1 else p2 < p1).
Proof.
  intros c Hnd Hw Hx H1 H2.
  assert (NoDup (labels w)) as Hl.
  { eapply assign_DLIndex_NoDup; [|done]. by apply canonical_NoDup. }
  destruct (ranked_row_rank w N x Hl Hx) as (Hin & k & q & Hq & Eq & Hk).
  destruct (compute_PE_spec (cohn c)) as (Hlen & _).
  pose proof (lookup_lt_Some _ _ _ H2) as Hi. rewrite Hlen in Hi.
  destruct (PE_entry c (DLIndex x) dl_1 Hi H1)
    as (lo & d1 & Hlo & _ & _ & HA & HB & HC & Hd1 & HPE).
  assert (d1 = dl_2) as -> by congruence.
  destruct (PE_table c (length (cohn c) - (DLIndex x + 1) - 1)
              (DLIndex x + 1)%nat dl_2)
    as (p2 & Hp2 & Hp20 & _ & Hp21); [lia|done|].
  specialize (Hp21 ltac:(lia)).
  destruct (limit_counts c _ lo Hlo) as [Hab _].
  rewrite HA, HB, Hp2 in HPE. rewrite PE_step_value in HPE by done.
  destruct (ratio_bounds _ _ Hab) as (Hr0 & Hr1 & Hrlt & Hrpos).
  set (a := _A c lo (upper_at (limits c) (DLIndex x))) in *.
  set (b := _B c lo) in *.
  set (r := inject_Z (Z.of_nat a) / _) in *. clearbody r.
  change (DLIndex x) with (DLIndex (ix x)) in Hlo.
  eexists _, p2. destruct (is_ND x) eqn:End.
  - exists (_C c lo). split; [exact HPE|]. split; [done|]. split; [done|].
    pose proof (censored_group_C data nd w (ix x) lo Hw Hin End Hlo) as HC'.
    fold c in HC'. pose proof (C_le_B c lo) as HCB. fold b in HCB.
    specialize (Hrlt ltac:(lia)). nra.
  - exists a. split; [exact HPE|]. split; [done|]. split; [done|].
    pose proof (detected_group_A c w (ix x) lo Hw Hin End Hlo) as HA'.
    fold a in HA'. specialize (Hrpos ltac:(lia)). nra.
Qed.

Lemma div_step (k q den : Q) :
  0 < k -> 0 < den -> k * q / den < k * (q + 1) / den.
Proof.
  intros Hk Hd. unfold Qdiv. apply Qmult_lt_compat_r.
  - by apply Qinv_lt_0_compat.
  - nra.
Qed.

Lemma position_step (x1 x2 : ranked) (dl_1 dl_2 : dlrow) (p1 p2 q : Q)
    (n : nat) (v1 v2 : float64) :
  is_ND x1 = is_ND x2 ->
  Norm_Ranks x1 = Fin q -> Norm_Ranks x2 = Fin (q + 1) ->
  PE dl_1 = Fin p1 -> PE dl_2 = Fin p2 ->
  (if is_ND x1 then C dl_1 else A dl_1) = of_nat n ->
  (if is_ND x1 then p1 < 1 else p2 < p1) ->
  (if String.eqb (qual x1) "ND"
   then OK (fdiv (fmul (fsub (Fin 1) (PE dl_1)) (Norm_Ranks x1))
                 (fadd (C dl_1) (Fin 1)))
   else OK (fadd (fsub (Fin 1) (PE dl_1))
                 (fdiv (fmul (fsub (PE dl_1) (PE dl_2)) (Norm_Ranks x1))
                       (fadd (A dl_1) (Fin 1))))) = OK v1 ->
  (if String.eqb (qual x2) "ND"
   then OK (fdiv (fmul (fsub (Fin 1) (PE dl_1)) (Norm_Ranks x2))
                 (fadd (C dl_1) (Fin 1)))
   else OK (fadd (fsub (Fin 1) (PE dl_1))
                 (fdiv (fmul (fsub (PE dl_1) (PE dl_2)) (Norm_Ranks x2))
                       (fadd (A dl_1) (Fin 1))))) = OK v2 ->
  exists q1 q2, v1 = Fin q1 /\ v2 = Fin q2 /\ q1 < q2.
Proof.
  intros Hnd Hq1 Hq2 Hp1 Hp2 Hn Hlt Hv1 Hv2.
  pose proof (inject_nat_nonneg n) as Hn0.
  assert (Qeq_bool (inject_Z (Z.of_nat n) + 1) 0 = false) as Hden.
  { destruct (Qeq_bool _ 0) eqn:E; [|done]. apply Qeq_bool_iff in E. lra. }
  fold (is_ND x1) in Hv1. fold (is_ND x2) in Hv2. rewrite <- Hnd in Hv2.
  rewrite Hp1, Hp2, Hq1 in Hv1. rewrite Hp1, Hp2, Hq2 in Hv2.
  destruct (is_ND x1).
  - rewrite Hn in Hv1, Hv2. unfold of_nat in Hv1, Hv2. simpl in Hv1, Hv2.
    rewrite Hden in Hv1, Hv2. injection Hv1 as <-. injection Hv2 as <-.
    eexists _, _. split; [done|]. split; [done|].
    apply div_step; lra.
  - rewrite Hn in Hv1, Hv2. unfold of_nat in Hv1, Hv2. simpl in Hv1, Hv2.
    rewrite Hden in Hv1, Hv2. injection Hv1 as <-. injection Hv2 as <-.
    eexists _, _. split; [done|]. split; [done|].
    apply Qplus_lt_r. apply div_step; lra.
Qed.

Section Positions.
Variable ppf : float64 -> float64.
Variable np_log np_exp : float64 -> float64.
Variable linregress : list float64 -> list float64 -> float64 * float64.

(** On the regression path, two consecutive rows of the frame that
    share a detection-limit index and a censoring status have finite
    plotting positions, the second strictly above the first: within a group
    no two rows get the same position. *)
Theorem positions_increase
    (input : list obs) (ndsymbol : string) (fitlogs : bool) :
  valid input -> regression_path ndsymbol input ->
  exists o, __init__ ppf np_log np_exp linregress input ndsymbol fitlogs = OK o /\
    forall (n : nat) (r1 r2 : estimated),
      debug o !! n = Some r1 -> debug o !! S n = Some r2 ->
      DLIndex r1 = DLIndex r2 -> is_ND r1 = is_ND r2 ->
      exists q1 q2,
        plot_pos r1 = Some (Fin q1) /\ plot_pos r2 = Some (Fin q2) /\ q1 < q2.
Proof.
  intros Hv Hp.
  destruct (run_regression ppf np_log np_exp linregress input ndsymbol fitlogs Hv Hp)
    as (w & pp & Hw & Hpp & Hinit). cbv zeta in Hinit.
  eexists. split; [exact Hinit|]. simpl.
  intros n r1 r2 Hr1 Hr2 Hd Hnd.
  set (c := canonical input ndsymbol) in *.
  set (R := _ros_ranks w (length input)) in *.
  apply apply_rows_Forall2 in Hpp.
  rewrite list_lookup_fmap in Hr1, Hr2.
  destruct (zip R (zip pp (map ppf pp)) !! n) as [[x1 [v1 z1]]|] eqn:E1; [|done].
  destruct (zip R (zip pp (map ppf pp)) !! S n) as [[x2 [v2 z2]]|] eqn:E2; [|done].
  simpl in Hr1, Hr2. injection Hr1 as <-. injection Hr2 as <-. simpl in *.
  rewrite lookup_zip_with in E1, E2.
  destruct (R !! n) as [y1|] eqn:Ey1; [|done].
  destruct (R !! S n) as [y2|] eqn:Ey2; [|done].
  simpl in E1, E2. rewrite lookup_zip_with in E1, E2.
  destruct (pp !! n) as [u1|] eqn:Eu1; [|done].
  destruct (pp !! S n) as [u2|] eqn:Eu2; [|done].
  simpl in E1, E2. rewrite lookup_map in E1, E2. rewrite Eu1 in E1. rewrite Eu2 in E2.
  simpl in E1, E2. injection E1 as -> -> _. injection E2 as -> -> _.
  pose proof (Forall2_lookup_lr _ _ _ _ _ _ Hpp Ey1 Eu1) as Hv1.
  pose proof (Forall2_lookup_lr _ _ _ _ _ _ Hpp Ey2 Eu2) as Hv2.
  simpl in Hv1, Hv2.
  destruct Hv as [Hnodup Hpos].
  assert (NoDup (labels w)) as Hl.
  { eapply assign_DLIndex_NoDup; [|exact Hw]. by apply canonical_NoDup. }
  assert (x1 ∈ R) as Hx1 by by eapply list_elem_of_lookup_2.
  assert (cohn c <> []) as Hne.
  { unfold c. rewrite cohn_nil_iff.
    by destruct (regression_path_branch ndsymbol input Hp). }
  destruct (plotting_pos_lookups c w (length input) x1 Hne Hw Hx1)
    as (dl_1 & dl_2 & H1 & H2).
  destruct (position_terms input ndsymbol w (length input) x1 dl_1 dl_2
              Hnodup Hw Hx1 H1 H2) as (p1 & p2 & k & Hp1 & Hp2 & Hk & Hlt).
  destruct (ranked_row_rank w (length input) x1 Hl Hx1) as (_ & _ & q & Hq & _).
  assert (Norm_Ranks x2 = Fin (q + 1)) as Hq2.
  { rewrite (rank_successor w (length input) n x1 x2 Hl); [by rewrite Hq|
      |done|done|done|done].
    intros y Hy. destruct (assign_DLIndex_spec _ _ _ Hw) as [Hob _].
    apply (canonical_qual input ndsymbol (ob y)). fold c. rewrite <- Hob.
    apply list_elem_of_In, in_map, list_elem_of_In, Hy. }
  unfold _ros_plotting_pos in Hv1, Hv2.
  rewrite <- Hd in Hv2. rewrite H1, H2 in Hv1, Hv2.
  destruct (position_step x1 x2 dl_1 dl_2 p1 p2 q k v1 v2
              Hnd Hq Hq2 Hp1 Hp2 Hk Hlt Hv1 Hv2) as (q1 & q2 & -> & -> & Hlt').
  eauto.
Qed.
End Positions.

(** ** The three branches together *)

Lemma path_cases (nd : string) (data : list obs) :
  n_censored nd data = 0%nat \/ fallback_path nd data \/ regression_path nd data.
Proof.
  destruct (decide (n_censored nd data = 0%nat)) as [H0|H0]; [by left|right].
  destruct (decide (n_detected nd data < 2)%nat) as [Hd|Hd].
  { left. split; [lia|]. by left. }
  destruct (Qlt_le_dec (8 # 10) (censored_fraction nd data)) as [Hf|Hf].
  { left. split; [lia|]. by right. }
  right. split; [lia|]. split; [lia|done].
Qed.

Lemma paths_exclusive (nd : string) (data : list obs) :
  regression_path nd data ->
  n_censored nd data <> 0%nat /\ ~ fallback_path nd data.
Proof.
  intros (Hc & Hd & Hf). split; [lia|].
  intros (_ & [H|H]); [lia|]. by apply Qlt_not_le in H.
Qed.

Section Branches3.
Variable ppf : float64 -> float64.
Variable np_log np_exp : float64 -> float64.
Variable linregress : list float64 -> list float64 -> float64 * float64.

(** The constructor stores a fit exactly when the regression runs:
    with at least one censored observation, at least two detected ones and
    a censored fraction of at most 0.8.  The same condition decides whether
    the plot_pos, Zprelim and modeled_data columns exist. *)
Theorem fit_iff_regression
    (input : list obs) (ndsymbol : string) (fitlogs : bool) :
  valid input ->
  exists o, __init__ ppf np_log np_exp linregress input ndsymbol fitlogs = OK o /\
    (is_Some (fit o) <-> regression_path ndsymbol input) /\
    (forall r : estimated, r ∈ debug o ->
       (is_Some (plot_pos r) <-> regression_path ndsymbol input) /\
       (is_Some (Zprelim r) <-> regression_path ndsymbol input) /\
       (is_Some (modeled_data r) <-> regression_path ndsymbol input)).
Proof.
  intros Hv.
  destruct (path_cases ndsymbol input) as [H0|[Hf|Hr]].
  - destruct (run_no_censored ppf np_log np_exp linregress input ndsymbol fitlogs
                Hv H0) as (w & _ & _ & Hinit). cbv zeta in Hinit.
    assert (~ regression_path ndsymbol input) as Hn.
    { intros Hr. by destruct (paths_exclusive _ _ Hr). }
    eexists. split; [exact Hinit|]. simpl. split.
    + split; [by intros [? ?]|done].
    + intros r Hr. apply list_elem_of_In, in_map_iff in Hr as (k & <- & _).
      simpl. split; [|split]; (split; [by intros [? ?]|done]).
  - destruct (run_fallback ppf np_log np_exp linregress input ndsymbol fitlogs
                Hv Hf) as (w & _ & Hinit). cbv zeta in Hinit.
    assert (~ regression_path ndsymbol input) as Hn.
    { intros Hr. by destruct (paths_exclusive _ _ Hr). }
    eexists. split; [exact Hinit|]. simpl. split.
    + split; [by intros [? ?]|done].
    + intros r Hr. apply list_elem_of_In, in_map_iff in Hr as (k & <- & _).
      simpl. split; [|split]; (split; [by intros [? ?]|done]).
  - destruct (run_regression ppf np_log np_exp linregress input ndsymbol fitlogs
                Hv Hr) as (w & pp & _ & _ & Hinit). cbv zeta in Hinit.
    eexists. split; [exact Hinit|]. simpl. split.
    + split; [done|]. intros _. eauto.
    + intros r Hr'. apply list_elem_of_In, in_map_iff in Hr' as (k & <- & _).
      simpl. split; [|split]; (split; [done|intros _; eauto]).
Qed.

(** On every branch a detected observation keeps its observed value
    as final value: the frame's row under its label has [final_data] equal
    to its result, whether the regression ran or not and whatever
    [fitlogs] is. *)
Theorem detects_unchanged
    (input : list obs) (ndsymbol : string) (fitlogs : bool) :
  valid input ->
  exists o, __init__ ppf np_log np_exp linregress input ndsymbol fitlogs = OK o /\
    (forall r : estimated, r ∈ debug o -> is_ND r = false ->
       final_data r = Fin (res r)) /\
    (forall x, x ∈ input -> censored ndsymbol x = false ->
       exists r, r ∈ data o /\ f_index r = index x /\ f_res r = res x /\
         f_final_data r = Fin (res x)).
Proof.
  intros Hv.
  assert (exists o,
    __init__ ppf np_log np_exp linregress input ndsymbol fitlogs = OK o /\
    data o = map select_columns (debug o) /\
    forall r : estimated, r ∈ debug o -> is_ND r = false ->
      final_data r = Fin (res r)) as (o & Hinit & Hdata & Hfin).
  { destruct (path_cases ndsymbol input) as [H0|[Hf|Hr]].
    - destruct (run_no_censored ppf np_log np_exp linregress input ndsymbol fitlogs
                  Hv H0) as (w & _ & _ & Hinit). cbv zeta in Hinit.
      eexists. split; [exact Hinit|]. simpl. split; [done|].
      intros r Hr _. apply list_elem_of_In, in_map_iff in Hr as (k & <- & _). done.
    - destruct (run_fallback ppf np_log np_exp linregress input ndsymbol fitlogs
                  Hv Hf) as (w & _ & Hinit). cbv zeta in Hinit.
      eexists. split; [exact Hinit|]. simpl. split; [done|].
      intros r Hr Hnd. apply list_elem_of_In, in_map_iff in Hr as (k & <- & _).
      simpl in *. unfold _select_half_DLs. fold (is_ND k). by rewrite Hnd.
    - destruct (run_regression ppf np_log np_exp linregress input ndsymbol fitlogs
                  Hv Hr) as (w & pp & _ & _ & Hinit). cbv zeta in Hinit.
      eexists. split; [exact Hinit|]. simpl. split; [done|].
      intros r Hr' Hnd.
      apply list_elem_of_In, in_map_iff in Hr' as ([k [p z]] & <- & _).
      simpl in *. unfold _select_final_data. fold (is_ND k). by rewrite Hnd. }
  exists o. split; [done|]. split; [done|].
  intros x Hx Hc.
  destruct (run_row_of _ _ _ _ _ _ _ _ x Hinit Hx) as (r & Hr & Hi & Hres & Hnd).
  exists (select_columns r). split.
  { rewrite Hdata. by apply list_elem_of_In, in_map, list_elem_of_In. }
  simpl. split; [done|]. split; [done|].
  rewrite <- Hres. apply Hfin; [done|]. by rewrite Hnd.
Qed.
End Branches3.

(** ** The frame against the input *)

Section FrameIndex.
Variable ppf : float64 -> float64.
Variable np_log np_exp : float64 -> float64.
Variable linregress : list float64 -> list float64 -> float64 * float64.

(** The DLIndex of a row of the frame is what [_ros_DL_index] returns for
    it on the table of the sorted input. *)
Lemma run_DLIndex (input : list obs) (nd : string) (fl : bool) (o : MR)
    (r : estimated) :
  __init__ ppf np_log np_exp linregress input nd fl = OK o -> r ∈ debug o ->
  _ros_DL_index (cohn (canonical input nd)) r = OK (DLIndex r).
Proof.
  intros H Hr.
  destruct (run_rows _ _ _ _ input nd fl o H) as (w & Hw & Hl & Hob & Hrk).
  destruct (assign_DLIndex_spec _ _ _ Hw) as [_ Hidx].
  apply (Hidx (ix (rk r))).
  rewrite <- (ros_ranks_ix w (length input) Hl), <- Hrk, map_map.
  apply list_elem_of_In, (in_map (fun x : estimated => ix (rk x))), list_elem_of_In, Hr.
Qed.
End FrameIndex.

End ExactFacts.

(** ** The program on finite data *)

Local Open Scope list_scope.

Lemma filter_map_comm {T U} (f : T -> U) (p : U -> bool) (p' : T -> bool)
    (l : list T) :
  (forall x, p (f x) = p' x) ->
  List.filter p (map f l) = map f (List.filter p' l).
Proof.
  intros H. induction l as [|x l IH]; simpl; [done|].
  rewrite H. destruct (p' x); simpl; by rewrite IH.
Qed.

Lemma filter_map_count {T U} (f : T -> U) (p : U -> bool) (p' : T -> bool)
    (l : list T) :
  (forall x, p (f x) = p' x) ->
  length (List.filter p (map f l)) = length (List.filter p' l).
Proof. intros H. by rewrite (filter_map_comm f p p'), length_map. Qed.

Lemma apply_rows_map {T T' U U'} (f : T -> T') (h : U -> U')
    (g : T' -> result U') (g' : T -> result U) (l : list T) :
  (forall x, g (f x) = lift_result h (g' x)) ->
  apply_rows g (map f l) = lift_result (map h) (apply_rows g' l).
Proof.
  intros H. induction l as [|x l IH]; simpl; [done|].
  rewrite H, IH. destruct (g' x); simpl; [|done].
  by destruct (apply_rows g' l).
Qed.

Lemma sort_insert_lift (x : Exact.obs) (l : list Exact.obs) :
  sort_insert (lift_obs x) (map lift_obs l) = map lift_obs (Exact.sort_insert x l).
Proof.
  induction l as [|y l IH]; simpl; [done|].
  destruct (Qle_bool (Exact.res x) (Exact.res y)); simpl; [done|]. by rewrite IH.
Qed.

Lemma sort_res_lift (l : list Exact.obs) :
  sort_res (map lift_obs l) = map lift_obs (Exact.sort_res l).
Proof.
  induction l as [|x l IH]; [done|].
  change (sort_res (map lift_obs (x :: l)))
    with (sort_insert (lift_obs x) (sort_res (map lift_obs l))).
  rewrite IH. apply sort_insert_lift.
Qed.

Lemma rosSort_lift (l : list Exact.obs) (nd : string) :
  rosSort (map lift_obs l) nd = map lift_obs (Exact.rosSort l nd).
Proof.
  unfold rosSort, Exact.rosSort. rewrite map_app, <- !sort_res_lift.
  f_equal; f_equal; by apply filter_map_comm.
Qed.

Lemma fmin_Fin (a b : Q) : fmin (Fin a) (Fin b) = Fin (Qmin a b).
Proof.
  unfold fmin. simpl. unfold Qltb.
  destruct (Qle_bool a b) eqn:E; simpl.
  - apply Qle_bool_iff in E. f_equal. symmetry.
    unfold Qmin, GenericMinMax.gmin. destruct (a ?= b)%Q eqn:Ec; try done.
  - f_equal. symmetry. unfold Qmin, GenericMinMax.gmin.
    destruct (a ?= b)%Q eqn:Ec; try done.
    + apply Qeq_alt in Ec. assert (Qle_bool a b = true) as E'; [|congruence].
      apply Qle_bool_iff. rewrite Ec. apply Qle_refl.
    + apply Qlt_alt in Ec. assert (Qle_bool a b = true) as E'; [|congruence].
      apply Qle_bool_iff. by apply Qlt_le_weak.
Qed.

Lemma fold_fmin_Fin (l : list Q) (x : Q) :
  fold_left fmin (map Fin l) (Fin x) = Fin (fold_left Qmin l x).
Proof.
  revert x. induction l as [|y l IH]; intros x; simpl; [done|].
  by rewrite fmin_Fin, IH.
Qed.

Lemma filter_nan_Fin (l : list Q) :
  List.filter (fun x => negb (is_nan x)) (map Fin l) = map Fin l.
Proof. induction l as [|x l IH]; simpl; [done|]. by rewrite IH. Qed.

Lemma series_min_lift (l : list Q) :
  series_min (map Fin l) = Exact.series_min l.
Proof.
  unfold series_min. rewrite filter_nan_Fin.
  destruct l as [|x l]; simpl; [done|]. apply fold_fmin_Fin.
Qed.

Lemma array_min_lift (l : list Q) :
  array_min (map Fin l) = Exact.series_min l.
Proof.
  unfold array_min.
  assert (existsb is_nan (map Fin l) = false) as ->.
  { induction l as [|x l IH]; simpl; done. }
  apply series_min_lift.
Qed.

Lemma unique_lift (l : list Q) :
  unique (map Fin l) = map Fin (Exact.unique l).
Proof.
  induction l as [|x l IH]; simpl; [done|].
  rewrite IH. f_equal. apply filter_map_comm.
  intros y. unfold same_value. simpl. by rewrite orb_false_r.
Qed.

Lemma res_lift (l : list Exact.obs) :
  map res (map lift_obs l) = map Fin (map Exact.res l).
Proof. by rewrite !map_map. Qed.

Lemma counts_lift (d : list Exact.obs) (lo up : float64) :
  _A (map lift_obs d) lo up = Exact._A d lo up /\
  _B (map lift_obs d) lo = Exact._B d lo /\
  _C (map lift_obs d) lo = Exact._C d lo.
Proof.
  unfold _A, _B, _C, Exact._A, Exact._B, Exact._C. split; [|split].
  - by apply filter_map_count.
  - f_equal; by apply filter_map_count.
  - rewrite (filter_map_comm lift_obs is_ND Exact.is_ND) by done.
    by apply filter_map_count.
Qed.

Lemma cohn_lift (d : list Exact.obs) : cohn (map lift_obs d) = Exact.cohn d.
Proof.
  unfold cohn, Exact.cohn.
  rewrite (filter_map_comm lift_obs is_ND Exact.is_ND) by done.
  rewrite res_lift, unique_lift, length_map.
  set (u := Exact.unique _).
  destruct (0 <? length u)%nat; [|done]. f_equal.
  assert (cohn_limits (map lift_obs d) (map Fin u) = Exact.cohn_limits d u) as ->.
  { unfold cohn_limits, Exact.cohn_limits.
    by rewrite res_lift, series_min_lift, array_min_lift. }
  apply map_ext. intros lu. unfold cohn_row, Exact.cohn_row.
  destruct (counts_lift d (fst lu) (snd lu)) as (-> & -> & ->). done.
Qed.

Lemma assign_DLIndex_lift (DLs : list dlrow) (d : list Exact.obs) :
  assign_DLIndex DLs (map lift_obs d) =
  lift_result (map lift_indexed) (Exact.assign_DLIndex DLs d).
Proof.
  apply apply_rows_map. intros x.
  unfold _ros_DL_index, Exact._ros_DL_index. simpl.
  destruct (0 <? length DLs)%nat; [|done].
  by destruct (last _).
Qed.

Lemma zip_map_l {T T' U} (f : T -> T') (l : list T) (k : list U) :
  zip (map f l) k = map (fun x => (f (fst x), snd x)) (zip l k).
Proof.
  revert k. induction l as [|x l IH]; intros [|y k]; simpl; [done..|].
  by rewrite IH.
Qed.

Lemma apply_rows_pre {T T' U} (f : T -> T') (g : T' -> result U)
    (g' : T -> result U) (l : list T) :
  (forall x, g (f x) = g' x) ->
  apply_rows g (map f l) = apply_rows g' l.
Proof.
  intros H. induction l as [|x l IH]; simpl; [done|]. by rewrite H, IH.
Qed.

Lemma rank_body_lift (w : list Exact.indexed) (col : list float64) (ni : nat * Z) :
  rank_body (map lift_indexed w) col ni = Exact.rank_body w col ni.
Proof.
  destruct ni as [n idx]. unfold rank_body, Exact.rank_body.
  unfold iloc_DLIndex, iloc_qual, Exact.iloc_DLIndex, Exact.iloc_qual.
  rewrite !list_lookup_fmap.
  assert (labels (map lift_indexed w) = Exact.labels w) as ->.
  { unfold labels, Exact.labels. by rewrite map_map. }
  destruct (w !! n), (w !! (n - 1)%nat); done.
Qed.

Lemma norm_ranks_lift (w : list Exact.indexed) (N : nat) :
  norm_ranks (map lift_indexed w) N = Exact.norm_ranks w N.
Proof.
  unfold norm_ranks, Exact.norm_ranks.
  assert (labels (map lift_indexed w) = Exact.labels w) as ->.
  { unfold labels, Exact.labels. by rewrite map_map. }
  assert (map (fun _ : indexed => of_nat N) (map lift_indexed w) =
          map (fun _ : Exact.indexed => of_nat N) w) as -> by by rewrite map_map.
  generalize (map (fun _ : Exact.indexed => of_nat N) w).
  generalize (zip (seq 0 (length (Exact.labels w))) (Exact.labels w)).
  intros steps. induction steps as [|ni steps IH]; intros c0; simpl; [done|].
  by rewrite rank_body_lift, IH.
Qed.

Lemma ros_ranks_lift (w : list Exact.indexed) (N : nat) :
  _ros_ranks (map lift_indexed w) N = map lift_ranked (Exact._ros_ranks w N).
Proof.
  unfold _ros_ranks, Exact._ros_ranks.
  rewrite norm_ranks_lift, zip_map_l, !map_map.
  apply map_ext. intros [x v]. unfold lift_ranked. simpl. f_equal.
  unfold avgrank, Exact.avgrank. simpl.
  destruct (String.eqb (Exact.qual (Exact.ob x)) "ND"); simpl; [done|].
  rewrite zip_map_l. f_equal.
  rewrite (filter_map_comm _ _
    (fun y : Exact.indexed * float64 =>
       (Exact.DLIndex (fst y) =? Exact.DLIndex x)%nat
       && Qeq_bool (Exact.res (Exact.ob (fst y))) (Exact.res (Exact.ob x))
       && negb (String.eqb (Exact.qual (Exact.ob (fst y))) "ND"))) by done.
  by rewrite map_map.
Qed.

Section Lift.
Variable ppf : float64 -> float64.
Variable np_log np_exp : float64 -> float64.
Variable linregress : list float64 -> list float64 -> float64 * float64.

Lemma fit_and_model_lift (s : Exact.MRself) (t : list dlrow) (pp : list float64) :
  fit_and_model ppf np_log np_exp linregress (lift_self s) t pp =
  lift_estimate (Exact.fit_and_model ppf np_log np_exp linregress s t pp).
Proof.
  unfold fit_and_model, Exact.fit_and_model, lift_estimate. simpl.
  rewrite zip_map_l.
  set (rows := zip (Exact.self_data s) _).
  rewrite (filter_map_comm _ _
    (fun x : Exact.ranked * (float64 * float64) => Exact.is_detect (Exact.ob (Exact.ix (fst x)))))
    by done.
  destruct (Exact.self_fitlogs s); rewrite !map_map; reflexivity.
Qed.

Lemma estimator_lift (s : Exact.MRself) :
  estimator ppf np_log np_exp linregress (lift_self s) =
  lift_result lift_estimate (Exact.estimator ppf np_log np_exp linregress s).
Proof.
  unfold estimator, Exact.estimator.
  change (self_N_nd (lift_self s)) with (Exact.self_N_nd s).
  change (self_N_tot (lift_self s)) with (Exact.self_N_tot s).
  change (self_DLs (lift_self s)) with (Exact.self_DLs s).
  destruct (Exact.self_N_nd s =? 0)%nat.
  { simpl. unfold lift_estimate. simpl. by rewrite !map_map. }
  destruct (too_few_detects _ _).
  { simpl. unfold lift_estimate. simpl. by rewrite !map_map. }
  cbv zeta.
  change (self_data (lift_self s)) with (map lift_ranked (Exact.self_data s)).
  rewrite (apply_rows_pre lift_ranked _
             (Exact._ros_plotting_pos (compute_PE (Exact.self_DLs s)))) by done.
  destruct (apply_rows _ _) as [pp|e]; simpl; [|done].
  by rewrite fit_and_model_lift.
Qed.

(** The constructor on finite data is the constructor over rationals. *)
Lemma init_lift (d : list Exact.obs) (nd : string) (fl : bool) :
  __init__ ppf np_log np_exp linregress (map lift_obs d) nd fl =
  lift_result lift_MR (Exact.__init__ ppf np_log np_exp linregress d nd fl).
Proof.
  unfold __init__, Exact.__init__.
  assert (map index (map lift_obs d) = map Exact.index d) as ->
    by by rewrite map_map.
  destruct (negb _); [done|].
  rewrite res_lift, series_min_lift.
  destruct (fleb _ _); [done|]. cbv zeta.
  assert (map (standardize nd) (map lift_obs d) =
          map lift_obs (map (Exact.standardize nd) d)) as ->
    by by rewrite !map_map.
  rewrite rosSort_lift, cohn_lift, assign_DLIndex_lift.
  rewrite length_map.
  assert (count_nd nd (map lift_obs d) = Exact.count_nd nd d) as ->
    by by apply filter_map_count.
  destruct (Exact.assign_DLIndex _ _) as [w|e]; simpl; [|done].
  rewrite ros_ranks_lift.
  pose proof (estimator_lift
    {| Exact.self_N_tot := length d; Exact.self_N_nd := Exact.count_nd nd d;
       Exact.self_fitlogs := fl;
       Exact.self_DLs := Exact.cohn (Exact.rosSort (map (Exact.standardize nd) d) nd);
       Exact.self_data := Exact._ros_ranks w (length d) |}) as He.
  unfold lift_self in He. simpl in He. rewrite He.
  destruct (Exact.estimator _ _ _ _ _) as [e|e]; simpl; [|done].
  unfold lift_MR. simpl. by rewrite !map_map.
Qed.
End Lift.

(** ** Carrying a statement over *)

Lemma valid_lift (input : list obs) :
  valid input -> exists d, input = map lift_obs d /\ Exact.valid d.
Proof.
  intros [Hnd Hpos]. exists (map exact_obs input). split; [|split].
  - rewrite map_map. rewrite <- (map_id input) at 1.
    apply map_ext_in. intros r Hr.
    rewrite Forall_forall in Hpos. apply list_elem_of_In in Hr.
    destruct (Hpos r Hr) as (q & Hq & _).
    destruct r as [i x s]. simpl in *. by subst.
  - by rewrite map_map.
  - rewrite Forall_forall in Hpos. apply Forall_forall.
    intros r' Hr'. apply list_elem_of_In, in_map_iff in Hr' as (r & <- & Hr).
    destruct (Hpos r) as (q & Hq & Hlt); [by apply list_elem_of_In|].
    simpl. by rewrite Hq.
Qed.

Lemma count_lift (p : obs -> bool) (p' : Exact.obs -> bool) (d : list Exact.obs) :
  (forall x, p (lift_obs x) = p' x) ->
  count p (map lift_obs d) = Exact.count p' d.
Proof. apply filter_map_count. Qed.

Lemma n_censored_lift (nd : string) (d : list Exact.obs) :
  n_censored nd (map lift_obs d) = Exact.n_censored nd d.
Proof. by apply count_lift. Qed.

Lemma n_detected_lift (nd : string) (d : list Exact.obs) :
  n_detected nd (map lift_obs d) = Exact.n_detected nd d.
Proof. by apply count_lift. Qed.

Lemma censored_fraction_lift (nd : string) (d : list Exact.obs) :
  censored_fraction nd (map lift_obs d) = Exact.censored_fraction nd d.
Proof.
  unfold censored_fraction, Exact.censored_fraction.
  by rewrite n_censored_lift, length_map.
Qed.

Lemma regression_path_lift (nd : string) (d : list Exact.obs) :
  regression_path nd (map lift_obs d) <-> Exact.regression_path nd d.
Proof.
  unfold regression_path, Exact.regression_path.
  by rewrite n_censored_lift, n_detected_lift, censored_fraction_lift.
Qed.

Lemma fallback_path_lift (nd : string) (d : list Exact.obs) :
  fallback_path nd (map lift_obs d) <-> Exact.fallback_path nd d.
Proof.
  unfold fallback_path, Exact.fallback_path.
  by rewrite n_censored_lift, n_detected_lift, censored_fraction_lift.
Qed.

Lemma spec_counts_lift (nd : string) (d : list Exact.obs) (lo up : float64) :
  spec_A nd (map lift_obs d) lo up = Exact.spec_A nd d lo up /\
  spec_B nd (map lift_obs d) lo = Exact.spec_B nd d lo /\
  spec_C nd (map lift_obs d) lo = Exact.spec_C nd d lo.
Proof.
  unfold spec_A, spec_B, spec_C, Exact.spec_A, Exact.spec_B, Exact.spec_C.
  split; [|split].
  - by apply count_lift.
  - f_equal; by apply count_lift.
  - by apply count_lift.
Qed.

Lemma canonical_lift (d : list Exact.obs) (nd : string) :
  canonical (map lift_obs d) nd = map lift_obs (Exact.canonical d nd).
Proof.
  unfold canonical, Exact.canonical. rewrite <- rosSort_lift.
  by rewrite !map_map.
Qed.

(** A row of a lifted frame is the lift of a row. *)
Lemma lifted_row {T U} (f : T -> U) (l : list T) (r : U) :
  r ∈ map f l -> exists r0, r = f r0 /\ r0 ∈ l.
Proof.
  intros H. apply list_elem_of_In, in_map_iff in H as (r0 & <- & H).
  exists r0. split; [done|]. by apply list_elem_of_In.
Qed.

Lemma lifted_lookup {T U} (f : T -> U) (l : list T) (n : nat) (r : U) :
  map f l !! n = Some r -> exists r0, r = f r0 /\ l !! n = Some r0.
Proof.
  rewrite list_lookup_fmap. destruct (l !! n) as [r0|]; [|done].
  intros [= <-]. eauto.
Qed.

Lemma row_lifted {T U} (f : T -> U) (l : list T) (r0 : T) :
  r0 ∈ l -> f r0 ∈ map f l.
Proof. intros H. by apply list_elem_of_In, in_map, list_elem_of_In. Qed.

Lemma valid_by_computation (data : list obs) :
  bool_decide (NoDup (map index data)) = true ->
  forallb (fun r => match res r with Fin q => Qltb 0 q | _ => false end) data
    = true ->
  valid data.
Proof.
  intros H1 H2. split; [by apply bool_decide_eq_true in H1|].
  apply Forall_forall. intros r Hr.
  rewrite forallb_forall in H2. apply list_elem_of_In, H2 in Hr.
  destruct (res r) as [q| | |]; try done.
  exists q. split; [done|]. by apply ExactFacts.Qltb_lt.
Qed.

Lemma example_valid : valid example_data.
Proof. by apply valid_by_computation; vm_compute. Qed.

Lemma example_regression_path : regression_path "ND" example_data.
Proof.
  split; [vm_compute; lia|]. split; [vm_compute; lia|]. by vm_compute.
Qed.

Lemma example_censored : (0 < n_censored "ND" example_data)%nat.
Proof. vm_compute. lia. Qed.

Lemma few_detects_valid : valid few_detects_data.
Proof. by apply valid_by_computation; vm_compute. Qed.

Lemma few_detects_fallback_path : fallback_path "ND" few_detects_data.
Proof. split; [vm_compute; lia|]. left. vm_compute. lia. Qed.

Lemma detects_only_valid : valid detects_only_data.
Proof. by apply valid_by_computation; vm_compute. Qed.

Lemma tied_valid : valid tied_data.
Proof. by apply valid_by_computation; vm_compute. Qed.

Lemma tied_regression_path : regression_path "ND" tied_data.
Proof.
  split; [vm_compute; lia|]. split; [vm_compute; lia|]. by vm_compute.
Qed.

Lemma lt_symbol_valid : valid lt_symbol_data.
Proof. by apply valid_by_computation; vm_compute. Qed.

Section Carry.
Variable ppf : float64 -> float64.
Variable np_log np_exp : float64 -> float64.
Variable linregress : list float64 -> list float64 -> float64 * float64.

Lemma init_of_exact (d : list Exact.obs) (nd : string) (fl : bool) (o : Exact.MR) :
  Exact.__init__ ppf np_log np_exp linregress d nd fl = OK o ->
  __init__ ppf np_log np_exp linregress (map lift_obs d) nd fl = OK (lift_MR o).
Proof. intros H. by rewrite init_lift, H. Qed.
End Carry.

(** ** Results that are not finite *)

Lemma fleb_trans (x y z : float64) :
  fleb x y = true -> fleb y z = true -> fleb x z = true.
Proof.
  destruct x as [a| | |], y as [b| | |], z as [c| | |]; simpl; try done.
  rewrite !Qle_bool_iff. apply Qle_trans.
Qed.

Lemma sort_le_trans (x y z : float64) :
  sort_le x y = true -> sort_le y z = true -> sort_le x z = true.
Proof.
  destruct x as [a| | |], y as [b| | |], z as [c| | |]; simpl; try done.
  rewrite !Qle_bool_iff. apply Qle_trans.
Qed.

Lemma sort_le_total (x y : float64) :
  sort_le x y = false -> sort_le y x = true.
Proof.
  destruct x as [a| | |], y as [b| | |]; simpl; try done.
  intros H. apply Qle_bool_iff, Qlt_le_weak, ExactFacts.Qltb_lt.
  unfold Qltb. by rewrite H.
Qed.

Lemma sort_insert_keeps (x : obs) (l : list obs) : sort_insert x l ≡ₚ x :: l.
Proof.
  induction l as [|y l IH]; simpl; [done|].
  destruct (sort_le (res x) (res y)); [done|].
  rewrite IH. apply perm_swap.
Qed.

Lemma sort_res_keeps (l : list obs) : sort_res l ≡ₚ l.
Proof.
  induction l as [|x l IH]; simpl; [done|].
  by rewrite sort_insert_keeps, IH.
Qed.

Lemma rosSort_keeps (l : list obs) (nd : string) : rosSort l nd ≡ₚ l.
Proof.
  unfold rosSort. rewrite !sort_res_keeps.
  apply (ExactFacts.filter_split_perm (fun r => String.eqb (qual r) nd)).
Qed.

Lemma sort_insert_ascending (x : obs) (l : list obs) :
  StronglySorted (fun a b => sort_le (res a) (res b) = true) l ->
  StronglySorted (fun a b => sort_le (res a) (res b) = true) (sort_insert x l).
Proof.
  induction 1 as [|y l Hs IH Hy]; simpl.
  - repeat constructor.
  - destruct (sort_le (res x) (res y)) eqn:E.
    + constructor; [by constructor|].
      constructor; [done|]. eapply Forall_impl; [exact Hy|].
      intros z Hz. simpl in Hz. by eapply sort_le_trans.
    + constructor; [done|].
      rewrite (sort_insert_keeps x l). constructor; [|done].
      by apply sort_le_total.
Qed.

Lemma sort_res_ascending (l : list obs) :
  StronglySorted (fun a b => sort_le (res a) (res b) = true) (sort_res l).
Proof.
  induction l as [|x l IH]; simpl; [constructor|].
  by apply sort_insert_ascending.
Qed.

(** [Series.min] returns a value of the series that is not [NaN], at or
    below every other such value, or [NaN] when there is none. *)
Lemma fold_fmin_spec (l : list float64) : forall x,
  is_nan x = false -> Forall (fun y => is_nan y = false) l ->
  let m := fold_left fmin l x in
  m ∈ x :: l /\ forall y, y ∈ x :: l -> fleb m y = true.
Proof.
  induction l as [|z l IH]; intros x Hx Hl; simpl.
  - split; [left|]. intros y Hy. apply list_elem_of_singleton in Hy as ->.
    destruct x as [a| | |]; simpl; try done. apply Qle_bool_iff, Qle_refl.
  - inversion Hl as [|? ? Hz Hl']; subst.
    assert (is_nan (fmin x z) = false) as Hm.
    { unfold fmin. by destruct (fltb z x). }
    destruct (IH (fmin x z) Hm Hl') as [Hin Hle]. split.
    + apply elem_of_cons in Hin as [Hin|Hin].
      * rewrite Hin. unfold fmin. destruct (fltb z x).
        -- right. left.
        -- left.
      * right. by right.
    + assert (fleb (fmin x z) x = true /\ fleb (fmin x z) z = true) as [H1 H2].
      { unfold fmin. destruct x as [a| | |], z as [b| | |]; simpl in *;
          try done;
          try (split; first [done | apply Qle_bool_iff, Qle_refl]).
        unfold Qltb. destruct (Qle_bool a b) eqn:E; simpl.
        - split; [by apply Qle_bool_iff, Qle_refl|done].
        - split; [|by apply Qle_bool_iff, Qle_refl].
          apply Qle_bool_iff, Qlt_le_weak, ExactFacts.Qltb_lt.
          unfold Qltb. by rewrite E. }
      intros y Hy. apply elem_of_cons in Hy as [->|Hy].
      * eapply fleb_trans; [|exact H1]. apply Hle. left.
      * apply elem_of_cons in Hy as [->|Hy].
        -- eapply fleb_trans; [|exact H2]. apply Hle. left.
        -- apply Hle. by right.
Qed.

Lemma series_min_cases (l : list float64) :
  (series_min l = NaN /\ Forall (fun y => is_nan y = true) l) \/
  (is_nan (series_min l) = false /\ series_min l ∈ l /\
   forall y, y ∈ l -> is_nan y = false -> fleb (series_min l) y = true).
Proof.
  unfold series_min.
  destruct (List.filter (fun x => negb (is_nan x)) l) as [|x l'] eqn:E.
  - left. split; [done|]. apply Forall_forall. intros y Hy.
    destruct (is_nan y) eqn:Hn; [done|].
    assert (In y (List.filter (fun x => negb (is_nan x)) l)) as Hin.
    { apply filter_In. split; [by apply list_elem_of_In|]. by rewrite Hn. }
    by rewrite E in Hin.
  - right.
    assert (Hall : forall y, y ∈ x :: l' <-> y ∈ l /\ is_nan y = false).
    { intros y. rewrite <- E, !list_elem_of_In, filter_In, negb_true_iff.
      done. }
    assert (is_nan x = false) as Hx by (apply Hall; left).
    assert (Forall (fun y => is_nan y = false) l') as Hl'.
    { apply Forall_forall. intros y Hy. apply Hall. by right. }
    destruct (fold_fmin_spec l' x Hx Hl') as [Hin Hle].
    apply Hall in Hin as [Hin Hn]. split; [done|]. split; [done|].
    intros y Hy Hny. apply Hle, Hall. done.
Qed.

(** The constructor's second test fails exactly when some result is zero,
    negative or [-inf]. *)
Lemma positive_test (l : list float64) :
  fleb (series_min l) (Fin 0) = true <->
  Exists (fun y => fleb y (Fin 0) = true) l.
Proof.
  destruct (series_min_cases l) as [[Hm Hnan]|(Hn & Hin & Hle)].
  - rewrite Hm. simpl. split; [done|]. intros H.
    apply Exists_exists in H as (y & Hy & H0).
    rewrite Forall_forall in Hnan. specialize (Hnan y Hy).
    by destruct y.
  - split.
    + intros H. apply Exists_exists. eauto.
    + intros H. apply Exists_exists in H as (y & Hy & H0).
      eapply fleb_trans; [|exact H0]. apply Hle; [done|]. by destruct y.
Qed.

Lemma np_where_none {T} (p : T -> bool) (l : list T) (k : nat) :
  Forall (fun x => p x = false) l -> np_where p k l = [].
Proof.
  revert k. induction l as [|x l IH]; intros k H; simpl; [done|].
  inversion H as [|? ? Hx Hl]; subst. rewrite Hx. by apply IH.
Qed.

(** A row whose result is [NaN] finds no limit in a table that has rows. *)
Lemma DL_index_NaN (t : list dlrow) (row : obs) :
  t <> [] -> res row = NaN -> _ros_DL_index t row = Raise IndexError.
Proof.
  intros Hne Hnan. unfold _ros_DL_index.
  destruct t as [|d t]; [done|].
  change (0 <? length (d :: t))%nat with true. cbv iota zeta.
  rewrite np_where_none; [done|].
  apply Forall_forall. intros d' _. rewrite Hnan. by destruct (DL d').
Qed.

Lemma DL_index_raises (t : list dlrow) (row : obs) (e : exn) :
  _ros_DL_index t row = Raise e -> e = IndexError.
Proof.
  unfold _ros_DL_index. destruct (0 <? length t)%nat; [|done].
  destruct (last _); [done|]. by intros [= <-].
Qed.

Lemma assign_DLIndex_NaN (t : list dlrow) (data : list obs) :
  t <> [] -> Exists (fun r => res r = NaN) data ->
  assign_DLIndex t data = Raise IndexError.
Proof.
  intros Hne H. unfold assign_DLIndex.
  induction H as [r l Hr|r l _ IH]; simpl.
  - by rewrite (DL_index_NaN t r Hne Hr).
  - destruct (_ros_DL_index t r) as [i|e] eqn:E; simpl.
    + by rewrite IH.
    + by rewrite (DL_index_raises t r e E).
Qed.

Lemma cohn_has_rows (data : list obs) :
  Exists (fun r => is_ND r = true) data -> cohn data <> [].
Proof.
  intros H. unfold cohn.
  assert (exists x l, map res (List.filter is_ND data) = x :: l) as (x & l & ->).
  { apply Exists_exists in H as (r & Hr & Hnd).
    assert (In r (List.filter is_ND data)) as Hin.
    { apply filter_In. split; [by apply list_elem_of_In|done]. }
    destruct (List.filter is_ND data) as [|r0 l0]; [done|]. simpl. eauto. }
  simpl. by destruct (map _ _).
Qed.

(** * The specification *)

(** C1.  On the regression path the constructor returns, and the table it
    leaves satisfies the backward recursion at every entry but the last:
    [PE[i] = PE[i+1] + A[i] / (A[i] + B[i]) * (1 - PE[i+1])], from the
    second-to-last entry down to the first; the last entry, the appended
    one, has [PE = 0]. *)
Theorem C1_backward_recursion
    (ppf np_log np_exp : float64 -> float64)
    (linregress : list float64 -> list float64 -> float64 * float64)
    (data : list obs) (ndsymbol : string) (fitlogs : bool) :
  valid data -> regression_path ndsymbol data ->
  exists o, __init__ ppf np_log np_exp linregress data ndsymbol fitlogs = OK o /\
    (forall i, (i + 1 < length (DLs o))%nat ->
       exists d d1, DLs o !! i = Some d /\ DLs o !! (i + 1)%nat = Some d1 /\
         PE d = fadd (PE d1)
                  (fmul (fdiv (A d) (fadd (A d) (B d))) (fsub (Fin 1) (PE d1)))) /\
    (exists s, last (DLs o) = Some s /\ PE s = Fin 0).
Proof.
  intros Hv Hp. destruct (valid_lift _ Hv) as (d0 & -> & Hd).
  apply regression_path_lift in Hp.
  destruct (ExactFacts.backward_recursion ppf np_log np_exp linregress
              d0 ndsymbol fitlogs Hd Hp) as (o & Ho & H1 & H2).
  exists (lift_MR o). split; [by apply init_of_exact|]. by split.
Qed.

Lemma C1_witness :
  valid example_data /\ regression_path "ND" example_data /\
  forall ppf np_log np_exp linregress,
    exists o, __init__ ppf np_log np_exp linregress example_data "ND" true = OK o /\
      (forall i, (i + 1 < length (DLs o))%nat ->
         exists d d1, DLs o !! i = Some d /\ DLs o !! (i + 1)%nat = Some d1 /\
           PE d = fadd (PE d1)
                    (fmul (fdiv (A d) (fadd (A d) (B d))) (fsub (Fin 1) (PE d1)))) /\
      (exists s, last (DLs o) = Some s /\ PE s = Fin 0).
Proof.
  split; [exact example_valid|]. split; [exact example_regression_path|].
  intros ppf np_log np_exp linregress.
  exact (C1_backward_recursion ppf np_log np_exp linregress example_data "ND" true
           example_valid example_regression_path).
Defined.

(** C2.  The constructor returns on every valid data set, and every entry
    of its table but the appended one carries the Cohn counts of the
    specification, taken over the input: [A] the detected observations with
    value in [lower, upper), [B] the observations below [lower] plus the
    censored ones at [lower], [C] the censored observations at [lower]. *)
Theorem C2_cohn_counts
    (ppf np_log np_exp : float64 -> float64)
    (linregress : list float64 -> list float64 -> float64 * float64)
    (data : list obs) (ndsymbol : string) (fitlogs : bool) :
  valid data ->
  exists o, __init__ ppf np_log np_exp linregress data ndsymbol fitlogs = OK o /\
    forall i d, (i + 1 < length (DLs o))%nat -> DLs o !! i = Some d ->
      A d = of_nat (spec_A ndsymbol data (lower d) (upper d)) /\
      B d = of_nat (spec_B ndsymbol data (lower d)) /\
      C d = of_nat (spec_C ndsymbol data (lower d)).
Proof.
  intros Hv. destruct (valid_lift _ Hv) as (d0 & -> & Hd).
  destruct (ExactFacts.cohn_counts ppf np_log np_exp linregress
              d0 ndsymbol fitlogs Hd) as (o & Ho & H).
  exists (lift_MR o). split; [by apply init_of_exact|].
  intros i d Hi Hrow.
  destruct (spec_counts_lift ndsymbol d0 (lower d) (upper d)) as (-> & -> & ->).
  exact (H i d Hi Hrow).
Qed.

Lemma C2_witness :
  valid example_data /\
  forall ppf np_log np_exp linregress,
    exists o, __init__ ppf np_log np_exp linregress example_data "ND" true = OK o /\
      forall i d, (i + 1 < length (DLs o))%nat -> DLs o !! i = Some d ->
        A d = of_nat (spec_A "ND" example_data (lower d) (upper d)) /\
        B d = of_nat (spec_B "ND" example_data (lower d)) /\
        C d = of_nat (spec_C "ND" example_data (lower d)).
Proof.
  split; [exact example_valid|].
  intros ppf np_log np_exp linregress.
  exact (C2_cohn_counts ppf np_log np_exp linregress example_data "ND" true
           example_valid).
Defined.

(** C6.  With at least one censored observation and fewer than two detected
    ones, or a censored fraction above 0.8, the constructor returns without
    a fit, and the row of every input observation holds half its value when
    it is censored and its value when it is detected. *)
Theorem C6_half_limit_fallback
    (ppf np_log np_exp : float64 -> float64)
    (linregress : list float64 -> list float64 -> float64 * float64)
    (input : list obs) (ndsymbol : string) (fitlogs : bool) :
  valid input -> fallback_path ndsymbol input ->
  exists o, __init__ ppf np_log np_exp linregress input ndsymbol fitlogs = OK o /\
    fit o = None /\
    length (data o) = length input /\
    forall x, x ∈ input ->
      exists r, r ∈ data o /\ f_index r = index x /\ f_res r = res x /\
        f_final_data r =
          if censored ndsymbol x then fmul (Fin (1 # 2)) (res x)
          else res x.
Proof.
  intros Hv Hp. destruct (valid_lift _ Hv) as (d0 & -> & Hd).
  apply fallback_path_lift in Hp.
  destruct (ExactFacts.half_limit_fallback ppf np_log np_exp linregress
              d0 ndsymbol fitlogs Hd Hp) as (o & Ho & Hfit & Hlen & Hrows).
  exists (lift_MR o). split; [by apply init_of_exact|]. split; [done|].
  split; [simpl; by rewrite !length_map|].
  intros x Hx. apply lifted_row in Hx as (x0 & -> & Hx0).
  destruct (Hrows x0 Hx0) as (r0 & Hr0 & Hi & Hres & Hfin).
  exists (lift_final_row r0). split; [by apply row_lifted|].
  simpl. split; [done|]. split; [by rewrite Hres|]. exact Hfin.
Qed.

Lemma C6_witness :
  valid few_detects_data /\ fallback_path "ND" few_detects_data /\
  forall ppf np_log np_exp linregress,
    exists o,
      __init__ ppf np_log np_exp linregress few_detects_data "ND" true = OK o /\
      fit o = None /\
      length (data o) = length few_detects_data /\
      forall x, x ∈ few_detects_data ->
        exists r, r ∈ data o /\ f_index r = index x /\ f_res r = res x /\
          f_final_data r =
            if censored "ND" x then fmul (Fin (1 # 2)) (res x)
            else res x.
Proof.
  split; [exact few_detects_valid|]. split; [exact few_detects_fallback_path|].
  intros ppf np_log np_exp linregress.
  exact (C6_half_limit_fallback ppf np_log np_exp linregress few_detects_data
           "ND" true few_detects_valid few_detects_fallback_path).
Defined.

(** C10.  On the fallback path nothing of the regression branch runs: the
    table is the one [cohn] built, every [PE] still 0, no fit is stored,
    and the frame is the ranked rows with the final_data column only, the
    plot_pos, Zprelim and modeled_data columns never assigned. *)
Theorem C10_fallback_frame
    (ppf np_log np_exp : float64 -> float64)
    (linregress : list float64 -> list float64 -> float64 * float64)
    (input : list obs) (ndsymbol : string) (fitlogs : bool) :
  valid input -> fallback_path ndsymbol input ->
  exists o w, __init__ ppf np_log np_exp linregress input ndsymbol fitlogs = OK o /\
    DLs o = cohn (canonical input ndsymbol) /\
    (forall d, d ∈ DLs o -> PE d = Fin 0) /\
    fit o = None /\
    assign_DLIndex (cohn (canonical input ndsymbol)) (canonical input ndsymbol)
      = OK w /\
    map rk (debug o) = _ros_ranks w (length input) /\
    (forall r, r ∈ debug o ->
       plot_pos r = None /\ Zprelim r = None /\ modeled_data r = None).
Proof.
  intros Hv Hp. destruct (valid_lift _ Hv) as (d0 & -> & Hd).
  apply fallback_path_lift in Hp.
  destruct (ExactFacts.fallback_frame ppf np_log np_exp linregress
              d0 ndsymbol fitlogs Hd Hp)
    as (o & w & Ho & HDLs & HPE & Hfit & Hw & Hrk & Hcols).
  exists (lift_MR o), (map lift_indexed w).
  split; [by apply init_of_exact|].
  rewrite canonical_lift, cohn_lift, assign_DLIndex_lift, Hw, length_map.
  split; [done|]. split; [done|]. split; [done|]. split; [done|]. split.
  - rewrite ros_ranks_lift, <- Hrk. simpl. by rewrite !map_map.
  - intros r Hr. apply lifted_row in Hr as (r0 & -> & Hr0).
    exact (Hcols r0 Hr0).
Qed.

Lemma C10_witness :
  valid few_detects_data /\ fallback_path "ND" few_detects_data /\
  forall ppf np_log np_exp linregress,
    exists o,
      __init__ ppf np_log np_exp linregress few_detects_data "ND" true = OK o /\
      (forall d, d ∈ DLs o -> PE d = Fin 0) /\
      fit o = None /\
      (forall r, r ∈ debug o ->
         plot_pos r = None /\ Zprelim r = None /\ modeled_data r = None).
Proof.
  split; [exact few_detects_valid|]. split; [exact few_detects_fallback_path|].
  intros ppf np_log np_exp linregress.
  destruct (C10_fallback_frame ppf np_log np_exp linregress few_detects_data
              "ND" true few_detects_valid few_detects_fallback_path)
    as (o & w & Ho & _ & HPE & Hfit & _ & _ & Hcols).
  exists o. auto.
Defined.

(** C7, as the code has it.  With no censored observation the constructor
    returns an empty table and no fit, never assigns the plot_pos, Zprelim
    and modeled_data columns, and gives every observation its own value as
    final value.  The DLIndex and rank columns are assigned all the same:
    DLIndex is 0 on every row and the raw rank is the position of the row
    in the sorted frame, counted from 1. *)
Theorem C7_no_censored
    (ppf np_log np_exp : float64 -> float64)
    (linregress : list float64 -> list float64 -> float64 * float64)
    (input : list obs) (ndsymbol : string) (fitlogs : bool) :
  valid input -> n_censored ndsymbol input = 0%nat ->
  exists o, __init__ ppf np_log np_exp linregress input ndsymbol fitlogs = OK o /\
    DLs o = [] /\ fit o = None /\
    (forall r, r ∈ debug o ->
       plot_pos r = None /\ Zprelim r = None /\ modeled_data r = None /\
       DLIndex r = 0%nat /\ final_data r = res r) /\
    (forall x, x ∈ input ->
       exists r, r ∈ data o /\ f_index r = index x /\
         f_final_data r = res x) /\
    (forall n (r : estimated), debug o !! n = Some r ->
       exists q, Norm_Ranks r = Fin q /\ q == inject_Z (Z.of_nat (n + 1))).
Proof.
  intros Hv H0. destruct (valid_lift _ Hv) as (d0 & -> & Hd).
  rewrite n_censored_lift in H0.
  destruct (ExactFacts.no_censored ppf np_log np_exp linregress
              d0 ndsymbol fitlogs Hd H0)
    as (o & Ho & HDLs & Hfit & Hcols & Hfin & Hrank).
  exists (lift_MR o). split; [by apply init_of_exact|].
  split; [done|]. split; [done|]. split; [|split].
  - intros r Hr. apply lifted_row in Hr as (r0 & -> & Hr0).
    exact (Hcols r0 Hr0).
  - intros x Hx. apply lifted_row in Hx as (x0 & -> & Hx0).
    destruct (Hfin x0 Hx0) as (r0 & Hr0 & Hi & Hf).
    exists (lift_final_row r0). split; [by apply row_lifted|]. by split.
  - intros n r Hr. apply lifted_lookup in Hr as (r0 & -> & Hr0).
    exact (Hrank n r0 Hr0).
Qed.

Lemma C7_witness :
  valid detects_only_data /\ n_censored "ND" detects_only_data = 0%nat /\
  forall ppf np_log np_exp linregress,
    exists o,
      __init__ ppf np_log np_exp linregress detects_only_data "ND" true = OK o /\
      DLs o = [] /\ fit o = None /\
      (forall x, x ∈ detects_only_data ->
         exists r, r ∈ data o /\ f_index r = index x /\
           f_final_data r = res x).
Proof.
  split; [exact detects_only_valid|]. split; [reflexivity|].
  intros ppf np_log np_exp linregress.
  destruct (C7_no_censored ppf np_log np_exp linregress detects_only_data
              "ND" true detects_only_valid eq_refl)
    as (o & Ho & HDL & Hfit & _ & Hfinal & _).
  exists o. auto.
Defined.

(** C7, as the specification states it, fails: with no censored observation the rank
    columns of the returned frame hold what the rank loop and the tie
    averaging computed. *)
Lemma C7_counterexample :
  n_censored "ND" detects_only_data = 0%nat /\
  forall ppf np_log np_exp linregress,
    exists o,
      __init__ ppf np_log np_exp linregress detects_only_data "ND" true = OK o /\
      map (fun r : estimated => (index r, Norm_Ranks r, Avg_Ranks r)) (debug o) =
        [ (1%Z, Fin 1, Fin 1); (0%Z, Fin 2, Fin 2);
          (2%Z, Fin 3, Fin (7 # 2)); (3%Z, Fin 4, Fin (7 # 2)) ].
Proof.
  split; [reflexivity|].
  intros ppf np_log np_exp linregress.
  eexists. split; [vm_compute; reflexivity|]. vm_compute. reflexivity.
Qed.

(** C4.  The frame the constructor returns holds the observations of the
    input, qualifiers standardised, in the order of [rosSort], each with
    the DLIndex [_ros_DL_index] gives it on the table of that sequence.  In
    it the raw rank of the first row is 1; the raw rank of any later row is
    the previous row's plus 1 when both its DLIndex and its censoring status
    are the previous row's, and 1 otherwise.  The averaged rank of a
    censored row is its raw rank; that of a detected row is the mean of the
    raw ranks of the detected rows with its DLIndex and its value, so that
    two such tied rows have the same averaged rank. *)
Theorem C4_rank_assignment
    (ppf np_log np_exp : float64 -> float64)
    (linregress : list float64 -> list float64 -> float64 * float64)
    (input : list obs) (ndsymbol : string) (fitlogs : bool) :
  valid input ->
  exists o, __init__ ppf np_log np_exp linregress input ndsymbol fitlogs = OK o /\
    map (fun r : estimated => ob (ix (rk r))) (debug o) =
      rosSort (map (standardize ndsymbol) input) ndsymbol /\
    (forall r : estimated, r ∈ debug o ->
       _ros_DL_index (cohn (rosSort (map (standardize ndsymbol) input) ndsymbol)) r
         = OK (DLIndex r)) /\
    (forall r : estimated, debug o !! 0%nat = Some r -> Norm_Ranks r = Fin 1) /\
    (forall (n : nat) (p r : estimated),
       debug o !! n = Some p -> debug o !! S n = Some r ->
       Norm_Ranks r =
         if (DLIndex r =? DLIndex p)%nat && Bool.eqb (is_ND r) (is_ND p)
         then fadd (Norm_Ranks p) (Fin 1) else Fin 1) /\
    (forall r : estimated, r ∈ debug o -> is_ND r = true ->
       Avg_Ranks r = Norm_Ranks r) /\
    (forall r : estimated, r ∈ debug o -> is_ND r = false ->
       Avg_Ranks r =
         mean (map (fun x : estimated => Norm_Ranks x)
                   (List.filter (fun x : estimated => tied_with r x) (debug o)))) /\
    (forall r1 r2 : estimated, r1 ∈ debug o -> r2 ∈ debug o ->
       is_ND r1 = false -> is_ND r2 = false ->
       DLIndex r1 = DLIndex r2 -> feqb (res r1) (res r2) = true ->
       Avg_Ranks r1 = Avg_Ranks r2).
Proof.
  intros Hv. destruct (valid_lift _ Hv) as (d0 & -> & Hd).
  destruct (ExactFacts.rank_assignment ppf np_log np_exp linregress
              d0 ndsymbol fitlogs Hd)
    as (o & Ho & Hfirst & Hnext & Hcens & Hdet & Htie).
  exists (lift_MR o). split; [by apply init_of_exact|].
  fold (canonical (map lift_obs d0) ndsymbol). rewrite canonical_lift, cohn_lift.
  split; [|split; [|split; [|split; [|split; [|split]]]]].
  - rewrite <- (ExactFacts.run_canonical ppf np_log np_exp linregress
                  d0 ndsymbol fitlogs o Ho).
    simpl. by rewrite !map_map.
  - intros r Hr. apply lifted_row in Hr as (r0 & -> & Hr0).
    exact (ExactFacts.run_DLIndex ppf np_log np_exp linregress
             d0 ndsymbol fitlogs o r0 Ho Hr0).
  - intros r Hr. apply lifted_lookup in Hr as (r0 & -> & Hr0).
    exact (Hfirst r0 Hr0).
  - intros n p r Hp Hr.
    apply lifted_lookup in Hp as (p0 & -> & Hp0).
    apply lifted_lookup in Hr as (r0 & -> & Hr0).
    exact (Hnext n p0 r0 Hp0 Hr0).
  - intros r Hr Hnd. apply lifted_row in Hr as (r0 & -> & Hr0).
    exact (Hcens r0 Hr0 Hnd).
  - intros r Hr Hnd. apply lifted_row in Hr as (r0 & -> & Hr0).
    simpl.
    rewrite (filter_map_comm lift_estimated _
               (fun x : Exact.estimated =>
                  Exact.tied_with (Exact.rk r0) (Exact.rk x))) by done.
    rewrite map_map. exact (Hdet r0 Hr0 Hnd).
  - intros r1 r2 Hr1 Hr2 Hn1 Hn2 HD Hres.
    apply lifted_row in Hr1 as (p1 & -> & Hp1).
    apply lifted_row in Hr2 as (p2 & -> & Hp2).
    apply (Htie p1 p2 Hp1 Hp2 Hn1 Hn2 HD).
    simpl in Hres. by apply Qeq_bool_iff.
Qed.

Lemma C4_witness :
  valid tied_data /\
  forall ppf np_log np_exp linregress,
    exists o, __init__ ppf np_log np_exp linregress tied_data "ND" true = OK o /\
      map (fun r : estimated => ob (ix (rk r))) (debug o) =
        rosSort (map (standardize "ND") tied_data) "ND" /\
      (forall r : estimated, debug o !! 0%nat = Some r -> Norm_Ranks r = Fin 1) /\
      (forall r1 r2 : estimated, r1 ∈ debug o -> r2 ∈ debug o ->
         is_ND r1 = false -> is_ND r2 = false ->
         DLIndex r1 = DLIndex r2 -> feqb (res r1) (res r2) = true ->
         Avg_Ranks r1 = Avg_Ranks r2).
Proof.
  split; [exact tied_valid|].
  intros ppf np_log np_exp linregress.
  destruct (C4_rank_assignment ppf np_log np_exp linregress tied_data "ND" true
              tied_valid) as (o & Ho & H0 & _ & H1 & _ & _ & _ & H5).
  exists o. auto.
Defined.

(** C3, as the code has it.  On the regression path every row of the frame
    has a plotting position, computed from the entry [i] of the table at
    its DLIndex (the last entry whose lower limit is at or below its value)
    and the entry [i + 1], with the row's raw rank for censored and for
    detected rows alike:
    [(1 - PE[i]) * rank / (C[i] + 1)] for a censored row,
    [(1 - PE[i]) + (PE[i] - PE[i+1]) * rank / (A[i] + 1)] for a detected one. *)
Theorem C3_plotting_position
    (ppf np_log np_exp : float64 -> float64)
    (linregress : list float64 -> list float64 -> float64 * float64)
    (input : list obs) (ndsymbol : string) (fitlogs : bool) :
  valid input -> regression_path ndsymbol input ->
  exists o, __init__ ppf np_log np_exp linregress input ndsymbol fitlogs = OK o /\
    forall r : estimated, r ∈ debug o ->
      exists dl_1 dl_2,
        DLs o !! DLIndex r = Some dl_1 /\
        DLs o !! (DLIndex r + 1)%nat = Some dl_2 /\
        fleb (lower dl_1) (res r) = true /\
        (forall j d, (DLIndex r < j)%nat -> DLs o !! j = Some d ->
           fleb (lower d) (res r) = false) /\
        plot_pos r =
          Some (if is_ND r
                then fdiv (fmul (fsub (Fin 1) (PE dl_1)) (Norm_Ranks r))
                          (fadd (C dl_1) (Fin 1))
                else fadd (fsub (Fin 1) (PE dl_1))
                          (fdiv (fmul (fsub (PE dl_1) (PE dl_2)) (Norm_Ranks r))
                                (fadd (A dl_1) (Fin 1)))).
Proof.
  intros Hv Hp. destruct (valid_lift _ Hv) as (d0 & -> & Hd).
  apply regression_path_lift in Hp.
  destruct (ExactFacts.plotting_position ppf np_log np_exp linregress
              d0 ndsymbol fitlogs Hd Hp) as (o & Ho & H).
  exists (lift_MR o). split; [by apply init_of_exact|].
  intros r Hr. apply lifted_row in Hr as (r0 & -> & Hr0).
  exact (H r0 Hr0).
Qed.

Lemma C3_witness :
  valid example_data /\ regression_path "ND" example_data /\
  forall ppf np_log np_exp linregress,
    exists o, __init__ ppf np_log np_exp linregress example_data "ND" true = OK o /\
      forall r : estimated, r ∈ debug o ->
        exists dl_1 dl_2,
          DLs o !! DLIndex r = Some dl_1 /\
          DLs o !! (DLIndex r + 1)%nat = Some dl_2 /\
          plot_pos r =
            Some (if is_ND r
                  then fdiv (fmul (fsub (Fin 1) (PE dl_1)) (Norm_Ranks r))
                            (fadd (C dl_1) (Fin 1))
                  else fadd (fsub (Fin 1) (PE dl_1))
                            (fdiv (fmul (fsub (PE dl_1) (PE dl_2)) (Norm_Ranks r))
                                  (fadd (A dl_1) (Fin 1)))).
Proof.
  split; [exact example_valid|]. split; [exact example_regression_path|].
  intros ppf np_log np_exp linregress.
  destruct (C3_plotting_position ppf np_log np_exp linregress example_data "ND"
              true example_valid example_regression_path) as (o & Ho & H).
  exists o. split; [exact Ho|]. intros r Hr.
  destruct (H r Hr) as (dl_1 & dl_2 & H1 & H2 & _ & _ & H3).
  exists dl_1, dl_2. auto.
Defined.

(** C3, as the specification states it, fails for a detected row whose value is tied:
    the third row of the frame of [tied_data] is the detected value 6 with
    raw rank 1 and averaged rank 3/2; its plotting position is 2/3, the
    value of the formula at the raw rank, where the averaged rank would
    give 3/4. *)
Lemma C3_counterexample :
  regression_path "ND" tied_data /\
  forall ppf np_log np_exp linregress,
    exists (o : MR) (r : estimated) (dl_1 dl_2 : dlrow) (v : float64),
      __init__ ppf np_log np_exp linregress tied_data "ND" true = OK o /\
      debug o !! 2%nat = Some r /\
      is_ND r = false /\
      feqb (Norm_Ranks r) (Fin 1) = true /\
      feqb (Avg_Ranks r) (Fin (3 # 2)) = true /\
      DLs o !! DLIndex r = Some dl_1 /\
      DLs o !! (DLIndex r + 1)%nat = Some dl_2 /\
      plot_pos r = Some v /\
      feqb v (Fin (2 # 3)) = true /\
      feqb (fadd (fsub (Fin 1) (PE dl_1))
                 (fdiv (fmul (fsub (PE dl_1) (PE dl_2)) (Avg_Ranks r))
                       (fadd (A dl_1) (Fin 1))))
           (Fin (3 # 4)) = true /\
      feqb v (fadd (fsub (Fin 1) (PE dl_1))
                   (fdiv (fmul (fsub (PE dl_1) (PE dl_2)) (Avg_Ranks r))
                         (fadd (A dl_1) (Fin 1)))) = false.
Proof.
  split; [exact tied_regression_path|].
  intros ppf np_log np_exp linregress.
  destruct (__init__ ppf np_log np_exp linregress tied_data "ND" true)
    as [o|e] eqn:E; vm_compute in E; [|discriminate].
  injection E as <-.
  eexists _, _, _, _, _. split; [reflexivity|].
  split; [reflexivity|]. repeat split; reflexivity.
Qed.

(** C5, what the code does when log-space fitting is switched off.  The
    line is fitted to the detected values themselves, and the final value
    of every censored row is still [np.exp(slope * Zprelim + intercept)]:
    the exponential is applied whatever [fitlogs] is.  Detected rows keep
    their value. *)
Theorem C5_exp_without_logs
    (ppf np_log np_exp : float64 -> float64)
    (linregress : list float64 -> list float64 -> float64 * float64)
    (input : list obs) (ndsymbol : string) :
  valid input -> regression_path ndsymbol input ->
  exists o slope intercept,
    __init__ ppf np_log np_exp linregress input ndsymbol false = OK o /\
    fit o = Some (slope, intercept) /\
    (slope, intercept) =
      linregress
        (map (fun r : estimated => default NaN (Zprelim r))
             (List.filter (fun r : estimated => is_detect r) (debug o)))
        (map (fun r : estimated => res r)
             (List.filter (fun r : estimated => is_detect r) (debug o))) /\
    (forall r : estimated, r ∈ debug o -> is_ND r = true ->
       exists z, Zprelim r = Some z /\
         final_data r = np_exp (fadd (fmul slope z) intercept)) /\
    (forall r : estimated, r ∈ debug o -> is_ND r = false ->
       final_data r = res r).
Proof.
  intros Hv Hp. destruct (valid_lift _ Hv) as (d0 & -> & Hd).
  apply regression_path_lift in Hp.
  destruct (ExactFacts.exp_without_logs ppf np_log np_exp linregress
              d0 ndsymbol Hd Hp)
    as (o & slope & intercept & Ho & Hfit & Hline & Hcens & Hdet).
  exists (lift_MR o), slope, intercept. split; [by apply init_of_exact|].
  split; [done|]. split; [|split].
  - simpl.
    rewrite (filter_map_comm lift_estimated _
               (fun r : Exact.estimated =>
                  Exact.is_detect (Exact.ob (Exact.ix (Exact.rk r))))) by done.
    rewrite !map_map. exact Hline.
  - intros r Hr Hnd. apply lifted_row in Hr as (r0 & -> & Hr0).
    exact (Hcens r0 Hr0 Hnd).
  - intros r Hr Hnd. apply lifted_row in Hr as (r0 & -> & Hr0).
    exact (Hdet r0 Hr0 Hnd).
Qed.

Lemma C5_witness :
  valid example_data /\ regression_path "ND" example_data /\
  forall ppf np_log np_exp linregress,
    exists o slope intercept,
      __init__ ppf np_log np_exp linregress example_data "ND" false = OK o /\
      fit o = Some (slope, intercept) /\
      (forall r : estimated, r ∈ debug o -> is_ND r = true ->
         exists z, Zprelim r = Some z /\
           final_data r = np_exp (fadd (fmul slope z) intercept)).
Proof.
  split; [exact example_valid|]. split; [exact example_regression_path|].
  intros ppf np_log np_exp linregress.
  destruct (C5_exp_without_logs ppf np_log np_exp linregress example_data "ND"
              example_valid example_regression_path)
    as (o & slope & intercept & Ho & Hfit & _ & Hcens & _).
  exists o, slope, intercept. auto.
Defined.

(** C8, as the code has it.  In the table of every returning run each
    [PE] is a number of the closed interval [0, 1], below 1 at every entry
    but the first, and the [PE] of the last entry, the appended one, is 0. *)
Theorem C8_PE_range
    (ppf np_log np_exp : float64 -> float64)
    (linregress : list float64 -> list float64 -> float64 * float64)
    (input : list obs) (ndsymbol : string) (fitlogs : bool) :
  valid input ->
  exists o, __init__ ppf np_log np_exp linregress input ndsymbol fitlogs = OK o /\
    (forall j d, DLs o !! j = Some d ->
       exists q, PE d = Fin q /\ 0 <= q /\ q <= 1 /\ ((1 <= j)%nat -> q < 1)) /\
    (forall s, last (DLs o) = Some s -> PE s = Fin 0).
Proof.
  intros Hv. destruct (valid_lift _ Hv) as (d0 & -> & Hd).
  destruct (ExactFacts.PE_range ppf np_log np_exp linregress
              d0 ndsymbol fitlogs Hd) as (o & Ho & H1 & H2).
  exists (lift_MR o). split; [by apply init_of_exact|]. by split.
Qed.

Lemma C8_witness :
  valid tied_data /\
  forall ppf np_log np_exp linregress,
    exists o, __init__ ppf np_log np_exp linregress tied_data "ND" true = OK o /\
      (forall j d, DLs o !! j = Some d ->
         exists q, PE d = Fin q /\ 0 <= q /\ q <= 1 /\ ((1 <= j)%nat -> q < 1)) /\
      (forall s, last (DLs o) = Some s -> PE s = Fin 0).
Proof.
  split; [exact tied_valid|].
  intros ppf np_log np_exp linregress.
  exact (C8_PE_range ppf np_log np_exp linregress tied_data "ND" true tied_valid).
Defined.

(** C8, as the specification states it, fails: in [tied_data] the smallest result, 3,
    is detected and lies below the only censored value, so it is stacked in
    front of the limits with [B = 0], and its [PE] is exactly 1. *)
Lemma C8_counterexample :
  regression_path "ND" tied_data /\
  forall ppf np_log np_exp linregress,
    exists (o : MR) (d : dlrow),
      __init__ ppf np_log np_exp linregress tied_data "ND" true = OK o /\
      DLs o !! 0%nat = Some d /\
      feqb (lower d) (Fin 3) = true /\
      feqb (B d) (Fin 0) = true /\
      feqb (PE d) (Fin 1) = true /\
      fltb (PE d) (Fin 1) = false.
Proof.
  split; [exact tied_regression_path|].
  intros ppf np_log np_exp linregress.
  destruct (__init__ ppf np_log np_exp linregress tied_data "ND" true)
    as [o|e] eqn:E; vm_compute in E; [|discriminate].
  injection E as <-.
  eexists _, _. split; [reflexivity|].
  split; [reflexivity|]. repeat split; reflexivity.
Qed.

(** C9, as the code has it.  The code has no degenerate-estimation error
    and no test for one.  On data whose results are finite positive numbers
    the conditions do not arise: the constructor returns, every entry of
    its table but the appended one has counts [A] and [B] with
    [A + B >= 1], so the recursion never divides by zero, and every
    plotting position it assigns is a number strictly between 0 and 1. *)
Theorem C9_no_degenerate_run
    (ppf np_log np_exp : float64 -> float64)
    (linregress : list float64 -> list float64 -> float64 * float64)
    (input : list obs) (ndsymbol : string) (fitlogs : bool) :
  valid input ->
  exists o, __init__ ppf np_log np_exp linregress input ndsymbol fitlogs = OK o /\
    (forall j d, (j + 1 < length (DLs o))%nat -> DLs o !! j = Some d ->
       exists a b : nat, A d = of_nat a /\ B d = of_nat b /\ (1 <= a + b)%nat) /\
    (forall (r : estimated) (v : float64), r ∈ debug o -> plot_pos r = Some v ->
       exists q, v = Fin q /\ 0 < q /\ q < 1).
Proof.
  intros Hv. destruct (valid_lift _ Hv) as (d0 & -> & Hd).
  destruct (ExactFacts.no_degenerate_run ppf np_log np_exp linregress
              d0 ndsymbol fitlogs Hd) as (o & Ho & H1 & H2).
  exists (lift_MR o). split; [by apply init_of_exact|]. split; [done|].
  intros r v Hr Hv'. apply lifted_row in Hr as (r0 & -> & Hr0).
  exact (H2 r0 v Hr0 Hv').
Qed.

Lemma C9_witness :
  valid example_data /\
  forall ppf np_log np_exp linregress,
    exists o, __init__ ppf np_log np_exp linregress example_data "ND" true = OK o /\
      (forall j d, (j + 1 < length (DLs o))%nat -> DLs o !! j = Some d ->
         exists a b : nat, A d = of_nat a /\ B d = of_nat b /\ (1 <= a + b)%nat) /\
      (forall (r : estimated) (v : float64), r ∈ debug o -> plot_pos r = Some v ->
         exists q, v = Fin q /\ 0 < q /\ q < 1).
Proof.
  split; [exact example_valid|].
  intros ppf np_log np_exp linregress.
  exact (C9_no_degenerate_run ppf np_log np_exp linregress example_data "ND" true
           example_valid).
Defined.

(** C9, as the specification states it, fails on [inf_data]: every result
    is positive, so the constructor's test passes and the regression runs;
    the detected result [inf] gets the DLIndex of the limit 5, is not
    counted in that limit's [A] (it is not below the upper bound [inf]) and
    has raw rank 2, which gives the plotting position
    [2/3 + 1/3 * 2 / (1 + 1) = 1].  The constructor returns it; nothing is
    raised. *)
Lemma C9_counterexample :
  fleb (series_min (map res inf_data)) (Fin 0) = false /\
  forall ppf np_log np_exp linregress,
    exists (o : MR) (r : estimated) (d : dlrow) (v : float64),
      __init__ ppf np_log np_exp linregress inf_data "ND" true = OK o /\
      debug o !! 3%nat = Some r /\
      res r = PInf /\
      DLs o !! DLIndex r = Some d /\
      feqb (lower d) (Fin 5) = true /\
      feqb (A d) (Fin 1) = true /\
      feqb (Norm_Ranks r) (Fin 2) = true /\
      plot_pos r = Some v /\
      feqb v (Fin 1) = true /\
      Zprelim r = Some (ppf v).
Proof.
  split; [reflexivity|].
  intros ppf np_log np_exp linregress.
  destruct (__init__ ppf np_log np_exp linregress inf_data "ND" true)
    as [o|e] eqn:E; vm_compute in E; [|discriminate].
  injection E as <-.
  eexists _, _, _, _. split; [reflexivity|].
  split; [reflexivity|]. repeat split; reflexivity.
Qed.

(** * Further properties of the code *)

(** ** The tests of the constructor *)

(** X1.  The argument being a DataFrame with float results: a repeated
    index label makes the constructor raise the ValueError about the index,
    whatever the results are.  With a unique index, a
    result that is zero, negative or [-inf] makes it raise the ValueError
    about positive results.  A [NaN] result passes that test, [min()]
    skipping it: with a unique index, no result at or below zero, a [NaN]
    result and a censored observation, the constructor raises the
    IndexError of [index[-1]] on an empty selection.  When it returns, the
    index is unique and no result is at or below zero. *)
Theorem X1_constructor_errors
    (ppf np_log np_exp : float64 -> float64)
    (linregress : list float64 -> list float64 -> float64 * float64)
    (input : list obs) (ndsymbol : string) (fitlogs : bool) :
  (~ NoDup (map index input) ->
   __init__ ppf np_log np_exp linregress input ndsymbol fitlogs =
     Raise (ValueError "Index of input DataFrame `data` must be unique")) /\
  (NoDup (map index input) ->
   Exists (fun r => fleb (res r) (Fin 0) = true) input ->
   __init__ ppf np_log np_exp linregress input ndsymbol fitlogs =
     Raise (ValueError "All result values of `data` must be positive")) /\
  (NoDup (map index input) ->
   Forall (fun r => fleb (res r) (Fin 0) = false) input ->
   Exists (fun r => res r = NaN) input ->
   (0 < n_censored ndsymbol input)%nat ->
   __init__ ppf np_log np_exp linregress input ndsymbol fitlogs =
     Raise IndexError) /\
  (forall o,
   __init__ ppf np_log np_exp linregress input ndsymbol fitlogs = OK o ->
   NoDup (map index input) /\
   Forall (fun r => fleb (res r) (Fin 0) = false) input).
Proof.
  assert (Htest : fleb (series_min (map res input)) (Fin 0) = true <->
                  Exists (fun r => fleb (res r) (Fin 0) = true) input).
  { rewrite positive_test, !Exists_exists. split.
    - intros (y & Hy & H0). apply list_elem_of_In, in_map_iff in Hy as (r & <- & Hr).
      exists r. split; [by apply list_elem_of_In|done].
    - intros (r & Hr & H0). exists (res r). split; [|done].
      by apply list_elem_of_In, in_map, list_elem_of_In. }
  assert (Hpass : Forall (fun r => fleb (res r) (Fin 0) = false) input ->
                  fleb (series_min (map res input)) (Fin 0) = false).
  { intros Hall. apply not_true_is_false. intros E.
    apply Htest, Exists_exists in E as (r & Hr & H0).
    rewrite Forall_forall in Hall. rewrite (Hall r Hr) in H0. done. }
  unfold __init__. split; [|split; [|split]].
  - intros Hnd. by rewrite bool_decide_eq_false_2.
  - intros Hnd Hex. rewrite bool_decide_eq_true_2 by done. simpl.
    apply Htest in Hex. by rewrite Hex.
  - intros Hnd Hall Hnan Hc. rewrite bool_decide_eq_true_2 by done. simpl.
    rewrite Hpass by done. cbv zeta.
    set (sorted := rosSort (map (standardize ndsymbol) input) ndsymbol).
    rewrite (assign_DLIndex_NaN (cohn sorted) sorted); [done| |].
    + apply cohn_has_rows, Exists_exists.
      assert (exists x, x ∈ input /\ censored ndsymbol x = true) as (x & Hx & Hcx).
      { unfold n_censored, count in Hc.
        destruct (List.filter (censored ndsymbol) input) as [|x l] eqn:E;
          [simpl in Hc; lia|].
        assert (In x (List.filter (censored ndsymbol) input)) as Hin
          by (rewrite E; left; done).
        apply filter_In in Hin as [Hin Hcx]. exists x.
        split; [by apply list_elem_of_In|done]. }
      exists (standardize ndsymbol x). split.
      * unfold sorted. rewrite rosSort_keeps.
        by apply list_elem_of_In, in_map, list_elem_of_In.
      * unfold is_ND, standardize. simpl. unfold censored in Hcx. by rewrite Hcx.
    + apply Exists_exists in Hnan as (r & Hr & Hres).
      apply Exists_exists. exists (standardize ndsymbol r). split; [|done].
      unfold sorted. rewrite rosSort_keeps.
      by apply list_elem_of_In, in_map, list_elem_of_In.
  - intros o H.
    destruct (bool_decide (NoDup (map index input))) eqn:E1; [|done].
    apply bool_decide_eq_true in E1. split; [done|]. simpl in H.
    destruct (fleb (series_min (map res input)) (Fin 0)) eqn:E2; [done|].
    apply Forall_forall. intros r Hr.
    destruct (fleb (res r) (Fin 0)) eqn:E3; [|done].
    assert (false = true) as E4; [|done].
    apply Htest, Exists_exists. eauto.
Qed.

Lemma X1_witness :
  NoDup (map index nan_data) /\
  Forall (fun r => fleb (res r) (Fin 0) = false) nan_data /\
  Exists (fun r => res r = NaN) nan_data /\
  (0 < n_censored "ND" nan_data)%nat /\
  forall ppf np_log np_exp linregress,
    __init__ ppf np_log np_exp linregress nan_data "ND" true = Raise IndexError.
Proof.
  assert (NoDup (map index nan_data)) as H1.
  { apply (bool_decide_unpack _). by vm_compute. }
  assert (Forall (fun r => fleb (res r) (Fin 0) = false) nan_data) as H2.
  { repeat constructor. }
  assert (Exists (fun r => res r = NaN) nan_data) as H3.
  { right. left. reflexivity. }
  assert (0 < n_censored "ND" nan_data)%nat as H4.
  { vm_compute. lia. }
  split; [exact H1|]. split; [exact H2|]. split; [exact H3|]. split; [exact H4|].
  intros ppf np_log np_exp linregress.
  exact (proj1 (proj2 (proj2
           (X1_constructor_errors ppf np_log np_exp linregress nan_data "ND" true)))
           H1 H2 H3 H4).
Defined.

(** ** rosSort *)

(** X2.  [rosSort] returns the rows of its argument, none lost and none
    repeated: first those whose qualifier is the symbol, then the others,
    each part in ascending order of result, [NaN] results last. *)
Theorem X2_rosSort_order (dataframe : list obs) (ndsymbol : string) :
  exists nondetects detects,
    rosSort dataframe ndsymbol = nondetects ++ detects /\
    nondetects ++ detects ≡ₚ dataframe /\
    Forall (fun r => qual r = ndsymbol) nondetects /\
    Forall (fun r => qual r <> ndsymbol) detects /\
    StronglySorted (fun a b => sort_le (res a) (res b) = true) nondetects /\
    StronglySorted (fun a b => sort_le (res a) (res b) = true) detects.
Proof.
  eexists _, _. split; [reflexivity|]. split; [apply rosSort_keeps|].
  split; [|split; [|split]]; try apply sort_res_ascending.
  - apply Forall_forall. intros r Hr. rewrite sort_res_keeps in Hr.
    apply list_elem_of_In, filter_In in Hr as [_ Hr]. by apply String.eqb_eq.
  - apply Forall_forall. intros r Hr. rewrite sort_res_keeps in Hr.
    apply list_elem_of_In, filter_In in Hr as [_ Hr].
    apply negb_true_iff in Hr. by apply String.eqb_neq.
Qed.

(** ** The order of the returned frame *)

(** X3.  With the symbol 'ND' the frame the constructor returns has its
    [N_nd] censored rows first and its detected rows after them, and within
    each of the two groups the results ascend. *)
Theorem X3_frame_censored_first
    (ppf np_log np_exp : float64 -> float64)
    (linregress : list float64 -> list float64 -> float64 * float64)
    (input : list obs) (fitlogs : bool) :
  valid input ->
  exists o, __init__ ppf np_log np_exp linregress input "ND" fitlogs = OK o /\
    (forall (n : nat) (r : estimated), debug o !! n = Some r ->
       (is_ND r = true <-> (n < N_nd o)%nat)) /\
    (forall (m n : nat) (r1 r2 : estimated), (m < n)%nat ->
       debug o !! m = Some r1 -> debug o !! n = Some r2 ->
       is_ND r1 = is_ND r2 -> fleb (res r1) (res r2) = true).
Proof.
  intros Hv. destruct (valid_lift _ Hv) as (d0 & -> & Hd).
  destruct (ExactFacts.frame_censored_first ppf np_log np_exp linregress
              d0 fitlogs Hd) as (o & Ho & H1 & H2).
  exists (lift_MR o). split; [by apply init_of_exact|]. split.
  - intros n r Hr. apply lifted_lookup in Hr as (r0 & -> & Hr0).
    exact (H1 n r0 Hr0).
  - intros m n r1 r2 Hmn Hr1 Hr2 Hnd.
    apply lifted_lookup in Hr1 as (p1 & -> & Hp1).
    apply lifted_lookup in Hr2 as (p2 & -> & Hp2).
    simpl. apply Qle_bool_iff. exact (H2 m n p1 p2 Hmn Hp1 Hp2 Hnd).
Qed.

Lemma X3_witness :
  valid example_data /\
  forall ppf np_log np_exp linregress,
    exists o, __init__ ppf np_log np_exp linregress example_data "ND" true = OK o /\
      (forall (n : nat) (r : estimated), debug o !! n = Some r ->
         (is_ND r = true <-> (n < N_nd o)%nat)) /\
      (forall (m n : nat) (r1 r2 : estimated), (m < n)%nat ->
         debug o !! m = Some r1 -> debug o !! n = Some r2 ->
         is_ND r1 = is_ND r2 -> fleb (res r1) (res r2) = true).
Proof.
  split; [exact example_valid|].
  intros ppf np_log np_exp linregress.
  exact (X3_frame_censored_first ppf np_log np_exp linregress example_data true
           example_valid).
Defined.

(** X4.  With a non-detect symbol other than 'ND' and '=' the qualifiers
    are standardised before [rosSort] is called with the caller's symbol,
    which no row carries any more: the frame the constructor returns is all
    the rows in one ascending order of result, the censored rows not moved
    to the top. *)
Theorem X4_frame_other_symbol
    (ppf np_log np_exp : float64 -> float64)
    (linregress : list float64 -> list float64 -> float64 * float64)
    (input : list obs) (ndsymbol : string) (fitlogs : bool) :
  valid input -> ndsymbol <> "ND" -> ndsymbol <> "=" ->
  exists o, __init__ ppf np_log np_exp linregress input ndsymbol fitlogs = OK o /\
    forall (m n : nat) (r1 r2 : estimated), (m < n)%nat ->
      debug o !! m = Some r1 -> debug o !! n = Some r2 ->
      fleb (res r1) (res r2) = true.
Proof.
  intros Hv Hn1 Hn2. destruct (valid_lift _ Hv) as (d0 & -> & Hd).
  destruct (ExactFacts.frame_other_symbol ppf np_log np_exp linregress
              d0 ndsymbol fitlogs Hd Hn1 Hn2) as (o & Ho & H).
  exists (lift_MR o). split; [by apply init_of_exact|].
  intros m n r1 r2 Hmn Hr1 Hr2.
  apply lifted_lookup in Hr1 as (p1 & -> & Hp1).
  apply lifted_lookup in Hr2 as (p2 & -> & Hp2).
  simpl. apply Qle_bool_iff. exact (H m n p1 p2 Hmn Hp1 Hp2).
Qed.

Lemma X4_witness :
  valid lt_symbol_data /\ "<" <> "ND" /\ "<" <> "=" /\
  forall ppf np_log np_exp linregress,
    exists o, __init__ ppf np_log np_exp linregress lt_symbol_data "<" true = OK o /\
      forall (m n : nat) (r1 r2 : estimated), (m < n)%nat ->
        debug o !! m = Some r1 -> debug o !! n = Some r2 ->
        fleb (res r1) (res r2) = true.
Proof.
  split; [exact lt_symbol_valid|]. split; [discriminate|]. split; [discriminate|].
  intros ppf np_log np_exp linregress.
  exact (X4_frame_other_symbol ppf np_log np_exp linregress lt_symbol_data "<" true
           lt_symbol_valid ltac:(discriminate) ltac:(discriminate)).
Defined.

(** ** The table of detection limits *)

(** X5.  On data whose results are finite positive numbers, the entries of
    the returned table before the appended row have finite, strictly
    increasing lower limits; each one's DL is its lower limit and its upper
    limit is the next entry's lower limit, infinity for the last of them.
    The appended row holds NaN in every column but PE, which is 0. *)
Theorem X5_table_intervals
    (ppf np_log np_exp : float64 -> float64)
    (linregress : list float64 -> list float64 -> float64 * float64)
    (input : list obs) (ndsymbol : string) (fitlogs : bool) :
  valid input ->
  exists o, __init__ ppf np_log np_exp linregress input ndsymbol fitlogs = OK o /\
    (forall i d, (i + 1 < length (DLs o))%nat -> DLs o !! i = Some d ->
       exists lo, DL d = Fin lo /\ lower d = Fin lo /\
         (((i + 2)%nat = length (DLs o) /\ upper d = PInf) \/
          (exists d' lo', (i + 2 < length (DLs o))%nat /\
             DLs o !! (i + 1)%nat = Some d' /\ lower d' = Fin lo' /\
             upper d = Fin lo' /\ lo < lo'))) /\
    (forall s, last (DLs o) = Some s -> s = nan_row).
Proof.
  intros Hv. destruct (valid_lift _ Hv) as (d0 & -> & Hd).
  destruct (ExactFacts.table_intervals ppf np_log np_exp linregress
              d0 ndsymbol fitlogs Hd) as (o & Ho & H1 & H2).
  exists (lift_MR o). split; [by apply init_of_exact|]. by split.
Qed.

Lemma X5_witness :
  valid tied_data /\
  forall ppf np_log np_exp linregress,
    exists o, __init__ ppf np_log np_exp linregress tied_data "ND" true = OK o /\
      (forall i d, (i + 1 < length (DLs o))%nat -> DLs o !! i = Some d ->
         exists lo, DL d = Fin lo /\ lower d = Fin lo /\
           (((i + 2)%nat = length (DLs o) /\ upper d = PInf) \/
            (exists d' lo', (i + 2 < length (DLs o))%nat /\
               DLs o !! (i + 1)%nat = Some d' /\ lower d' = Fin lo' /\
               upper d = Fin lo' /\ lo < lo'))) /\
      (forall s, last (DLs o) = Some s -> s = nan_row).
Proof.
  split; [exact tied_valid|].
  intros ppf np_log np_exp linregress.
  exact (X5_table_intervals ppf np_log np_exp linregress tied_data "ND" true
           tied_valid).
Defined.

(** X6.  Every censored value of the input is the lower limit of an entry
    of the returned table, whose [C] counts it.  Conversely the lower limit
    of an entry is a censored value of the input, except that the first
    entry may be the smallest result of the data: a result of the input
    that is at or below every result, with [B = 0]. *)
Theorem X6_limits_are_censored_values
    (ppf np_log np_exp : float64 -> float64)
    (linregress : list float64 -> list float64 -> float64 * float64)
    (input : list obs) (ndsymbol : string) (fitlogs : bool) :
  valid input ->
  exists o, __init__ ppf np_log np_exp linregress input ndsymbol fitlogs = OK o /\
    (forall x, x ∈ input -> censored ndsymbol x = true ->
       exists i d (c : nat), (i + 1 < length (DLs o))%nat /\
         DLs o !! i = Some d /\ feqb (res x) (lower d) = true /\
         C d = of_nat c /\ (1 <= c)%nat) /\
    (forall i d, (i + 1 < length (DLs o))%nat -> DLs o !! i = Some d ->
       (exists x, x ∈ input /\ censored ndsymbol x = true /\
          lower d = res x) \/
       (i = 0%nat /\ B d = of_nat 0 /\
        (exists x, x ∈ input /\ lower d = res x) /\
        forall x, x ∈ input -> fleb (lower d) (res x) = true)).
Proof.
  intros Hv. destruct (valid_lift _ Hv) as (d0 & -> & Hd).
  destruct (ExactFacts.limits_are_censored_values ppf np_log np_exp linregress
              d0 ndsymbol fitlogs Hd) as (o & Ho & H1 & H2).
  exists (lift_MR o). split; [by apply init_of_exact|]. split.
  - intros x Hx Hc. apply lifted_row in Hx as (x0 & -> & Hx0).
    exact (H1 x0 Hx0 Hc).
  - intros i d Hi Hrow.
    destruct (H2 i d Hi Hrow)
      as [(x0 & Hx0 & Hc & Hlow)|(-> & HB & (x0 & Hx0 & Hlow) & Hall)].
    + left. exists (lift_obs x0). split; [by apply row_lifted|]. by split.
    + right. split; [done|]. split; [done|]. split.
      * exists (lift_obs x0). split; [by apply row_lifted|done].
      * intros x Hx. apply lifted_row in Hx as (x1 & -> & Hx1).
        exact (Hall x1 Hx1).
Qed.

Lemma X6_witness :
  valid tied_data /\
  forall ppf np_log np_exp linregress,
    exists o, __init__ ppf np_log np_exp linregress tied_data "ND" true = OK o /\
      (forall x, x ∈ tied_data -> censored "ND" x = true ->
         exists i d (c : nat), (i + 1 < length (DLs o))%nat /\
           DLs o !! i = Some d /\ feqb (res x) (lower d) = true /\
           C d = of_nat c /\ (1 <= c)%nat) /\
      (forall i d, (i + 1 < length (DLs o))%nat -> DLs o !! i = Some d ->
         (exists x, x ∈ tied_data /\ censored "ND" x = true /\
            lower d = res x) \/
         (i = 0%nat /\ B d = of_nat 0 /\
          (exists x, x ∈ tied_data /\ lower d = res x) /\
          forall x, x ∈ tied_data -> fleb (lower d) (res x) = true)).
Proof.
  split; [exact tied_valid|].
  intros ppf np_log np_exp linregress.
  exact (X6_limits_are_censored_values ppf np_log np_exp linregress tied_data
           "ND" true tied_valid).
Defined.

(** ** Each row against the entry at its DLIndex *)

(** X7.  On data whose results are finite positive numbers, one of them
    censored, the DLIndex of every row of the returned frame points at an
    entry of the table before the appended one, and the row's value lies in
    that entry's interval: at or above its lower limit and below its upper
    limit. *)
Theorem X7_DLIndex_interval
    (ppf np_log np_exp : float64 -> float64)
    (linregress : list float64 -> list float64 -> float64 * float64)
    (input : list obs) (ndsymbol : string) (fitlogs : bool) :
  valid input -> (0 < n_censored ndsymbol input)%nat ->
  exists o, __init__ ppf np_log np_exp linregress input ndsymbol fitlogs = OK o /\
    forall r : estimated, r ∈ debug o ->
      exists d, (DLIndex r + 1 < length (DLs o))%nat /\
        DLs o !! DLIndex r = Some d /\
        fleb (lower d) (res r) = true /\
        fltb (res r) (upper d) = true.
Proof.
  intros Hv Hc. destruct (valid_lift _ Hv) as (d0 & -> & Hd).
  rewrite n_censored_lift in Hc.
  destruct (ExactFacts.DLIndex_interval ppf np_log np_exp linregress
              d0 ndsymbol fitlogs Hd Hc) as (o & Ho & H).
  exists (lift_MR o). split; [by apply init_of_exact|].
  intros r Hr. apply lifted_row in Hr as (r0 & -> & Hr0).
  exact (H r0 Hr0).
Qed.

(** X8.  A censored row of the returned frame sits exactly at the lower
    limit of the entry at its DLIndex. *)
Theorem X8_censored_at_limit
    (ppf np_log np_exp : float64 -> float64)
    (linregress : list float64 -> list float64 -> float64 * float64)
    (input : list obs) (ndsymbol : string) (fitlogs : bool) :
  valid input ->
  exists o, __init__ ppf np_log np_exp linregress input ndsymbol fitlogs = OK o /\
    forall r : estimated, r ∈ debug o -> is_ND r = true ->
      exists d, DLs o !! DLIndex r = Some d /\
        feqb (res r) (lower d) = true.
Proof.
  intros Hv. destruct (valid_lift _ Hv) as (d0 & -> & Hd).
  destruct (ExactFacts.censored_at_limit ppf np_log np_exp linregress
              d0 ndsymbol fitlogs Hd) as (o & Ho & H).
  exists (lift_MR o). split; [by apply init_of_exact|].
  intros r Hr Hnd. apply lifted_row in Hr as (r0 & -> & Hr0).
  exact (H r0 Hr0 Hnd).
Qed.

(** X9.  On data whose results are finite positive numbers, one of them
    censored, the raw rank of every row of the returned frame is a whole
    number from 1 up to the count of its entry: [C] for a censored row, [A]
    for a detected one. *)
Theorem X9_rank_within_count
    (ppf np_log np_exp : float64 -> float64)
    (linregress : list float64 -> list float64 -> float64 * float64)
    (input : list obs) (ndsymbol : string) (fitlogs : bool) :
  valid input -> (0 < n_censored ndsymbol input)%nat ->
  exists o, __init__ ppf np_log np_exp linregress input ndsymbol fitlogs = OK o /\
    forall r : estimated, r ∈ debug o ->
      exists d (k n : nat) (q : Q),
        DLs o !! DLIndex r = Some d /\
        Norm_Ranks r = Fin q /\ q == inject_Z (Z.of_nat k) /\
        (if is_ND r then C d else A d) = of_nat n /\
        (1 <= k <= n)%nat.
Proof.
  intros Hv Hc. destruct (valid_lift _ Hv) as (d0 & -> & Hd).
  rewrite n_censored_lift in Hc.
  destruct (ExactFacts.rank_within_count ppf np_log np_exp linregress
              d0 ndsymbol fitlogs Hd Hc) as (o & Ho & H).
  exists (lift_MR o). split; [by apply init_of_exact|].
  intros r Hr. apply lifted_row in Hr as (r0 & -> & Hr0).
  exact (H r0 Hr0).
Qed.

Lemma X7_witness :
  valid example_data /\ (0 < n_censored "ND" example_data)%nat /\
  forall ppf np_log np_exp linregress,
    exists o, __init__ ppf np_log np_exp linregress example_data "ND" true = OK o /\
      forall r : estimated, r ∈ debug o ->
        exists d, (DLIndex r + 1 < length (DLs o))%nat /\
          DLs o !! DLIndex r = Some d /\
          fleb (lower d) (res r) = true /\
          fltb (res r) (upper d) = true.
Proof.
  split; [exact example_valid|]. split; [exact example_censored|].
  intros ppf np_log np_exp linregress.
  exact (X7_DLIndex_interval ppf np_log np_exp linregress example_data "ND" true
           example_valid example_censored).
Defined.

Lemma X8_witness :
  valid example_data /\
  forall ppf np_log np_exp linregress,
    exists o, __init__ ppf np_log np_exp linregress example_data "ND" true = OK o /\
      forall r : estimated, r ∈ debug o -> is_ND r = true ->
        exists d, DLs o !! DLIndex r = Some d /\
          feqb (res r) (lower d) = true.
Proof.
  split; [exact example_valid|].
  intros ppf np_log np_exp linregress.
  exact (X8_censored_at_limit ppf np_log np_exp linregress example_data "ND" true
           example_valid).
Defined.

Lemma X9_witness :
  valid example_data /\ (0 < n_censored "ND" example_data)%nat /\
  forall ppf np_log np_exp linregress,
    exists o, __init__ ppf np_log np_exp linregress example_data "ND" true = OK o /\
      forall r : estimated, r ∈ debug o ->
        exists d (k n : nat) (q : Q),
          DLs o !! DLIndex r = Some d /\
          Norm_Ranks r = Fin q /\ q == inject_Z (Z.of_nat k) /\
          (if is_ND r then C d else A d) = of_nat n /\
          (1 <= k <= n)%nat.
Proof.
  split; [exact example_valid|]. split; [exact example_censored|].
  intros ppf np_log np_exp linregress.
  exact (X9_rank_within_count ppf np_log np_exp linregress example_data "ND" true
           example_valid example_censored).
Defined.

(** ** The exceedance probabilities *)

(** X10.  Along the returned table the exceedance probability never
    increases with the index: each entry's [PE] is at least the next
    entry's. *)
Theorem X10_PE_nonincreasing
    (ppf np_log np_exp : float64 -> float64)
    (linregress : list float64 -> list float64 -> float64 * float64)
    (input : list obs) (ndsymbol : string) (fitlogs : bool) :
  valid input ->
  exists o, __init__ ppf np_log np_exp linregress input ndsymbol fitlogs = OK o /\
    forall i d d1, DLs o !! i = Some d -> DLs o !! (i + 1)%nat = Some d1 ->
      exists p p1, PE d = Fin p /\ PE d1 = Fin p1 /\ p1 <= p.
Proof.
  intros Hv. destruct (valid_lift _ Hv) as (d0 & -> & Hd).
  destruct (ExactFacts.PE_nonincreasing ppf np_log np_exp linregress
              d0 ndsymbol fitlogs Hd) as (o & Ho & H).
  exists (lift_MR o). split; [by apply init_of_exact|]. exact H.
Qed.

Lemma X10_witness :
  valid example_data /\
  forall ppf np_log np_exp linregress,
    exists o, __init__ ppf np_log np_exp linregress example_data "ND" true = OK o /\
      forall i d d1, DLs o !! i = Some d -> DLs o !! (i + 1)%nat = Some d1 ->
        exists p p1, PE d = Fin p /\ PE d1 = Fin p1 /\ p1 <= p.
Proof.
  split; [exact example_valid|].
  intros ppf np_log np_exp linregress.
  exact (X10_PE_nonincreasing ppf np_log np_exp linregress example_data "ND" true
           example_valid).
Defined.

(** X11.  The loop that fills PE changes no other column, keeps the number
    of rows and leaves the last row as it was. *)
Theorem X11_PE_loop_frame (t : list dlrow) :
  length (compute_PE t) = length t /\
  last (compute_PE t) = last t /\
  forall j d', compute_PE t !! j = Some d' ->
    exists d, t !! j = Some d /\
      DL d' = DL d /\ lower d' = lower d /\ upper d' = upper d /\
      A d' = A d /\ B d' = B d /\ C d' = C d.
Proof.
  destruct (ExactFacts.compute_PE_spec t) as (Hlen & Hge & Hsame & _).
  split; [done|]. split.
  - rewrite !last_lookup, Hlen. apply Hge. lia.
  - intros j d' Hd'. destruct (Hsame j d' Hd') as (d & Hd & ->).
    exists d. done.
Qed.

(** X12.  Running the loop on a table it has already filled changes
    nothing: a second pass computes the same PE column. *)
Theorem X12_PE_loop_idempotent (t : list dlrow) :
  compute_PE (compute_PE t) = compute_PE t.
Proof.
  destruct (ExactFacts.compute_PE_spec t) as (Hlen0 & _ & _ & Hrec1).
  set (t1 := compute_PE t) in *.
  destruct (ExactFacts.compute_PE_spec t1) as (Hlen & Hge & Hsame & Hrec).
  assert (Hall : forall k j, (j + k + 1 = length t1)%nat ->
            compute_PE t1 !! j = t1 !! j).
  { induction k as [|k IH]; intros j Hj.
    - apply Hge. lia.
    - destruct (Hrec j) as (d2 & d2' & Hd2 & Hd2' & HPE2); [lia|].
      destruct (Hsame j d2 Hd2) as (d1 & Hd1 & E).
      destruct (Hrec1 j) as (e & e' & He & He' & HPE1); [lia|].
      assert (e = d1) as -> by congruence.
      rewrite (IH (j + 1)%nat) in Hd2' by lia.
      assert (d2' = e') as -> by congruence.
      rewrite Hd2, Hd1. f_equal. rewrite E.
      assert (PE d2 = PE d1) as ->.
      { rewrite HPE2, HPE1, E. done. }
      by destruct d1. }
  apply list_eq. intros j.
  destruct (decide (j < length t1)%nat) as [Hj|Hj].
  - apply (Hall (length t1 - j - 1)%nat). lia.
  - rewrite !lookup_ge_None_2; [done|lia|lia].
Qed.

(** ** _ros_DL_index on any table *)

(** X13.  On an empty table [_ros_DL_index] returns 0.  On any other table
    it returns the position of the last row whose DL is at or below the
    row's result, and raises an IndexError when no row is, as for a result
    of [NaN]; it raises nothing else. *)
Theorem X13_DL_index_cases (DLs : list dlrow) (row : obs) :
  match _ros_DL_index DLs row with
  | OK i =>
      (DLs = [] /\ i = 0%nat) \/
      (exists d, DLs !! i = Some d /\ fleb (DL d) (res row) = true /\
         forall j d', (i < j)%nat -> DLs !! j = Some d' ->
           fleb (DL d') (res row) = false)
  | Raise IndexError =>
      DLs <> [] /\ Forall (fun d => fleb (DL d) (res row) = false) DLs
  | Raise (ValueError _) => False
  end.
Proof.
  unfold _ros_DL_index.
  destruct DLs as [|d0 DLs]; [left; by split|].
  change (0 <? length (d0 :: DLs))%nat with true. cbv iota zeta.
  set (p := fun d => fleb (DL d) (res row)).
  destruct (last (np_where p 0 (d0 :: DLs))) as [i|] eqn:E.
  - right.
    pose proof E as Hin.
    apply last_Some_elem_of, ExactFacts.np_where_spec in Hin as (_ & d & Hd & Hp).
    rewrite Nat.sub_0_r in Hd. exists d. split; [done|]. split; [done|].
    intros j d' Hj Hd'. destruct (p d') eqn:Hp'; [|done].
    assert (j ∈ np_where p 0 (d0 :: DLs)) as Hj'.
    { apply ExactFacts.np_where_spec. split; [lia|]. exists d'.
      by rewrite Nat.sub_0_r. }
    pose proof (ExactFacts.np_where_last p _ 0 i E j Hj'). lia.
  - split; [done|]. apply Forall_forall. intros d Hd.
    destruct (p d) eqn:Hp; [|done].
    apply list_elem_of_lookup in Hd as [j Hj].
    assert (j ∈ np_where p 0 (d0 :: DLs)) as Hin.
    { apply ExactFacts.np_where_spec. split; [lia|]. exists d.
      by rewrite Nat.sub_0_r. }
    apply last_None in E. rewrite E in Hin. inversion Hin.
Qed.

(** ** The rows of the public frame *)

(** X14.  The public frame holds the input rows, none lost and none
    repeated: each with its label, its result and its qualifier
    standardised to 'ND' or '='.  [N_tot] is the number of rows and [N_nd]
    the number of censored ones. *)
Theorem X14_rows_preserved
    (ppf np_log np_exp : float64 -> float64)
    (linregress : list float64 -> list float64 -> float64 * float64)
    (input : list obs) (ndsymbol : string) (fitlogs : bool) :
  valid input ->
  exists o, __init__ ppf np_log np_exp linregress input ndsymbol fitlogs = OK o /\
    N_tot o = length input /\
    N_nd o = n_censored ndsymbol input /\
    map final_row_key (data o) ≡ₚ map (obs_key ndsymbol) input.
Proof.
  intros Hv. destruct (valid_lift _ Hv) as (d0 & -> & Hd).
  destruct (ExactFacts.rows_preserved ppf np_log np_exp linregress
              d0 ndsymbol fitlogs Hd) as (o & Ho & Htot & Hnd & Hperm).
  exists (lift_MR o). split; [by apply init_of_exact|].
  split; [simpl; by rewrite length_map|].
  split; [by rewrite n_censored_lift|].
  simpl. rewrite !map_map.
  pose proof (Permutation_map
                (fun k : Z * Q * string => (fst (fst k), Fin (snd (fst k)), snd k))
                Hperm) as H.
  by rewrite !map_map in H.
Qed.

Lemma X14_witness :
  valid example_data /\
  forall ppf np_log np_exp linregress,
    exists o, __init__ ppf np_log np_exp linregress example_data "ND" true = OK o /\
      N_tot o = length example_data /\
      N_nd o = n_censored "ND" example_data /\
      map final_row_key (data o) ≡ₚ map (obs_key "ND") example_data.
Proof.
  split; [exact example_valid|].
  intros ppf np_log np_exp linregress.
  exact (X14_rows_preserved ppf np_log np_exp linregress example_data "ND" true
           example_valid).
Defined.

(** ** The regression branch *)

(** X15.  With log-space fitting on, the line is fitted to [np.log] of the
    detected results against their Zprelim, every censored final value is
    [np.exp(slope * Zprelim + intercept)], and every detected final value
    is the observed result. *)
Theorem X15_regression_in_logs
    (ppf np_log np_exp : float64 -> float64)
    (linregress : list float64 -> list float64 -> float64 * float64)
    (input : list obs) (ndsymbol : string) :
  valid input -> regression_path ndsymbol input ->
  exists o slope intercept,
    __init__ ppf np_log np_exp linregress input ndsymbol true = OK o /\
    fit o = Some (slope, intercept) /\
    (slope, intercept) =
      linregress
        (map (fun r : estimated => default NaN (Zprelim r))
             (List.filter (fun r : estimated => is_detect r) (debug o)))
        (map (fun r : estimated => np_log (res r))
             (List.filter (fun r : estimated => is_detect r) (debug o))) /\
    (forall r : estimated, r ∈ debug o ->
       exists p, plot_pos r = Some p /\ Zprelim r = Some (ppf p)) /\
    (forall r : estimated, r ∈ debug o -> is_ND r = true ->
       exists z, Zprelim r = Some z /\
         modeled_data r = Some (np_exp (fadd (fmul slope z) intercept)) /\
         final_data r = np_exp (fadd (fmul slope z) intercept)) /\
    (forall r : estimated, r ∈ debug o -> is_ND r = false ->
       modeled_data r = Some NaN /\ final_data r = res r).
Proof.
  intros Hv Hp. destruct (valid_lift _ Hv) as (d0 & -> & Hd).
  apply regression_path_lift in Hp.
  destruct (ExactFacts.regression_in_logs ppf np_log np_exp linregress
              d0 ndsymbol Hd Hp)
    as (o & slope & intercept & Ho & Hfit & Hline & Hz & Hcens & Hdet).
  exists (lift_MR o), slope, intercept. split; [by apply init_of_exact|].
  split; [done|]. split; [|split; [|split]].
  - simpl.
    rewrite (filter_map_comm lift_estimated _
               (fun r : Exact.estimated =>
                  Exact.is_detect (Exact.ob (Exact.ix (Exact.rk r))))) by done.
    rewrite !map_map. exact Hline.
  - intros r Hr. apply lifted_row in Hr as (r0 & -> & Hr0). exact (Hz r0 Hr0).
  - intros r Hr Hnd. apply lifted_row in Hr as (r0 & -> & Hr0).
    exact (Hcens r0 Hr0 Hnd).
  - intros r Hr Hnd. apply lifted_row in Hr as (r0 & -> & Hr0).
    exact (Hdet r0 Hr0 Hnd).
Qed.

Lemma X15_witness :
  valid example_data /\ regression_path "ND" example_data /\
  forall ppf np_log np_exp linregress,
    exists o slope intercept,
      __init__ ppf np_log np_exp linregress example_data "ND" true = OK o /\
      fit o = Some (slope, intercept) /\
      (forall r : estimated, r ∈ debug o -> is_ND r = true ->
         exists z, Zprelim r = Some z /\
           final_data r = np_exp (fadd (fmul slope z) intercept)) /\
      (forall r : estimated, r ∈ debug o -> is_ND r = false ->
         final_data r = res r).
Proof.
  split; [exact example_valid|]. split; [exact example_regression_path|].
  intros ppf np_log np_exp linregress.
  destruct (X15_regression_in_logs ppf np_log np_exp linregress example_data "ND"
              example_valid example_regression_path)
    as (o & slope & intercept & Ho & Hfit & _ & _ & Hcens & Hdet).
  exists o, slope, intercept. split; [done|]. split; [done|]. split.
  - intros r Hr Hnd. destruct (Hcens r Hr Hnd) as (z & Hz & _ & Hf). eauto.
  - intros r Hr Hnd. by destruct (Hdet r Hr Hnd).
Defined.

(** X16.  On data whose results are finite positive numbers, on the
    regression path, two consecutive rows of the frame that share a
    detection-limit index and a censoring status have finite plotting
    positions, the second strictly above the first: within a group no two
    rows get the same position. *)
Theorem X16_positions_increase
    (ppf np_log np_exp : float64 -> float64)
    (linregress : list float64 -> list float64 -> float64 * float64)
    (input : list obs) (ndsymbol : string) (fitlogs : bool) :
  valid input -> regression_path ndsymbol input ->
  exists o, __init__ ppf np_log np_exp linregress input ndsymbol fitlogs = OK o /\
    forall (n : nat) (r1 r2 : estimated),
      debug o !! n = Some r1 -> debug o !! S n = Some r2 ->
      DLIndex r1 = DLIndex r2 -> is_ND r1 = is_ND r2 ->
      exists q1 q2,
        plot_pos r1 = Some (Fin q1) /\ plot_pos r2 = Some (Fin q2) /\ q1 < q2.
Proof.
  intros Hv Hp. destruct (valid_lift _ Hv) as (d0 & -> & Hd).
  apply regression_path_lift in Hp.
  destruct (ExactFacts.positions_increase ppf np_log np_exp linregress
              d0 ndsymbol fitlogs Hd Hp) as (o & Ho & H).
  exists (lift_MR o). split; [by apply init_of_exact|].
  intros n r1 r2 Hr1 Hr2 HD Hnd.
  apply lifted_lookup in Hr1 as (p1 & -> & Hp1).
  apply lifted_lookup in Hr2 as (p2 & -> & Hp2).
  exact (H n p1 p2 Hp1 Hp2 HD Hnd).
Qed.

Lemma X16_witness :
  valid example_data /\ regression_path "ND" example_data /\
  forall ppf np_log np_exp linregress,
    exists o, __init__ ppf np_log np_exp linregress example_data "ND" true = OK o /\
      forall (n : nat) (r1 r2 : estimated),
        debug o !! n = Some r1 -> debug o !! S n = Some r2 ->
        DLIndex r1 = DLIndex r2 -> is_ND r1 = is_ND r2 ->
        exists q1 q2,
          plot_pos r1 = Some (Fin q1) /\ plot_pos r2 = Some (Fin q2) /\ q1 < q2.
Proof.
  split; [exact example_valid|]. split; [exact example_regression_path|].
  intros ppf np_log np_exp linregress.
  exact (X16_positions_increase ppf np_log np_exp linregress example_data "ND" true
           example_valid example_regression_path).
Defined.

(** ** The three branches together *)

(** X17.  The constructor stores a fit exactly when the regression runs:
    with at least one censored observation, at least two detected ones and
    a censored fraction of at most 0.8.  The same condition decides whether
    the plot_pos, Zprelim and modeled_data columns exist. *)
Theorem X17_fit_iff_regression
    (ppf np_log np_exp : float64 -> float64)
    (linregress : list float64 -> list float64 -> float64 * float64)
    (input : list obs) (ndsymbol : string) (fitlogs : bool) :
  valid input ->
  exists o, __init__ ppf np_log np_exp linregress input ndsymbol fitlogs = OK o /\
    (is_Some (fit o) <-> regression_path ndsymbol input) /\
    (forall r : estimated, r ∈ debug o ->
       (is_Some (plot_pos r) <-> regression_path ndsymbol input) /\
       (is_Some (Zprelim r) <-> regression_path ndsymbol input) /\
       (is_Some (modeled_data r) <-> regression_path ndsymbol input)).
Proof.
  intros Hv. destruct (valid_lift _ Hv) as (d0 & -> & Hd).
  destruct (ExactFacts.fit_iff_regression ppf np_log np_exp linregress
              d0 ndsymbol fitlogs Hd) as (o & Ho & Hfit & Hcols).
  exists (lift_MR o). split; [by apply init_of_exact|].
  rewrite regression_path_lift. split; [exact Hfit|].
  intros r Hr. apply lifted_row in Hr as (r0 & -> & Hr0).
  rewrite !regression_path_lift. exact (Hcols r0 Hr0).
Qed.

(** X18.  On every branch a detected observation keeps its observed value
    as final value: the frame's row under its label has [final_data] equal
    to its result, whether the regression ran or not and whatever
    [fitlogs] is. *)
Theorem X18_detects_unchanged
    (ppf np_log np_exp : float64 -> float64)
    (linregress : list float64 -> list float64 -> float64 * float64)
    (input : list obs) (ndsymbol : string) (fitlogs : bool) :
  valid input ->
  exists o, __init__ ppf np_log np_exp linregress input ndsymbol fitlogs = OK o /\
    (forall r : estimated, r ∈ debug o -> is_ND r = false ->
       final_data r = res r) /\
    (forall x, x ∈ input -> censored ndsymbol x = false ->
       exists r, r ∈ data o /\ f_index r = index x /\ f_res r = res x /\
         f_final_data r = res x).
Proof.
  intros Hv. destruct (valid_lift _ Hv) as (d0 & -> & Hd).
  destruct (ExactFacts.detects_unchanged ppf np_log np_exp linregress
              d0 ndsymbol fitlogs Hd) as (o & Ho & Hfin & Hrows).
  exists (lift_MR o). split; [by apply init_of_exact|]. split.
  - intros r Hr Hnd. apply lifted_row in Hr as (r0 & -> & Hr0).
    exact (Hfin r0 Hr0 Hnd).
  - intros x Hx Hc. apply lifted_row in Hx as (x0 & -> & Hx0).
    destruct (Hrows x0 Hx0 Hc) as (r0 & Hr0 & Hi & Hres & Hf).
    exists (lift_final_row r0). split; [by apply row_lifted|].
    simpl. split; [done|]. split; [by rewrite Hres|done].
Qed.

Lemma X17_witness :
  valid example_data /\
  forall ppf np_log np_exp linregress,
    exists o, __init__ ppf np_log np_exp linregress example_data "ND" true = OK o /\
      (is_Some (fit o) <-> regression_path "ND" example_data).
Proof.
  split; [exact example_valid|].
  intros ppf np_log np_exp linregress.
  destruct (X17_fit_iff_regression ppf np_log np_exp linregress example_data "ND"
              true example_valid) as (o & Ho & Hfit & _).
  exists o. split; [exact Ho|exact Hfit].
Defined.

Lemma X18_witness :
  valid example_data /\
  forall ppf np_log np_exp linregress,
    exists o, __init__ ppf np_log np_exp linregress example_data "ND" true = OK o /\
      (forall r : estimated, r ∈ debug o -> is_ND r = false ->
         final_data r = res r).
Proof.
  split; [exact example_valid|].
  intros ppf np_log np_exp linregress.
  destruct (X18_detects_unchanged ppf np_log np_exp linregress example_data "ND"
              true example_valid) as (o & Ho & Hfin & _).
  exists o. split; [exact Ho|exact Hfin].
Defined.
